(** * bit_array_c: arrays of arbitrary bit length

    A shallow embedding of [bitarray.cpp] / [bitarray.h].

    A bit array is a [std::vector<unsigned char>] together with the number
    of bits it holds.  Bit 0 is the most significant bit of char 0 and the
    last bit is the least significant non-spare bit of the last char.

    - an [unsigned char] is a [Z] in [0, 256), an [unsigned int] a [Z] in
      [0, 2^32); the operands of the C++ operators are promoted to [int],
      so the operators are the ones of [Z], and the conversion of a result
      back to [unsigned char] or [unsigned int] is written out
      ([to_uchar], [to_uint]);
    - [m_Array] is a [list Z]; [operator[]] of [std::vector] is not
      bounds-checked, an access outside the vector has no defined result:
      it is [None] in the option monad the methods run in ([rd], [wr]);
    - a method that mutates [*this] returns the new object. *)

From Stdlib Require Import ZArith Lia List Bool.
From stdpp Require Import base option list list_numbers.
Import ListNotations.
Local Open Scope Z_scope.

(** ** Machine arithmetic *)

Definition CHAR_BIT : Z := 8.
Definition UCHAR_MAX : Z := 255.

(** Conversion to [unsigned char] and to [unsigned int]. *)
Definition to_uchar (x : Z) : Z := x mod 256.
Definition to_uint (x : Z) : Z := x mod 2 ^ 32.

(** What the types of the fields guarantee. *)
Definition uchar (x : Z) : Prop := 0 <= x < 256.
Definition uint (x : Z) : Prop := 0 <= x < 2 ^ 32.

(** ** Macros *)

(** [BIT_CHAR(bit)]: every use has an unsigned operand. *)
Definition BIT_CHAR (bit : Z) : Z := bit / CHAR_BIT.

(** [BIT_IN_CHAR(bit)], unsigned operand. *)
Definition BIT_IN_CHAR (bit : Z) : Z :=
  Z.shiftl 1 (CHAR_BIT - 1 - bit mod CHAR_BIT).

(** [BITS_TO_CHARS(bits)]: used on the [int] argument of the constructor,
    so the division truncates toward zero. *)
Definition BITS_TO_CHARS (bits : Z) : Z := Z.quot (bits - 1) CHAR_BIT + 1.

Definition MS_BIT : Z := Z.shiftl 1 (CHAR_BIT - 1).

(** ** The class *)

Record bit_array_c : Type := mk_bit_array {
  m_NumBits : Z;        (* unsigned int: number of bits in the array *)
  m_Array : list Z      (* std::vector<unsigned char> *)
}.

(** [m_Array.size()] *)
Definition vsize (a : list Z) : Z := Z.of_nat (length a).

(** [m_Array[i]] as an rvalue and as the target of an assignment. *)
Definition rd (a : list Z) (i : Z) : option Z :=
  if (0 <=? i) && (i <? vsize a) then a !! Z.to_nat i else None.

Definition wr (a : list Z) (i : Z) (x : Z) : option (list Z) :=
  if (0 <=? i) && (i <? vsize a) then Some (<[Z.to_nat i := x]> a) else None.

(** Counted loops over the vector: [cnt] iterations, the loop variable
    starting at [i] and going up (resp. down) by one. *)
Fixpoint for_up (cnt : nat) (i : Z) (body : Z -> list Z -> option (list Z))
    (a : list Z) : option (list Z) :=
  match cnt with
  | O => Some a
  | S c => a' ← body i a; for_up c (i + 1) body a'
  end.

Fixpoint for_down (cnt : nat) (i : Z) (body : Z -> list Z -> option (list Z))
    (a : list Z) : option (list Z) :=
  match cnt with
  | O => Some a
  | S c => a' ← body i a; for_down c (i - 1) body a'
  end.

(** *** Constructors *)

(** [for (int i = 0; i < BITS_TO_CHARS(numBits); ++i) m_Array.push_back(0)] *)
Fixpoint push_zeros (cnt : nat) (a : list Z) : list Z :=
  match cnt with
  | O => a
  | S c => push_zeros c (a ++ [0])
  end.

(** [bit_array_c(int numBits)].  [numBits] is an [int]; it is stored in the
    unsigned field.  ([reserve] only allocates; the argument it gets is
    positive for every [numBits >= 0].  For [numBits <= -15] the argument
    is negative and [reserve] throws: the definition is meant for
    [numBits >= 0], which is what every statement below assumes.) *)
Definition new (numBits : Z) : bit_array_c :=
  {| m_NumBits := to_uint numBits;
     m_Array := push_zeros (Z.to_nat (BITS_TO_CHARS numBits)) [] |}.

(** [bit_array_c(const std::vector<unsigned char> vect, int numBits)] *)
Definition fromBuffer (vect : list Z) (numBits : Z) : bit_array_c :=
  {| m_NumBits := to_uint numBits; m_Array := vect |}.

(** *** Set / clear *)

Definition with_array (v : bit_array_c) (a : list Z) : bit_array_c :=
  {| m_NumBits := m_NumBits v; m_Array := a |}.

(** The mask [UCHAR_MAX << (CHAR_BIT - bits)] stored in an [unsigned char]
    (or in a [char] that only ever meets an [unsigned char] operand: the
    low eight bits are the same). *)
Definition spare_mask (bits : Z) : Z :=
  to_uchar (Z.shiftl UCHAR_MAX (CHAR_BIT - bits)).

(** [m_Array.assign(m_Array.size(), x)] *)
Definition assign_all (a : list Z) (x : Z) : list Z := replicate (length a) x.

(** [SetAll]: every character becomes [UCHAR_MAX], then the spare bits of
    the last one are zeroed. *)
Definition SetAll (v : bit_array_c) : option bit_array_c :=
  let a := assign_all (m_Array v) UCHAR_MAX in
  let bits := m_NumBits v mod CHAR_BIT in
  if negb (bits =? 0) then
    a' ← wr a (BIT_CHAR (to_uint (m_NumBits v - 1))) (spare_mask bits);
    Some (with_array v a')
  else Some (with_array v a).

(** [ClearAll] *)
Definition ClearAll (v : bit_array_c) : bit_array_c :=
  with_array v (assign_all (m_Array v) 0).

(** [SetBit] and [ClearBit]: nothing happens when the bit is out of range. *)
Definition SetBit (v : bit_array_c) (bit : Z) : option bit_array_c :=
  if m_NumBits v <=? bit then Some v
  else
    x ← rd (m_Array v) (BIT_CHAR bit);
    a' ← wr (m_Array v) (BIT_CHAR bit) (to_uchar (Z.lor x (BIT_IN_CHAR bit)));
    Some (with_array v a').

Definition ClearBit (v : bit_array_c) (bit : Z) : option bit_array_c :=
  if m_NumBits v <=? bit then Some v
  else
    let mask := to_uchar (BIT_IN_CHAR bit) in
    let mask := to_uchar (Z.lnot mask) in
    x ← rd (m_Array v) (BIT_CHAR bit);
    a' ← wr (m_Array v) (BIT_CHAR bit) (to_uchar (Z.land x mask));
    Some (with_array v a').

(** [operator[]] *)
Definition get (v : bit_array_c) (bit : Z) : option bool :=
  x ← rd (m_Array v) (BIT_CHAR bit);
  Some (negb (Z.land x (BIT_IN_CHAR bit) =? 0)).

(** *** Comparison *)

(** [operator==] and [operator<] of [std::vector]: same size and the same
    elements; lexicographical comparison. *)
Fixpoint vec_eq (a b : list Z) : bool :=
  match a, b with
  | [], [] => true
  | x :: a', y :: b' => (x =? y) && vec_eq a' b'
  | _, _ => false
  end.

Fixpoint vec_lt (a b : list Z) : bool :=
  match a, b with
  | _, [] => false
  | [], _ :: _ => true
  | x :: a', y :: b' =>
      if x <? y then true else if y <? x then false else vec_lt a' b'
  end.

(** [operator==], [!=], [<], [<=], [>], [>=]: each tests the lengths, then
    compares the vectors. *)
Definition op_eq (v other : bit_array_c) : bool :=
  if negb (m_NumBits v =? m_NumBits other) then false
  else vec_eq (m_Array v) (m_Array other).

Definition op_ne (v other : bit_array_c) : bool :=
  if negb (m_NumBits v =? m_NumBits other) then true
  else negb (vec_eq (m_Array v) (m_Array other)).

Definition op_lt (v other : bit_array_c) : bool :=
  if negb (m_NumBits v =? m_NumBits other) then false
  else vec_lt (m_Array v) (m_Array other).

Definition op_le (v other : bit_array_c) : bool :=
  if negb (m_NumBits v =? m_NumBits other) then false
  else negb (vec_lt (m_Array other) (m_Array v)).

Definition op_gt (v other : bit_array_c) : bool :=
  if negb (m_NumBits v =? m_NumBits other) then false
  else vec_lt (m_Array other) (m_Array v).

Definition op_ge (v other : bit_array_c) : bool :=
  if negb (m_NumBits v =? m_NumBits other) then false
  else negb (vec_lt (m_Array v) (m_Array other)).

(** *** Increment / decrement *)

(** The loop [for (i = BIT_CHAR(m_NumBits - 1); i >= 0; i--)] of
    [operator++], with its early [return]. *)
Fixpoint inc_loop (cnt : nat) (i maxValue one : Z) (a : list Z)
    : option (list Z) :=
  match cnt with
  | O => Some a
  | S c =>
      x ← rd a i;
      if negb (x =? maxValue) then wr a i (to_uchar (x + one))
      else a' ← wr a i 0; inc_loop c (i - 1) UCHAR_MAX 1 a'
  end.

Fixpoint dec_loop (cnt : nat) (i maxValue one : Z) (a : list Z)
    : option (list Z) :=
  match cnt with
  | O => Some a
  | S c =>
      x ← rd a i;
      if one <=? x then wr a i (to_uchar (x - one))
      else a' ← wr a i maxValue; dec_loop c (i - 1) UCHAR_MAX 1 a'
  end.

(** [maxValue] and [one] for the last character. *)
Definition last_max (i : Z) : Z :=
  if negb (i =? 0) then spare_mask i else UCHAR_MAX.
Definition last_one (i : Z) : Z :=
  if negb (i =? 0) then to_uchar (Z.shiftl 1 (CHAR_BIT - i)) else 1.

(** [operator++] and [operator--] (the postfix forms call the prefix ones). *)
Definition op_inc (v : bit_array_c) : option bit_array_c :=
  if vsize (m_Array v) =? 0 then Some v
  else
    let i := m_NumBits v mod CHAR_BIT in
    let top := BIT_CHAR (to_uint (m_NumBits v - 1)) in
    a' ← inc_loop (Z.to_nat (top + 1)) top (last_max i) (last_one i) (m_Array v);
    Some (with_array v a').

Definition op_dec (v : bit_array_c) : option bit_array_c :=
  if vsize (m_Array v) =? 0 then Some v
  else
    let i := m_NumBits v mod CHAR_BIT in
    let top := BIT_CHAR (to_uint (m_NumBits v - 1)) in
    a' ← dec_loop (Z.to_nat (top + 1)) top (last_max i) (last_one i) (m_Array v);
    Some (with_array v a').

(** *** Assignment and in-place bitwise operators *)

(** [operator=] *)
Definition assign (v src : bit_array_c) : bit_array_c :=
  if negb (m_NumBits v =? m_NumBits src) then v
  else if (vsize (m_Array v) =? 0) || (vsize (m_Array src) =? 0) then v
  else with_array v (m_Array src).

(** [for (i = 0; i < m_Array.size(); i++) m_Array[i] = m_Array[i] op
    src.m_Array[i]]: the source is read at every index of this array. *)
Fixpoint bytewise (op : Z -> Z -> Z) (a src : list Z) : option (list Z) :=
  match a with
  | [] => Some []
  | x :: a' =>
      match src with
      | [] => None
      | y :: src' => r ← bytewise op a' src'; Some (to_uchar (op x y) :: r)
      end
  end.

(** [operator&=], [operator^=], [operator|=] *)
Definition op_assign (op : Z -> Z -> Z) (v src : bit_array_c)
    : option bit_array_c :=
  if negb (m_NumBits v =? m_NumBits src) then Some v
  else a' ← bytewise op (m_Array v) (m_Array src); Some (with_array v a').

Definition and_assign := op_assign Z.land.
Definition xor_assign := op_assign Z.lxor.
Definition or_assign := op_assign Z.lor.

(** [Not]: complement every character, then zero the spare bits of the
    last one. *)
Definition Not (v : bit_array_c) : option bit_array_c :=
  if vsize (m_Array v) =? 0 then Some v
  else
    let a := map (fun x => to_uchar (Z.lnot x)) (m_Array v) in
    let bits := m_NumBits v mod CHAR_BIT in
    if negb (bits =? 0) then
      let top := BIT_CHAR (to_uint (m_NumBits v - 1)) in
      x ← rd a top;
      a' ← wr a top (to_uchar (Z.land x (spare_mask bits)));
      Some (with_array v a')
    else Some (with_array v a).

(** Value-returning operators: copy through the buffer constructor (whose
    [int] parameter receives the unsigned [m_NumBits]), then apply the
    in-place form. *)
Definition op_not (v : bit_array_c) : option bit_array_c :=
  Not (fromBuffer (m_Array v) (m_NumBits v)).
Definition op_and (v other : bit_array_c) : option bit_array_c :=
  and_assign (fromBuffer (m_Array v) (m_NumBits v)) other.
Definition op_xor (v other : bit_array_c) : option bit_array_c :=
  xor_assign (fromBuffer (m_Array v) (m_NumBits v)) other.
Definition op_or (v other : bit_array_c) : option bit_array_c :=
  or_assign (fromBuffer (m_Array v) (m_NumBits v)) other.

(** *** Shifts *)

(** One bit to the left across the whole array. *)
Definition shl_bit (n : Z) (a : list Z) : option (list Z) :=
  let top := BIT_CHAR (to_uint (n - 1)) in
  a1 ← for_up (Z.to_nat top) 0 (fun j a =>
          x ← rd a j;
          a ← wr a j (to_uchar (Z.shiftl x 1));
          y ← rd a (j + 1);
          if negb (Z.land y MS_BIT =? 0)
          then x ← rd a j; wr a j (to_uchar (Z.lor x 1))
          else Some a) a;
  x ← rd a1 top;
  wr a1 top (to_uchar (Z.shiftl x 1)).

(** [operator<<=].  [chars] whole characters are moved first
    ([i + chars] and [i - chars] are [unsigned int] expressions), then the
    array is shifted [shifts % CHAR_BIT] times by one bit. *)
Definition op_shl (v : bit_array_c) (shifts : Z) : option bit_array_c :=
  let chars := shifts / CHAR_BIT in
  let shifts := shifts mod CHAR_BIT in
  if m_NumBits v <=? shifts then Some (ClearAll v)
  else
    let a := m_Array v in
    a1 ← (if 0 <? chars then
            a ← for_up (Z.to_nat (vsize a - chars)) 0 (fun i a =>
                  x ← rd a (to_uint (i + chars)); wr a i x) a;
            let i := to_uint (vsize a) in
            for_down (Z.to_nat chars) chars (fun chars a =>
              wr a (to_uint (i - chars)) 0) a
          else Some a);
    a2 ← for_up (Z.to_nat shifts) 0 (fun _ => shl_bit (m_NumBits v)) a1;
    Some (with_array v a2).

(** One bit to the right across the whole array. *)
Definition shr_bit (n : Z) (a : list Z) : option (list Z) :=
  let top := BIT_CHAR (to_uint (n - 1)) in
  a1 ← for_down (Z.to_nat top) top (fun j a =>
          x ← rd a j;
          a ← wr a j (to_uchar (Z.shiftr x 1));
          y ← rd a (j - 1);
          if negb (Z.land y 1 =? 0)
          then x ← rd a j; wr a j (to_uchar (Z.lor x MS_BIT))
          else Some a) a;
  x ← rd a1 0;
  wr a1 0 (to_uchar (Z.shiftr x 1)).

(** [operator>>=].  Here the loop variable of the character moves is an
    [int]; the spare bits are zeroed at the end. *)
Definition op_shr (v : bit_array_c) (shifts : Z) : option bit_array_c :=
  let chars := shifts / CHAR_BIT in
  let shifts := shifts mod CHAR_BIT in
  if m_NumBits v <=? shifts then Some (ClearAll v)
  else
    let a := m_Array v in
    let top := BIT_CHAR (to_uint (m_NumBits v - 1)) in
    a1 ← (if 0 <? chars then
            a ← for_down (Z.to_nat (top - chars + 1)) top (fun i a =>
                  x ← rd a (i - chars); wr a i x) a;
            for_down (Z.to_nat chars) chars (fun chars a => wr a (chars - 1) 0) a
          else Some a);
    a2 ← for_up (Z.to_nat shifts) 0 (fun _ => shr_bit (m_NumBits v)) a1;
    let i := m_NumBits v mod CHAR_BIT in
    if negb (i =? 0) then
      x ← rd a2 top;
      a3 ← wr a2 top (to_uchar (Z.land x (spare_mask i)));
      Some (with_array v a3)
    else Some (with_array v a2).

(** ** Specification vocabulary *)

Definition INT_MAX : Z := 2 ^ 31 - 1.

(** [ceil(n / 8)], the number of storage units [n] bits need. *)
Definition ceil8 (n : Z) : Z := (n + 7) / 8.

(** What the declared types of the two fields guarantee. *)
Definition well_typed (v : bit_array_c) : Prop :=
  uint (m_NumBits v) /\ Forall uchar (m_Array v).

(** Invariant A: the storage has exactly [ceil(length / 8)] units. *)
Definition InvariantA (v : bit_array_c) : Prop :=
  vsize (m_Array v) = ceil8 (m_NumBits v).

(** Invariant B: every bit of the final storage unit whose position in the
    array is at or beyond the length is zero.  The bit at offset [j] from
    the most significant end of the final unit has position
    [8 * (size - 1) + j]. *)
Definition final_unit (a : list Z) : Z := List.last a 0.

Definition spare_zero (v : bit_array_c) : bool :=
  forallb (fun j =>
             (8 * (vsize (m_Array v) - 1) + j <? m_NumBits v)
             || negb (Z.testbit (final_unit (m_Array v)) (7 - j)))
          [0; 1; 2; 3; 4; 5; 6; 7].

Definition all_zero (v : bit_array_c) : Prop :=
  Forall (fun x => x = 0) (m_Array v).

(** The array read as an unsigned integer, bit 0 most significant: the
    bits are the ones [operator[]] returns at the indices [0 .. length - 1]. *)
Definition bit_value (v : bit_array_c) (i : Z) : Z :=
  match get v i with
  | Some true => 1
  | _ => 0
  end.

Definition value (v : bit_array_c) : Z :=
  fold_left (fun acc i => 2 * acc + bit_value v i) (seqZ 0 (m_NumBits v)) 0.

(** The storage read as a big-endian number in base 256. *)
Definition be_value (a : list Z) : Z :=
  fold_left (fun acc x => 256 * acc + x) a 0.

(** The big-endian number of the storage without the spare bits. *)
Definition packed_value (v : bit_array_c) : Z :=
  be_value (m_Array v) / 2 ^ (8 * vsize (m_Array v) - m_NumBits v).

(** The number of spare bit positions after the last bit. *)
Definition spare_count (v : bit_array_c) : Z :=
  8 * vsize (m_Array v) - m_NumBits v.

(** A storage of [s] characters whose final character has its [c] low bits
    zero. *)
Definition storage_ok (s c : Z) (a : list Z) : Prop :=
  vsize a = s /\ Forall uchar a /\ final_unit a mod 2 ^ c = 0.

(** An array as the class means it to be: fields in the range of their
    types, Invariant A and Invariant B. *)
Definition well_formed (v : bit_array_c) : Prop :=
  well_typed v /\ InvariantA v /\ spare_zero v = true.

(** The outcome [r] of a method called on [v] is an array of the same
    length that is well formed. *)
Definition keeps (v : bit_array_c) (r : option bit_array_c) : Prop :=
  exists v', r = Some v' /\ m_NumBits v' = m_NumBits v /\ well_formed v'.

(** The [c] low bits of the character [x] are zero. *)
Definition spare_clear (c x : Z) : bool := x mod 2 ^ c =? 0.

(** [uchar] as a test. *)
Definition ucharb (x : Z) : bool := (0 <=? x) && (x <? 256).

(** ** The index proxy *)

(** [Size()] *)
Definition Size (v : bit_array_c) : Z := m_NumBits v.

(** [bit_array_index_c]: the array the pointer refers to ([None] for a
    null pointer) and the index.  The array is carried in the proxy: the
    state of the array after an assignment through the proxy is the one
    the proxy then holds. *)
Record bit_array_index_c : Type := mk_bit_array_index {
  m_BitArray : option bit_array_c;
  m_Index : Z
}.

(** [operator()]: a proxy for [this] and [bit]. *)
Definition op_call (v : bit_array_c) (bit : Z) : bit_array_index_c :=
  {| m_BitArray := Some v; m_Index := bit |}.

(** [bit_array_index_c::operator=] *)
Definition index_assign (p : bit_array_index_c) (src : bool)
    : option bit_array_index_c :=
  match m_BitArray p with
  | None => Some p
  | Some v =>
      if Size v <=? m_Index p then Some p
      else
        v' ← (if src then SetBit v (m_Index p) else ClearBit v (m_Index p));
        Some {| m_BitArray := Some v'; m_Index := m_Index p |}
  end.

(** ** Dump *)











(** ** One-bit shifts as functions on the storage *)

(** The storage after one bit to the left: every character is doubled and
    takes the top bit of its right neighbour. *)
Fixpoint shl1 (a : list Z) : list Z :=
  match a with
  | [] => []
  | x :: r => to_uchar (2 * x + hd 0 r / 128) :: shl1 r
  end.

(** The storage after one bit to the right: every character is halved and
    takes the low bit of its left neighbour, [cin] for the first one. *)
Fixpoint shr1 (cin : Z) (a : list Z) : list Z :=
  match a with
  | [] => []
  | x :: r => (x / 2 + 128 * cin) :: shr1 (x mod 2) r
  end.

(** ** Sequences of calls *)

(** [k] calls of one method, one after the other. *)
Fixpoint repeated (k : nat) (f : bit_array_c -> option bit_array_c)
    (v : bit_array_c) : option bit_array_c :=
  match k with
  | O => Some v
  | S k' => v' ← f v; repeated k' f v'
  end.

(** ** Closed instances *)

(** Proves [well_formed v] for a closed array [v]. *)
Ltac closed_well_formed :=
  split;
  [ split; [ vm_compute; split; [discriminate | reflexivity]
           | repeat constructor; vm_compute; discriminate ]
  | split; reflexivity ].

(** ** Tactics *)

(** Case analysis on a number known to lie in [0, 8). *)
Ltac enum8 a :=
  let H := fresh in
  assert (a = 0 \/ a = 1 \/ a = 2 \/ a = 3 \/ a = 4 \/ a = 5 \/ a = 6 \/ a = 7)
    as H by lia;
  destruct H as [->|[->|[->|[->|[->|[->|[->| ->]]]]]]].

(** ** Basic facts *)

Lemma ceil8_spec n : 8 * (ceil8 n - 1) < n <= 8 * ceil8 n.
Proof. unfold ceil8. pose proof (Z.div_mod (n + 7) 8). pose proof (Z.mod_pos_bound (n + 7) 8). lia. Qed.

Lemma ceil8_unique n m : 8 * (m - 1) < n <= 8 * m -> m = ceil8 n.
Proof. pose proof (ceil8_spec n). lia. Qed.

Lemma vsize_nonneg a : 0 <= vsize a.
Proof. unfold vsize. lia. Qed.

Lemma vsize_app a b : vsize (a ++ b) = vsize a + vsize b.
Proof. unfold vsize. rewrite length_app. lia. Qed.

Lemma vsize_insert a i x : vsize (<[i := x]> a) = vsize a.
Proof. unfold vsize. by rewrite length_insert. Qed.

Lemma vsize_replicate k x : vsize (replicate k x) = Z.of_nat k.
Proof. unfold vsize. by rewrite length_replicate. Qed.

Lemma rd_in a i : 0 <= i < vsize a -> exists x, rd a i = Some x /\ a !! Z.to_nat i = Some x.
Proof.
  intros Hi. unfold rd.
  destruct (a !! Z.to_nat i) as [x|] eqn:E.
  - exists x. split; [|done].
    replace ((0 <=? i) && (i <? vsize a)) with true; [done|].
    symmetry. apply andb_true_iff. split; [apply Z.leb_le | apply Z.ltb_lt]; lia.
  - apply lookup_ge_None in E. unfold vsize in Hi. lia.
Qed.

Lemma rd_Some a i x : rd a i = Some x -> 0 <= i < vsize a /\ a !! Z.to_nat i = Some x.
Proof.
  unfold rd. destruct ((0 <=? i) && (i <? vsize a)) eqn:E; [|done].
  apply andb_true_iff in E as [H1 H2]. apply Z.leb_le in H1. apply Z.ltb_lt in H2.
  intros ->. split; [lia | done].
Qed.

Lemma wr_in a i x : 0 <= i < vsize a -> wr a i x = Some (<[Z.to_nat i := x]> a).
Proof.
  intros Hi. unfold wr.
  replace ((0 <=? i) && (i <? vsize a)) with true; [done|].
  symmetry. apply andb_true_iff. split; [apply Z.leb_le | apply Z.ltb_lt]; lia.
Qed.

Lemma wr_Some a i x a' : wr a i x = Some a' -> 0 <= i < vsize a /\ a' = <[Z.to_nat i := x]> a.
Proof.
  unfold wr. destruct ((0 <=? i) && (i <? vsize a)) eqn:E; [|done].
  apply andb_true_iff in E as [H1 H2]. apply Z.leb_le in H1. apply Z.ltb_lt in H2.
  intros [= <-]. split; [lia | done].
Qed.

Lemma wr_out a i x : vsize a <= i \/ i < 0 -> wr a i x = None.
Proof.
  intros Hi. unfold wr.
  destruct ((0 <=? i) && (i <? vsize a)) eqn:E; [|done].
  apply andb_true_iff in E as [H1 H2]. apply Z.leb_le in H1. apply Z.ltb_lt in H2. lia.
Qed.

Lemma rd_middle l x r : rd (l ++ x :: r) (vsize l) = Some x.
Proof.
  destruct (rd_in (l ++ x :: r) (vsize l)) as (y & -> & Hy).
  - rewrite vsize_app. unfold vsize. simpl. lia.
  - unfold vsize in Hy. rewrite Nat2Z.id in Hy.
    rewrite list_lookup_middle in Hy by done. done.
Qed.

Lemma wr_middle l x r y : wr (l ++ x :: r) (vsize l) y = Some (l ++ y :: r).
Proof.
  rewrite wr_in.
  - unfold vsize. rewrite Nat2Z.id. f_equal.
    replace (length l) with (length l + 0)%nat by lia.
    by rewrite insert_app_r.
  - rewrite vsize_app. unfold vsize. simpl. lia.
Qed.

Lemma push_zeros_replicate k a : push_zeros k a = a ++ replicate k 0.
Proof.
  revert a. induction k as [|k IH]; intros a; simpl.
  - by rewrite app_nil_r.
  - rewrite IH, <- app_assoc. done.
Qed.

Lemma vec_eq_true a b : vec_eq a b = true <-> a = b.
Proof.
  revert b. induction a as [|x a IH]; intros [|y b]; simpl; try done.
  rewrite andb_true_iff, IH, Z.eqb_eq. split; [intros [-> ->] | intros [= -> ->]]; done.
Qed.

Lemma to_uint_small n : uint n -> to_uint n = n.
Proof. unfold uint, to_uint. intros. by apply Z.mod_small. Qed.

(** ** Construction *)

Lemma BITS_TO_CHARS_pos n : 1 <= n -> BITS_TO_CHARS n = ceil8 n.
Proof.
  intros Hn. unfold BITS_TO_CHARS, CHAR_BIT.
  rewrite Z.quot_div_nonneg by lia.
  apply ceil8_unique.
  pose proof (Z.div_mod (n - 1) 8). pose proof (Z.mod_pos_bound (n - 1) 8). lia.
Qed.

(** What the length constructor builds: for every [n] from 1 up to
    [INT_MAX] it yields [ceil(n / 8)] units, all zero, so Invariant A holds
    after construction; for [n = 0] it yields one zero unit
    ([BITS_TO_CHARS(0)] is 1), not zero units. *)
Theorem new_storage (n : Z) :
  0 <= n <= INT_MAX ->
  m_NumBits (new n) = n /\
  all_zero (new n) /\
  vsize (m_Array (new n)) = Z.max 1 (ceil8 n) /\
  (1 <= n -> InvariantA (new n)).
Proof.
  intros Hn. unfold INT_MAX in Hn.
  assert (Hs : vsize (m_Array (new n)) = Z.max 1 (ceil8 n)).
  { unfold new. simpl. rewrite push_zeros_replicate. simpl.
    rewrite vsize_replicate.
    destruct (Z.eq_dec n 0) as [-> | Hne]; [reflexivity|].
    rewrite BITS_TO_CHARS_pos by lia.
    pose proof (ceil8_spec n). lia. }
  split; [|split; [|split]].
  - simpl. apply to_uint_small. unfold uint. lia.
  - unfold all_zero, new. simpl. rewrite push_zeros_replicate. simpl.
    apply Forall_forall. intros x Hx. by apply elem_of_replicate in Hx as [-> _].
  - exact Hs.
  - intros H1. unfold InvariantA. rewrite Hs.
    replace (m_NumBits (new n)) with n.
    + pose proof (ceil8_spec n). lia.
    + symmetry. simpl. apply to_uint_small. unfold uint. lia.
Qed.

Lemma new_storage_witness :
  m_NumBits (new 20) = 20 /\ all_zero (new 20) /\
  vsize (m_Array (new 20)) = Z.max 1 (ceil8 20) /\
  (1 <= 20 -> InvariantA (new 20)).
Proof. apply (new_storage 20). unfold INT_MAX. lia. Defined.

(** C2 (the length constructor yields [ceil(n / 8)] zero units, none for
    [n = 0]) fails in the code at [n = 0].  The macro [BITS_TO_CHARS],
    commented as the number of characters required to contain the number
    of bits, is [(bits - 1) / CHAR_BIT + 1] with a division that truncates
    toward zero, which is 1 at [bits = 0]: [new(0)] has one storage unit
    where [ceil(0 / 8)] is zero, and Invariant A does not hold for it. *)
Lemma new_zero_has_one_unit :
  m_Array (new 0) = [0] /\ vsize (m_Array (new 0)) = 1 /\ ceil8 0 = 0 /\
  ~ InvariantA (new 0).
Proof. repeat split. intros H. vm_compute in H. discriminate H. Qed.

(** C9: the buffer constructor stores the buffer as it is.  When the final
    unit of the buffer has a set bit at a position at or beyond the length,
    the constructed array has nonzero spare bits, and [operator==] tells it
    from every array of that length whose spare bits are zero. *)
Theorem fromBuffer_verbatim (buf : list Z) (n : Z) :
  uint n ->
  m_Array (fromBuffer buf n) = buf /\
  m_NumBits (fromBuffer buf n) = n /\
  ((exists j, 0 <= j < 8 /\ n <= 8 * (vsize buf - 1) + j /\
              Z.testbit (final_unit buf) (7 - j) = true) ->
   spare_zero (fromBuffer buf n) = false /\
   forall w, m_NumBits w = n -> spare_zero w = true ->
             op_eq (fromBuffer buf n) w = false).
Proof.
  intros Hn. split; [done|]. split; [by apply to_uint_small|].
  intros (j & Hj & Hp & Hb).
  assert (Hs : spare_zero (fromBuffer buf n) = false).
  { unfold spare_zero. apply not_true_is_false. intros Hall.
    rewrite forallb_forall in Hall. specialize (Hall j).
    simpl m_Array in Hall. simpl m_NumBits in Hall.
    rewrite (to_uint_small n Hn), Hb in Hall.
    replace (8 * (vsize buf - 1) + j <? n) with false in Hall
      by (symmetry; apply Z.ltb_ge; lia).
    simpl in Hall. assert (false = true); [|done].
    apply Hall. simpl. lia. }
  split; [exact Hs|].
  intros w Hw Hz. unfold op_eq.
  destruct (negb (m_NumBits (fromBuffer buf n) =? m_NumBits w)); [done|].
  apply not_true_is_false. intros He. apply vec_eq_true in He.
  assert (spare_zero (fromBuffer buf n) = spare_zero w) as Heq.
  { unfold spare_zero. rewrite He. simpl m_NumBits. by rewrite (to_uint_small n Hn), Hw. }
  congruence.
Qed.

Lemma fromBuffer_verbatim_witness :
  spare_zero (fromBuffer [255] 4) = false /\
  op_eq (fromBuffer [255] 4) (fromBuffer [240] 4) = false.
Proof.
  destruct (fromBuffer_verbatim [255] 4) as (_ & _ & H).
  - unfold uint. lia.
  - destruct H as [Hs Hd].
    + exists 4. split; [lia|]. split; [vm_compute; discriminate | reflexivity].
    + split; [exact Hs|]. apply Hd; reflexivity.
Defined.

(** ** Comparison *)

(** C6: arrays of different lengths are neither equal nor ordered: each of
    [==], [<], [<=], [>], [>=] returns false, whatever the contents. *)
Theorem compare_length_mismatch (a b : bit_array_c) :
  m_NumBits a <> m_NumBits b ->
  op_eq a b = false /\ op_lt a b = false /\ op_le a b = false /\
  op_gt a b = false /\ op_ge a b = false.
Proof.
  intros Hne. apply Z.eqb_neq in Hne.
  unfold op_eq, op_lt, op_le, op_gt, op_ge. rewrite Hne. simpl. tauto.
Qed.

Lemma compare_length_mismatch_witness :
  op_eq (new 8) (new 16) = false /\ op_lt (new 8) (new 16) = false /\
  op_le (new 8) (new 16) = false /\ op_gt (new 8) (new 16) = false /\
  op_ge (new 8) (new 16) = false.
Proof. apply compare_length_mismatch. vm_compute. discriminate. Defined.

(** ** In-place bitwise operators *)

(** C8: when the lengths differ, [&=], [^=] and [|=] return at once: the
    array is unchanged.  (The operand is passed by value; the methods have
    no way to change it.) *)
Theorem bitwise_length_mismatch_noop (a b : bit_array_c) :
  m_NumBits a <> m_NumBits b ->
  and_assign a b = Some a /\ xor_assign a b = Some a /\ or_assign a b = Some a.
Proof.
  intros Hne. apply Z.eqb_neq in Hne.
  unfold and_assign, xor_assign, or_assign, op_assign. rewrite Hne. simpl. tauto.
Qed.

Lemma bitwise_length_mismatch_noop_witness :
  and_assign (fromBuffer [240] 8) (fromBuffer [15; 15] 16) = Some (fromBuffer [240] 8) /\
  xor_assign (fromBuffer [240] 8) (fromBuffer [15; 15] 16) = Some (fromBuffer [240] 8) /\
  or_assign (fromBuffer [240] 8) (fromBuffer [15; 15] 16) = Some (fromBuffer [240] 8).
Proof. apply bitwise_length_mismatch_noop. vm_compute. discriminate. Defined.

(** ** Single bits *)

Lemma one_bit_test a b :
  0 <= a < 8 -> 0 <= b < 8 ->
  (Z.land (to_uchar (Z.lor 0 (Z.shiftl 1 (7 - a)))) (Z.shiftl 1 (7 - b)) =? 0)
  = negb (a =? b).
Proof. intros Ha Hb. enum8 a; enum8 b; reflexivity. Qed.

Lemma new_array n : 1 <= n <= INT_MAX ->
  new n = {| m_NumBits := n; m_Array := replicate (Z.to_nat (ceil8 n)) 0 |}.
Proof.
  intros Hn. unfold INT_MAX in Hn. unfold new.
  rewrite push_zeros_replicate, BITS_TO_CHARS_pos by lia. simpl.
  rewrite to_uint_small by (unfold uint; lia). done.
Qed.

Lemma BIT_CHAR_lt_ceil8 n i : 0 <= i < n -> 0 <= BIT_CHAR i < ceil8 n.
Proof.
  intros Hi. unfold BIT_CHAR, CHAR_BIT. pose proof (ceil8_spec n).
  pose proof (Z.div_mod i 8). pose proof (Z.mod_pos_bound i 8). lia.
Qed.

(** C5: on the zero array of length [n], [SetBit(i)] makes [operator[]]
    return true at [i] and false at every other index below [n]. *)
Theorem setbit_on_zero (n i : Z) :
  0 < n <= INT_MAX -> 0 <= i < n ->
  exists v', SetBit (new n) i = Some v' /\
             m_NumBits v' = n /\
             rd (m_Array v') (i / 8) = Some (2 ^ (7 - i mod 8)) /\
             get v' i = Some true /\
             (forall j, 0 <= j < n -> j <> i -> get v' j = Some false).
Proof.
  intros Hn Hi. rewrite new_array by lia.
  set (a := replicate (Z.to_nat (ceil8 n)) 0).
  assert (Hsz : vsize a = ceil8 n).
  { unfold a. rewrite vsize_replicate. pose proof (ceil8_spec n). lia. }
  pose proof (BIT_CHAR_lt_ceil8 n i Hi) as Hci.
  assert (Hrd : rd a (BIT_CHAR i) = Some 0).
  { destruct (rd_in a (BIT_CHAR i)) as (x & Hx & Hl); [lia|].
    unfold a in Hl. apply lookup_replicate in Hl as [-> _]. done. }
  unfold SetBit. simpl m_NumBits. simpl m_Array.
  replace (n <=? i) with false by (symmetry; apply Z.leb_gt; lia).
  rewrite Hrd. simpl. rewrite wr_in by lia. simpl.
  eexists. split; [reflexivity|]. split; [reflexivity|].
  assert (Hmi : 0 <= i mod 8 < 8) by (apply Z.mod_pos_bound; lia).
  assert (Hlen : (Z.to_nat (BIT_CHAR i) < length a)%nat) by (unfold vsize in Hsz; lia).
  split.
  { unfold with_array. simpl m_Array. change (i / 8) with (BIT_CHAR i).
    destruct (rd_in (<[Z.to_nat (BIT_CHAR i) := to_uchar (Z.lor 0 (BIT_IN_CHAR i))]> a) (BIT_CHAR i))
      as (x & -> & Hl); [rewrite vsize_insert; lia|].
    rewrite list_lookup_insert_eq in Hl by done. injection Hl as <-. f_equal.
    unfold BIT_IN_CHAR, CHAR_BIT. replace (8 - 1 - i mod 8) with (7 - i mod 8) by lia.
    clear -Hmi. enum8 (i mod 8); reflexivity. }
  split.
  - unfold get, with_array. simpl m_Array.
    destruct (rd_in (<[Z.to_nat (BIT_CHAR i) := to_uchar (Z.lor 0 (BIT_IN_CHAR i))]> a) (BIT_CHAR i))
      as (x & -> & Hl); [rewrite vsize_insert; lia|].
    rewrite list_lookup_insert_eq in Hl by done. injection Hl as <-. simpl.
    unfold BIT_IN_CHAR, CHAR_BIT. replace (8 - 1 - i mod 8) with (7 - i mod 8) by lia.
    rewrite one_bit_test by done. by rewrite Z.eqb_refl.
  - intros j Hj Hne. unfold get, with_array. simpl m_Array.
    pose proof (BIT_CHAR_lt_ceil8 n j Hj) as Hcj.
    assert (Hmj : 0 <= j mod 8 < 8) by (apply Z.mod_pos_bound; lia).
    destruct (rd_in (<[Z.to_nat (BIT_CHAR i) := to_uchar (Z.lor 0 (BIT_IN_CHAR i))]> a) (BIT_CHAR j))
      as (x & -> & Hl); [rewrite vsize_insert; lia|]. simpl.
    destruct (Z.eq_dec (BIT_CHAR i) (BIT_CHAR j)) as [He | Hd].
    + rewrite <- He in Hl. rewrite list_lookup_insert_eq in Hl by done. injection Hl as <-.
      unfold BIT_IN_CHAR, CHAR_BIT.
      replace (8 - 1 - i mod 8) with (7 - i mod 8) by lia.
      replace (8 - 1 - j mod 8) with (7 - j mod 8) by lia.
      rewrite one_bit_test by done.
      replace (i mod 8 =? j mod 8) with false; [done|].
      symmetry. apply Z.eqb_neq. unfold BIT_CHAR, CHAR_BIT in He.
      pose proof (Z.div_mod i 8). pose proof (Z.div_mod j 8). lia.
    + rewrite list_lookup_insert_ne in Hl by lia.
      unfold a in Hl. apply lookup_replicate in Hl as [-> _]. done.
Qed.

Lemma setbit_on_zero_witness :
  exists v', SetBit (new 20) 11 = Some v' /\
             m_NumBits v' = 20 /\
             rd (m_Array v') (11 / 8) = Some (2 ^ (7 - 11 mod 8)) /\
             get v' 11 = Some true /\
             (forall j, 0 <= j < 20 -> j <> 11 -> get v' j = Some false).
Proof. apply (setbit_on_zero 20 11); unfold INT_MAX; lia. Defined.

(** ** Increment and decrement *)

Lemma be_value_snoc l x : be_value (l ++ [x]) = 256 * be_value l + x.
Proof. unfold be_value. by rewrite fold_left_app. Qed.

Lemma be_value_bound l : Forall uchar l -> 0 <= be_value l < 256 ^ vsize l.
Proof.
  induction l as [|x l IH] using rev_ind; intros Hl.
  - vm_compute. split; [discriminate | reflexivity].
  - apply Forall_app in Hl as [Hl Hx%Forall_inv].
    specialize (IH Hl). rewrite be_value_snoc, vsize_app.
    change (vsize [x]) with 1. rewrite Z.pow_add_r by (pose proof (vsize_nonneg l); lia).
    change (256 ^ 1) with 256. unfold uchar in Hx. lia.
Qed.

Lemma length_snoc (l : list Z) x : length (l ++ [x]) = S (length l).
Proof. rewrite length_app. simpl. lia. Qed.

(** The carry through full characters: the prefix [l] is incremented as a
    base-256 number, what follows it is left alone. *)
Lemma inc_loop_full l r :
  Forall uchar l ->
  exists l', inc_loop (length l) (vsize l - 1) UCHAR_MAX 1 (l ++ r) = Some (l' ++ r) /\
             length l' = length l /\ Forall uchar l' /\
             be_value l' = (be_value l + 1) mod 256 ^ vsize l.
Proof.
  revert r. induction l as [|y l IH] using rev_ind; intros r Hl.
  - exists []. simpl. split; [done|]. split; [done|]. split; [done|]. reflexivity.
  - apply Forall_app in Hl as [Hl Hy%Forall_inv].
    rewrite length_snoc, vsize_app. change (vsize [y]) with 1.
    replace (vsize l + 1 - 1) with (vsize l) by lia.
    rewrite <- app_assoc. simpl.
    rewrite rd_middle. simpl.
    pose proof (be_value_bound l Hl) as Hb.
    pose proof (vsize_nonneg l) as Hs.
    destruct (y =? UCHAR_MAX) eqn:E; simpl.
    + apply Z.eqb_eq in E. subst y.
      rewrite wr_middle. simpl.
      destruct (IH (0 :: r) Hl) as (l' & Hrun & Hlen & Hu & Hv).
      rewrite Hrun. exists (l' ++ [0]).
      split; [by rewrite <- app_assoc|].
      split; [by rewrite !length_snoc, Hlen|].
      split; [apply Forall_app; split; [done | apply Forall_singleton; unfold uchar; lia]|].
      rewrite !be_value_snoc, Hv. unfold UCHAR_MAX.
      rewrite Z.pow_add_r by lia. rewrite (Z.mul_comm (256 ^ vsize l)).
      change (256 ^ 1) with 256.
      rewrite <- Z.mul_mod_distr_l by lia. rewrite Z.add_0_r. f_equal. lia.
    + apply Z.eqb_neq in E. unfold UCHAR_MAX in E. unfold uchar in Hy.
      rewrite wr_middle. exists (l ++ [to_uchar (y + 1)]).
      unfold to_uchar. rewrite (Z.mod_small (y + 1)) by lia.
      split; [by rewrite <- app_assoc|].
      split; [by rewrite !length_snoc|].
      split; [apply Forall_app; split; [done | apply Forall_singleton; unfold uchar; lia]|].
      rewrite !be_value_snoc. rewrite Z.pow_add_r by lia. change (256 ^ 1) with 256.
      rewrite Z.mod_small; lia.
Qed.

Lemma borrow_arith B P :
  0 < P -> 0 <= B < P ->
  256 * ((B - 1) mod P) + 255 = (256 * B - 1) mod (256 * P).
Proof.
  intros HP HB. destruct (Z.eq_dec B 0) as [-> | Hne].
  - rewrite <- (Z.mod_unique_pos (0 - 1) P (-1) (P - 1)) by lia.
    apply (Z.mod_unique_pos _ _ (-1)); lia.
  - rewrite (Z.mod_small (B - 1)) by lia.
    apply (Z.mod_unique_pos _ _ 0); lia.
Qed.

Lemma dec_loop_full l r :
  Forall uchar l ->
  exists l', dec_loop (length l) (vsize l - 1) UCHAR_MAX 1 (l ++ r) = Some (l' ++ r) /\
             length l' = length l /\ Forall uchar l' /\
             be_value l' = (be_value l - 1) mod 256 ^ vsize l.
Proof.
  revert r. induction l as [|y l IH] using rev_ind; intros r Hl.
  - exists []. simpl. split; [done|]. split; [done|]. split; [done|]. reflexivity.
  - apply Forall_app in Hl as [Hl Hy%Forall_inv].
    rewrite length_snoc, vsize_app. change (vsize [y]) with 1.
    replace (vsize l + 1 - 1) with (vsize l) by lia.
    rewrite <- app_assoc. simpl.
    rewrite rd_middle. simpl.
    pose proof (be_value_bound l Hl) as Hb.
    pose proof (vsize_nonneg l) as Hs.
    unfold uchar in Hy.
    destruct (1 <=? y) eqn:E; simpl.
    + apply Z.leb_le in E.
      rewrite wr_middle. exists (l ++ [to_uchar (y - 1)]).
      unfold to_uchar. rewrite (Z.mod_small (y - 1)) by lia.
      split; [by rewrite <- app_assoc|].
      split; [by rewrite !length_snoc|].
      split; [apply Forall_app; split; [done | apply Forall_singleton; unfold uchar; lia]|].
      rewrite !be_value_snoc. rewrite Z.pow_add_r by lia. change (256 ^ 1) with 256.
      rewrite Z.mod_small; lia.
    + apply Z.leb_gt in E. assert (y = 0) as -> by lia.
      rewrite wr_middle. simpl.
      destruct (IH (UCHAR_MAX :: r) Hl) as (l' & Hrun & Hlen & Hu & Hv).
      rewrite Hrun. exists (l' ++ [UCHAR_MAX]).
      split; [by rewrite <- app_assoc|].
      split; [by rewrite !length_snoc, Hlen|].
      split; [apply Forall_app; split; [done | apply Forall_singleton; unfold uchar, UCHAR_MAX; lia]|].
      rewrite !be_value_snoc, Hv. unfold UCHAR_MAX.
      rewrite Z.pow_add_r by lia. change (256 ^ 1) with 256.
      rewrite (Z.mul_comm _ 256). replace (256 * be_value l + 0 - 1) with (256 * be_value l - 1) by lia.
      apply borrow_arith; lia.
Qed.

(** *** Shape of an array under Invariant A *)

Lemma spare_zero_spec v :
  spare_zero v = true <->
  (forall j, 0 <= j < 8 -> m_NumBits v <= 8 * (vsize (m_Array v) - 1) + j ->
             Z.testbit (final_unit (m_Array v)) (7 - j) = false).
Proof.
  unfold spare_zero. rewrite forallb_forall. split.
  - intros H j Hj Hp. specialize (H j). 
    rewrite orb_true_iff, Z.ltb_lt, negb_true_iff in H.
    destruct H as [H | H]; [simpl; lia | lia | done].
  - intros H j Hin. rewrite orb_true_iff, Z.ltb_lt, negb_true_iff.
    destruct (Z.lt_ge_cases (8 * (vsize (m_Array v) - 1) + j) (m_NumBits v)); [by left|].
    right. apply H; [simpl in Hin; lia | lia].
Qed.

Lemma mod_pow2_zero_bits x c :
  0 <= c -> (x mod 2 ^ c = 0 <-> forall k, 0 <= k < c -> Z.testbit x k = false).
Proof.
  intros Hc. split.
  - intros H k Hk. rewrite <- (Z.mod_pow2_bits_low x c k) by lia. rewrite H. apply Z.bits_0.
  - intros H. apply Z.bits_inj'. intros k Hk. rewrite Z.bits_0.
    destruct (Z.lt_ge_cases k c).
    + rewrite Z.mod_pow2_bits_low by lia. apply H. lia.
    + apply Z.mod_pow2_bits_high. lia.
Qed.

Lemma final_unit_snoc l x : final_unit (l ++ [x]) = x.
Proof. unfold final_unit. apply last_last. Qed.

(** Under Invariant A the spare bits are the low [8 * size - length] bits
    of the final unit. *)
Lemma spare_zero_snoc n l x :
  0 <= 8 * (vsize l + 1) - n < 8 ->
  spare_zero {| m_NumBits := n; m_Array := l ++ [x] |} = true <->
  x mod 2 ^ (8 * (vsize l + 1) - n) = 0.
Proof.
  intros Hc. rewrite spare_zero_spec, mod_pow2_zero_bits by lia.
  simpl m_NumBits. simpl m_Array. rewrite final_unit_snoc, vsize_app.
  change (vsize [x]) with 1. split.
  - intros H k Hk. replace k with (7 - (7 - k)) by lia. apply H; lia.
  - intros H j Hj Hp. apply H. lia.
Qed.

Lemma last_max_one c :
  0 <= c < 8 ->
  last_max ((8 - c) mod CHAR_BIT) = 256 - 2 ^ c /\
  last_one ((8 - c) mod CHAR_BIT) = 2 ^ c.
Proof. intros Hc. enum8 c; split; reflexivity. Qed.

(** A non-empty array under Invariant A: its last character is the one
    [BIT_CHAR(m_NumBits - 1)] indexes, and [c = 8 * size - length] spare
    bits follow the last bit. *)
Lemma invA_shape v :
  well_typed v -> InvariantA v -> 1 <= m_NumBits v ->
  exists l x c,
    m_Array v = l ++ [x] /\ Forall uchar l /\ uchar x /\
    0 <= c < 8 /\ m_NumBits v = 8 * (vsize l + 1) - c /\
    BIT_CHAR (to_uint (m_NumBits v - 1)) = vsize l /\
    m_NumBits v mod CHAR_BIT = (8 - c) mod CHAR_BIT.
Proof.
  intros [Hn Ha] HA H1. unfold InvariantA in HA.
  pose proof (ceil8_spec (m_NumBits v)) as Hc.
  destruct (m_Array v) as [|x0 a0] eqn:E using rev_ind.
  - change (vsize []) with 0 in HA. lia.
  - apply Forall_app in Ha as [Hl Hx%Forall_inv].
    rewrite vsize_app in HA. change (vsize [x0]) with 1 in HA.
    exists a0, x0, (8 * (vsize a0 + 1) - m_NumBits v).
    split; [done|]. split; [done|]. split; [done|].
    split; [lia|]. split; [lia|]. unfold uint in Hn. split.
    + rewrite to_uint_small by (unfold uint; lia).
      unfold BIT_CHAR, CHAR_BIT. symmetry. apply (Z.div_unique _ _ _ (m_NumBits v - 1 - 8 * vsize a0)); lia.
    + unfold CHAR_BIT. replace (8 - (8 * (vsize a0 + 1) - m_NumBits v)) with (m_NumBits v + (- vsize a0) * 8) by lia.
      by rewrite Z.mod_add.
Qed.

Lemma pow_bits n l c :
  0 <= c < 8 -> n = 8 * (vsize l + 1) - c ->
  2 ^ n = 256 ^ vsize l * 2 ^ (8 - c).
Proof.
  intros Hc ->. pose proof (vsize_nonneg l).
  replace (8 * (vsize l + 1) - c) with (8 * vsize l + (8 - c)) by lia.
  rewrite Z.pow_add_r, Z.pow_mul_r by lia. done.
Qed.

(** Arithmetic of one step on the last character: [D = 2^c] is the value
    of its least significant used bit, [K = 2^(8 - c)] the number of values
    its used bits take, [B] the number the characters before it hold. *)
Section LastCharArith.
Variables D K B P : Z.
Hypothesis HD : 0 < D.
Hypothesis HK : 0 < K.
Hypothesis H256 : 256 = D * K.
Hypothesis HB : 0 <= B < P.

Lemma div_last b y : (256 * b + D * y) / D = K * b + y.
Proof using HD H256.
  rewrite H256. replace (D * K * b + D * y) with ((K * b + y) * D) by ring.
  apply Z.div_mul. lia.
Qed.

Lemma multiple_of_D x : x mod D = 0 -> x = D * (x / D).
Proof using HD. intros H. pose proof (Z.div_mod x D). lia. Qed.

Lemma inc_step_arith x :
  0 <= x -> x mod D = 0 -> x + D < 256 ->
  (256 * B + (x + D)) / D = ((256 * B + x) / D + 1) mod (K * P).
Proof using All.
  intros Hx Hm Hlt. apply multiple_of_D in Hm. set (y := x / D) in *.
  rewrite Hm. replace (D * y + D) with (D * (y + 1)) by ring.
  rewrite !div_last. rewrite Z.mod_small; [lia|]. nia.
Qed.

Lemma inc_carry_arith :
  (256 * ((B + 1) mod P) + 0) / D = ((256 * B + (256 - D)) / D + 1) mod (K * P).
Proof using All.
  replace (256 * ((B + 1) mod P) + 0) with (256 * ((B + 1) mod P) + D * 0) by ring.
  replace (256 - D) with (D * (K - 1)) by (rewrite H256; ring).
  rewrite !div_last. replace (K * B + (K - 1) + 1) with (K * (B + 1)) by ring.
  rewrite Z.mul_mod_distr_l by lia. lia.
Qed.

Lemma inc_no_overflow x :
  0 <= x < 256 -> x mod D = 0 -> x <> 256 - D -> x + D < 256.
Proof using HD HK H256.
  intros Hx Hm Hne. apply multiple_of_D in Hm. set (y := x / D) in *.
  assert (y < K) by nia.
  assert (y <> K - 1) by (intros Hy; apply Hne; rewrite Hm, Hy, H256; ring).
  assert (y + 2 <= K) by lia. nia.
Qed.

Lemma dec_step_arith x :
  D <= x < 256 -> x mod D = 0 ->
  (256 * B + (x - D)) / D = ((256 * B + x) / D - 1) mod (K * P).
Proof using All.
  intros Hx Hm. apply multiple_of_D in Hm. set (y := x / D) in *.
  assert (1 <= y) by nia. assert (y < K) by nia.
  rewrite Hm. replace (D * y - D) with (D * (y - 1)) by ring.
  rewrite !div_last. rewrite Z.mod_small; [lia|]. nia.
Qed.

Lemma dec_borrow_arith :
  (256 * ((B - 1) mod P) + (256 - D)) / D = ((256 * B + 0) / D - 1) mod (K * P).
Proof using All.
  replace (256 * B + 0) with (256 * B + D * 0) by ring.
  replace (256 - D) with (D * (K - 1)) by (rewrite H256; ring).
  rewrite !div_last.
  destruct (Z.eq_dec B 0) as [H0 | Hne].
  - rewrite <- (Z.mod_unique_pos (B - 1) P (-1) (P - 1)) by lia.
    apply (Z.mod_unique_pos _ _ (-1)); nia.
  - rewrite (Z.mod_small (B - 1)) by lia.
    apply (Z.mod_unique_pos _ _ 0); nia.
Qed.
End LastCharArith.

Lemma pow_split c : 0 <= c < 8 -> 0 < 2 ^ c /\ 0 < 2 ^ (8 - c) /\ 256 = 2 ^ c * 2 ^ (8 - c).
Proof. intros Hc. enum8 c; vm_compute; done. Qed.

(** The loops of [operator++] and [operator--] started on the last
    character [x] of [l ++ [x]], whose [c] low bits are spare and zero. *)
Section LastChar.
Variables (l : list Z) (x c : Z).
Hypothesis Hl : Forall uchar l.
Hypothesis Hx : uchar x.
Hypothesis Hc : 0 <= c < 8.
Hypothesis Hspare : x mod 2 ^ c = 0.

Lemma inc_loop_last :
  exists l' x',
    inc_loop (S (length l)) (vsize l) (256 - 2 ^ c) (2 ^ c) (l ++ [x]) = Some (l' ++ [x']) /\
    vsize l' = vsize l /\ Forall uchar l' /\ uchar x' /\ x' mod 2 ^ c = 0 /\
    be_value (l' ++ [x']) / 2 ^ c
    = (be_value (l ++ [x]) / 2 ^ c + 1) mod (2 ^ (8 - c) * 256 ^ vsize l).
Proof using All.
  destruct (pow_split c Hc) as (HD & HK & H256).
  pose proof (be_value_bound l Hl) as Hbl. unfold uchar in Hx.
  simpl inc_loop. rewrite rd_middle. simpl.
  destruct (x =? 256 - 2 ^ c) eqn:E; simpl.
  - apply Z.eqb_eq in E. rewrite wr_middle. simpl.
    destruct (inc_loop_full l [0] Hl) as (l' & Hrun & Hlen & Hu & Hv).
    rewrite Hrun. exists l', 0. split; [done|].
    split; [unfold vsize; lia|]. split; [done|]. split; [unfold uchar; lia|].
    split; [apply Z.mod_0_l; lia|].
    rewrite !be_value_snoc, Hv, E. by apply inc_carry_arith.
  - apply Z.eqb_neq in E. rewrite wr_middle.
    pose proof (inc_no_overflow _ _ HD HK H256 x Hx Hspare E) as Hlt.
    unfold to_uchar. rewrite (Z.mod_small (x + 2 ^ c)) by lia.
    exists l, (x + 2 ^ c). split; [done|]. split; [done|]. split; [done|].
    split; [unfold uchar; lia|]. split.
    + rewrite <- (Z.mul_1_l (2 ^ c)) at 1. rewrite Z.mod_add by lia. done.
    + rewrite !be_value_snoc. apply inc_step_arith; try done; lia.
Qed.

Lemma dec_loop_last :
  exists l' x',
    dec_loop (S (length l)) (vsize l) (256 - 2 ^ c) (2 ^ c) (l ++ [x]) = Some (l' ++ [x']) /\
    vsize l' = vsize l /\ Forall uchar l' /\ uchar x' /\ x' mod 2 ^ c = 0 /\
    be_value (l' ++ [x']) / 2 ^ c
    = (be_value (l ++ [x]) / 2 ^ c - 1) mod (2 ^ (8 - c) * 256 ^ vsize l).
Proof using All.
  destruct (pow_split c Hc) as (HD & HK & H256).
  pose proof (be_value_bound l Hl) as Hbl. unfold uchar in Hx.
  simpl dec_loop. rewrite rd_middle. simpl.
  destruct (2 ^ c <=? x) eqn:E; simpl.
  - apply Z.leb_le in E. rewrite wr_middle.
    unfold to_uchar. rewrite (Z.mod_small (x - 2 ^ c)) by lia.
    exists l, (x - 2 ^ c). split; [done|]. split; [done|]. split; [done|].
    split; [unfold uchar; lia|]. split.
    + replace (x - 2 ^ c) with (x + (-1) * 2 ^ c) by ring. rewrite Z.mod_add by lia. done.
    + rewrite !be_value_snoc. apply dec_step_arith; try done; lia.
  - apply Z.leb_gt in E. rewrite wr_middle. simpl.
    assert (x = 0) as Hx0.
    { pose proof Hspare as H0. rewrite Z.mod_small in H0 by lia. done. }
    destruct (dec_loop_full l [256 - 2 ^ c] Hl) as (l' & Hrun & Hlen & Hu & Hv).
    rewrite Hrun. exists l', (256 - 2 ^ c). split; [done|].
    split; [unfold vsize; lia|]. split; [done|]. split; [unfold uchar; lia|].
    split.
    + rewrite H256 at 1. replace (2 ^ c * 2 ^ (8 - c) - 2 ^ c) with ((2 ^ (8 - c) - 1) * 2 ^ c) by ring.
      apply Z.mod_mul. lia.
    + rewrite !be_value_snoc, Hv, Hx0. by apply dec_borrow_arith.
Qed.
End LastChar.

(** [operator++] and [operator--] on the packed value. *)
Lemma op_inc_dec_packed v :
  well_typed v -> InvariantA v -> spare_zero v = true -> 1 <= m_NumBits v ->
  (exists v', op_inc v = Some v' /\ m_NumBits v' = m_NumBits v /\
              well_typed v' /\ InvariantA v' /\ spare_zero v' = true /\
              packed_value v' = (packed_value v + 1) mod 2 ^ m_NumBits v) /\
  (exists v', op_dec v = Some v' /\ m_NumBits v' = m_NumBits v /\
              well_typed v' /\ InvariantA v' /\ spare_zero v' = true /\
              packed_value v' = (packed_value v - 1) mod 2 ^ m_NumBits v).
Proof.
  intros Hwt HA HB H1.
  destruct (invA_shape v Hwt HA H1) as (l & x & c & Ha & Hl & Hx & Hc & Hn & Htop & Hmod).
  destruct v as [n a]. simpl in Ha, Hn, Htop, Hmod, H1. subst a.
  apply spare_zero_snoc in HB; [|lia].
  replace (8 * (vsize l + 1) - n) with c in HB by lia.
  destruct (last_max_one c Hc) as [Hmax Hone].
  pose proof (vsize_nonneg l) as Hs.
  pose proof (pow_bits n l c Hc Hn) as Hpow.
  destruct Hwt as [Hun _]. simpl in Hun.
  assert (Hres : forall l' x' w,
    vsize l' = vsize l -> Forall uchar l' -> uchar x' -> x' mod 2 ^ c = 0 ->
    be_value (l' ++ [x']) / 2 ^ c = w mod (2 ^ (8 - c) * 256 ^ vsize l) ->
    let v' := with_array {| m_NumBits := n; m_Array := l ++ [x] |} (l' ++ [x']) in
    m_NumBits v' = n /\ well_typed v' /\ InvariantA v' /\ spare_zero v' = true /\
    packed_value v' = w mod 2 ^ n).
  { intros l' x' w Hsl Hl' Hx' Hsp Hval. unfold with_array. simpl.
    split; [done|]. split.
    { split; [done|]. simpl. apply Forall_app. split; [done|]. by apply Forall_singleton. }
    split.
    { unfold InvariantA in *. simpl in *. rewrite vsize_app in *.
      change (vsize [x']) with 1. change (vsize [x]) with 1 in HA. lia. }
    split.
    { apply spare_zero_snoc; [lia|]. by replace (8 * (vsize l' + 1) - n) with c by lia. }
    unfold packed_value. simpl. rewrite vsize_app. change (vsize [x']) with 1.
    replace (8 * (vsize l' + 1) - n) with c by lia.
    rewrite Hval, Hpow. f_equal. ring. }
  assert (Hpk : packed_value {| m_NumBits := n; m_Array := l ++ [x] |}
                = be_value (l ++ [x]) / 2 ^ c).
  { unfold packed_value. simpl. rewrite vsize_app. change (vsize [x]) with 1.
    by replace (8 * (vsize l + 1) - n) with c by lia. }
  rewrite Hpk.
  unfold op_inc, op_dec. simpl m_Array. simpl m_NumBits.
  rewrite vsize_app. change (vsize [x]) with 1.
  replace (vsize l + 1 =? 0) with false by (symmetry; apply Z.eqb_neq; lia).
  rewrite Htop, Hmod, Hmax, Hone.
  replace (Z.to_nat (vsize l + 1)) with (S (length l)) by (unfold vsize; lia).
  split.
  - destruct (inc_loop_last l x c Hl Hx Hc HB) as (l' & x' & -> & Hsl & Hl' & Hx' & Hsp & Hval).
    eexists. split; [reflexivity|]. by apply Hres.
  - destruct (dec_loop_last l x c Hl Hx Hc HB) as (l' & x' & -> & Hsl & Hl' & Hx' & Hsp & Hval).
    eexists. split; [reflexivity|]. by apply Hres.
Qed.

(** *** The loops stay inside the storage *)

Lemma inc_loop_in_bounds cnt mx one a :
  Z.of_nat cnt <= vsize a ->
  exists a', inc_loop cnt (Z.of_nat cnt - 1) mx one a = Some a' /\ vsize a' = vsize a.
Proof.
  revert mx one a. induction cnt as [|cnt IH]; intros mx one a Hle.
  - exists a. done.
  - simpl inc_loop.
    destruct (rd_in a (Z.of_nat (S cnt) - 1)) as (x & -> & _); [lia|]. simpl.
    destruct (negb (x =? mx)).
    + rewrite wr_in by lia. eexists. split; [done|]. apply vsize_insert.
    + rewrite wr_in by lia. simpl.
      replace (Z.of_nat (S cnt) - 1 - 1) with (Z.of_nat cnt - 1) by lia.
      destruct (IH UCHAR_MAX 1 (<[Z.to_nat (Z.of_nat (S cnt) - 1) := 0]> a)) as (a' & -> & Hs).
      * rewrite vsize_insert. lia.
      * exists a'. split; [done|]. by rewrite Hs, vsize_insert.
Qed.

Lemma dec_loop_in_bounds cnt mx one a :
  Z.of_nat cnt <= vsize a ->
  exists a', dec_loop cnt (Z.of_nat cnt - 1) mx one a = Some a' /\ vsize a' = vsize a.
Proof.
  revert mx one a. induction cnt as [|cnt IH]; intros mx one a Hle.
  - exists a. done.
  - simpl dec_loop.
    destruct (rd_in a (Z.of_nat (S cnt) - 1)) as (x & -> & _); [lia|]. simpl.
    destruct (one <=? x).
    + rewrite wr_in by lia. eexists. split; [done|]. apply vsize_insert.
    + rewrite wr_in by lia. simpl.
      replace (Z.of_nat (S cnt) - 1 - 1) with (Z.of_nat cnt - 1) by lia.
      destruct (IH UCHAR_MAX 1 (<[Z.to_nat (Z.of_nat (S cnt) - 1) := mx]> a)) as (a' & -> & Hs).
      * rewrite vsize_insert. lia.
      * exists a'. split; [done|]. by rewrite Hs, vsize_insert.
Qed.

Lemma top_index n a :
  uint n -> 1 <= n -> vsize a = ceil8 n ->
  BIT_CHAR (to_uint (n - 1)) = vsize a - 1.
Proof.
  intros Hn H1 HA. unfold uint in Hn. rewrite to_uint_small by (unfold uint; lia).
  unfold BIT_CHAR, CHAR_BIT. pose proof (ceil8_spec n).
  symmetry. apply (Z.div_unique _ _ _ (n - 1 - 8 * (vsize a - 1))); lia.
Qed.

(** C10: on an array of at least one bit whose storage has
    [ceil(length / 8)] characters, [operator++] and [operator--] index the
    storage only inside its bounds: both run to their end. *)
Theorem inc_dec_in_bounds (v : bit_array_c) :
  uint (m_NumBits v) -> 1 <= m_NumBits v -> InvariantA v ->
  (exists v', op_inc v = Some v' /\ vsize (m_Array v') = vsize (m_Array v)) /\
  (exists v', op_dec v = Some v' /\ vsize (m_Array v') = vsize (m_Array v)).
Proof.
  intros Hn H1 HA. unfold InvariantA in HA.
  pose proof (top_index _ _ Hn H1 HA) as Htop.
  pose proof (ceil8_spec (m_NumBits v)) as Hc.
  unfold op_inc, op_dec. rewrite Htop.
  replace (vsize (m_Array v) =? 0) with false by (symmetry; apply Z.eqb_neq; lia).
  replace (vsize (m_Array v) - 1 + 1) with (vsize (m_Array v)) by lia.
  set (mx := last_max _). set (one := last_one _).
  replace (vsize (m_Array v) - 1) with (Z.of_nat (Z.to_nat (vsize (m_Array v))) - 1) by lia.
  split.
  - destruct (inc_loop_in_bounds (Z.to_nat (vsize (m_Array v))) mx one (m_Array v))
      as (a' & -> & Hs); [lia|].
    eexists. split; [reflexivity|]. done.
  - destruct (dec_loop_in_bounds (Z.to_nat (vsize (m_Array v))) mx one (m_Array v))
      as (a' & -> & Hs); [lia|].
    eexists. split; [reflexivity|]. done.
Qed.

Lemma inc_dec_in_bounds_witness :
  (exists v', op_inc (fromBuffer [255; 255; 255] 20) = Some v' /\
              vsize (m_Array v') = vsize (m_Array (fromBuffer [255; 255; 255] 20))) /\
  (exists v', op_dec (fromBuffer [255; 255; 255] 20) = Some v' /\
              vsize (m_Array v') = vsize (m_Array (fromBuffer [255; 255; 255] 20))).
Proof.
  apply inc_dec_in_bounds.
  - vm_compute. split; [discriminate | reflexivity].
  - vm_compute. discriminate.
  - reflexivity.
Defined.

(** *** The value read bit by bit is the packed value *)

Lemma land_bit x k : 0 <= k -> negb (Z.land x (Z.shiftl 1 k) =? 0) = Z.testbit x k.
Proof.
  intros Hk. rewrite Z.shiftl_1_l.
  destruct (Z.testbit x k) eqn:E.
  - apply negb_true_iff, Z.eqb_neq. intros H0.
    assert (Z.testbit (Z.land x (2 ^ k)) k = true) as Hb
      by (rewrite Z.land_spec, E, Z.pow2_bits_true by lia; done).
    rewrite H0, Z.bits_0 in Hb. done.
  - apply negb_false_iff, Z.eqb_eq. apply Z.bits_inj'. intros m Hm.
    rewrite Z.land_spec, Z.bits_0, Z.pow2_bits_eqb by lia.
    destruct (Z.eqb_spec k m) as [<- | Hne]; [by rewrite E | apply andb_false_r].
Qed.

Lemma testbit_low B y p :
  uchar y -> 0 <= p < 8 -> Z.testbit (256 * B + y) p = Z.testbit y p.
Proof.
  intros Hy Hp. rewrite <- (Z.mod_pow2_bits_low (256 * B + y) 8 p) by lia.
  change (2 ^ 8) with 256. rewrite Z.add_comm, Z.mul_comm, Z.mod_add by lia.
  unfold uchar in Hy. by rewrite Z.mod_small by lia.
Qed.

Lemma testbit_high B y p :
  uchar y -> 8 <= p -> Z.testbit (256 * B + y) p = Z.testbit B (p - 8).
Proof.
  intros Hy Hp. replace p with ((p - 8) + 8) at 1 by lia.
  rewrite <- Z.div_pow2_bits by lia. change (2 ^ 8) with 256.
  rewrite Z.add_comm, Z.mul_comm, Z.div_add by lia.
  unfold uchar in Hy. rewrite Z.div_small by lia. done.
Qed.

Lemma rd_app_l a b i : 0 <= i < vsize a -> rd (a ++ b) i = rd a i.
Proof.
  intros Hi.
  destruct (rd_in a i Hi) as (x & -> & Hx).
  destruct (rd_in (a ++ b) i) as (y & -> & Hy).
  - rewrite vsize_app. pose proof (vsize_nonneg b). lia.
  - rewrite lookup_app_l in Hy by (unfold vsize in Hi; lia). congruence.
Qed.

Lemma testbit_be_value a i :
  Forall uchar a -> 0 <= i < 8 * vsize a ->
  exists x, rd a (i / 8) = Some x /\
            Z.testbit x (7 - i mod 8) = Z.testbit (be_value a) (8 * vsize a - 1 - i).
Proof.
  induction a as [|y l IH] using rev_ind; intros Ha Hi.
  - change (vsize []) with 0 in Hi. lia.
  - apply Forall_app in Ha as [Hl Hy%Forall_inv].
    rewrite vsize_app in *. change (vsize [y]) with 1 in *.
    rewrite be_value_snoc.
    pose proof (Z.div_mod i 8). pose proof (Z.mod_pos_bound i 8).
    destruct (Z.lt_ge_cases i (8 * vsize l)) as [Hlt | Hge].
    + destruct (IH Hl) as (x & Hrd & Hbit); [lia|].
      exists x. rewrite rd_app_l by lia. split; [done|].
      rewrite testbit_high by (done || lia). rewrite Hbit. f_equal. lia.
    + assert (i / 8 = vsize l) as -> by lia.
      exists y. rewrite rd_middle. split; [done|].
      rewrite testbit_low by (done || lia). f_equal. lia.
Qed.

Lemma bit_value_testbit v i :
  Forall uchar (m_Array v) -> 0 <= i < 8 * vsize (m_Array v) ->
  bit_value v i
  = Z.b2z (Z.testbit (be_value (m_Array v)) (8 * vsize (m_Array v) - 1 - i)).
Proof.
  intros Ha Hi. destruct (testbit_be_value _ i Ha Hi) as (x & Hrd & Hbit).
  unfold bit_value, get, BIT_CHAR, BIT_IN_CHAR, CHAR_BIT. rewrite Hrd. simpl.
  pose proof (Z.mod_pos_bound i 8).
  replace (8 - 1 - i mod 8) with (7 - i mod 8) by lia.
  rewrite land_bit by lia. rewrite Hbit. by destruct (Z.testbit _ _).
Qed.

Lemma div2_step N k :
  0 <= k -> N / 2 ^ k = 2 * (N / 2 ^ (k + 1)) + Z.b2z (Z.testbit N k).
Proof.
  intros Hk. rewrite Z.pow_add_r by lia. change (2 ^ 1) with 2.
  rewrite <- Z.div_div by (try apply Z.pow_pos_nonneg; lia).
  rewrite Z.testbit_spec' by lia. apply Z.div_mod. lia.
Qed.

Lemma value_prefix v (m : nat) :
  Forall uchar (m_Array v) -> Z.of_nat m <= 8 * vsize (m_Array v) ->
  fold_left (fun acc i => 2 * acc + bit_value v i) (seqZ 0 (Z.of_nat m)) 0
  = be_value (m_Array v) / 2 ^ (8 * vsize (m_Array v) - Z.of_nat m).
Proof.
  intros Ha. induction m as [|m IH]; intros Hm.
  - simpl. rewrite Z.sub_0_r. symmetry. apply Z.div_small.
    pose proof (be_value_bound _ Ha) as Hb.
    rewrite Z.pow_mul_r by (pose proof (vsize_nonneg (m_Array v)); lia). done.
  - rewrite Nat2Z.inj_succ, <- Z.add_1_r.
    rewrite seqZ_app by lia. rewrite fold_left_app, IH by lia.
    change (seqZ (0 + Z.of_nat m) 1) with [0 + Z.of_nat m]. simpl.
    rewrite bit_value_testbit by (done || lia).
    rewrite (div2_step _ (8 * vsize (m_Array v) - (Z.of_nat m + 1))) by lia.
    f_equal; [f_equal; f_equal; f_equal; lia | f_equal; f_equal; lia].
Qed.

Lemma value_packed v :
  well_typed v -> m_NumBits v <= 8 * vsize (m_Array v) ->
  value v = packed_value v.
Proof.
  intros [Hn Ha] Hle. unfold value, packed_value. unfold uint in Hn.
  rewrite <- (Z2Nat.id (m_NumBits v)) by lia.
  apply value_prefix; [done | lia].
Qed.

Lemma value_bound v :
  well_typed v -> m_NumBits v <= 8 * vsize (m_Array v) ->
  0 <= value v < 2 ^ m_NumBits v.
Proof.
  intros Hwt Hle. rewrite value_packed by done. destruct Hwt as [Hn Ha].
  unfold packed_value, uint in *. pose proof (be_value_bound _ Ha) as Hb.
  pose proof (vsize_nonneg (m_Array v)) as Hs.
  assert (Hp : 256 ^ vsize (m_Array v)
               = 2 ^ m_NumBits v * 2 ^ (8 * vsize (m_Array v) - m_NumBits v)).
  { rewrite <- Z.pow_add_r by lia. change 256 with (2 ^ 8).
    rewrite <- Z.pow_mul_r by lia. f_equal. lia. }
  assert (0 < 2 ^ (8 * vsize (m_Array v) - m_NumBits v)) by (apply Z.pow_pos_nonneg; lia).
  split.
  - apply Z.div_pos; lia.
  - apply Z.div_lt_upper_bound; [lia|]. rewrite Z.mul_comm, <- Hp. lia.
Qed.

(** Two arrays of the same length, both under Invariants A and B, that hold
    the same number have the same storage. *)
Lemma be_value_inj a b :
  Forall uchar a -> Forall uchar b -> vsize a = vsize b ->
  be_value a = be_value b -> a = b.
Proof.
  revert b. induction a as [|x a IH] using rev_ind; intros b Ha Hb Hs He.
  - destruct b; [done|]. unfold vsize in Hs. simpl in Hs. lia.
  - destruct b as [|y b _] using rev_ind.
    { rewrite vsize_app in Hs. unfold vsize in Hs. simpl in Hs. lia. }
    apply Forall_app in Ha as [Ha Hx%Forall_inv].
    apply Forall_app in Hb as [Hb Hy%Forall_inv].
    rewrite !vsize_app in Hs. change (vsize [x]) with 1 in Hs. change (vsize [y]) with 1 in Hs.
    rewrite !be_value_snoc in He. unfold uchar in Hx, Hy.
    assert (be_value a = be_value b /\ x = y) as [HB ->] by lia.
    f_equal. apply IH; (done || lia).
Qed.

Lemma packed_inj v w :
  well_typed v -> well_typed w -> InvariantA v -> InvariantA w ->
  spare_zero v = true -> spare_zero w = true ->
  m_NumBits v = m_NumBits w -> 1 <= m_NumBits v ->
  packed_value v = packed_value w -> v = w.
Proof.
  intros Hwv Hww HAv HAw HBv HBw Hn H1 Hp.
  destruct (invA_shape v Hwv HAv H1) as (l & x & c & Ha & Hl & Hx & Hc & Hnv & _ & _).
  destruct (invA_shape w Hww HAw ltac:(lia)) as (l' & x' & c' & Ha' & Hl' & Hx' & Hc' & Hnw & _ & _).
  destruct v as [n a], w as [n' a']. simpl in *. subst a a' n'.
  assert (vsize l = vsize l' /\ c = c') as [Hs <-] by lia.
  apply spare_zero_snoc in HBv; [|lia]. apply spare_zero_snoc in HBw; [|lia].
  replace (8 * (vsize l + 1) - n) with c in HBv by lia.
  replace (8 * (vsize l' + 1) - n) with c in HBw by lia.
  unfold packed_value in Hp. simpl in Hp. rewrite !vsize_app in Hp.
  change (vsize [x]) with 1 in Hp. change (vsize [x']) with 1 in Hp.
  replace (8 * (vsize l + 1) - n) with c in Hp by lia.
  replace (8 * (vsize l' + 1) - n) with c in Hp by lia.
  destruct (pow_split c Hc) as (HD & HK & H256).
  f_equal. apply be_value_inj.
  - apply Forall_app; split; [done | by apply Forall_singleton].
  - apply Forall_app; split; [done | by apply Forall_singleton].
  - rewrite !vsize_app. change (vsize [x]) with 1. change (vsize [x']) with 1. lia.
  - rewrite !be_value_snoc in *.
    rewrite (multiple_of_D _ HD x HBv), (multiple_of_D _ HD x' HBw) in Hp |- *.
    rewrite !(div_last _ _ HD H256) in Hp.
    rewrite H256. nia.
Qed.

(** C4: on an array of [n >= 1] bits under Invariants A and B, read as an
    unsigned integer with bit 0 most significant, [operator++] takes the
    value [x] to [(x + 1) mod 2^n] and [operator--] takes it to
    [(x - 1) mod 2^n]: all-ones is incremented to zero, zero is decremented
    to all-ones, and decrementing after incrementing gives the array back. *)
Theorem inc_dec_value (v : bit_array_c) :
  well_typed v -> InvariantA v -> spare_zero v = true -> 1 <= m_NumBits v ->
  (exists v', op_inc v = Some v' /\ m_NumBits v' = m_NumBits v /\
              value v' = (value v + 1) mod 2 ^ m_NumBits v /\
              (value v = 2 ^ m_NumBits v - 1 -> value v' = 0) /\
              op_dec v' = Some v) /\
  (exists v', op_dec v = Some v' /\ m_NumBits v' = m_NumBits v /\
              value v' = (value v - 1) mod 2 ^ m_NumBits v /\
              (value v = 0 -> value v' = 2 ^ m_NumBits v - 1)).
Proof.
  intros Hwt HA HB H1.
  assert (Hfit : forall w, InvariantA w -> m_NumBits w <= 8 * vsize (m_Array w)).
  { intros w Hw. unfold InvariantA in Hw. pose proof (ceil8_spec (m_NumBits w)). lia. }
  pose proof (value_bound v Hwt (Hfit v HA)) as Hvb.
  assert (Hpos : 0 < 2 ^ m_NumBits v) by lia.
  destruct (op_inc_dec_packed v Hwt HA HB H1)
    as [(vi & Hinc & Hni & Hwi & HAi & HBi & Hpi) (vd & Hdec & Hnd & Hwd & HAd & HBd & Hpd)].
  rewrite <- (value_packed v) in Hpi, Hpd by auto.
  rewrite <- (value_packed vi) in Hpi by auto.
  rewrite <- (value_packed vd) in Hpd by auto.
  split.
  - exists vi. split; [done|]. split; [done|]. split; [done|]. split.
    + intros Hmax. rewrite Hpi, Hmax. replace (2 ^ m_NumBits v - 1 + 1) with (2 ^ m_NumBits v) by lia.
      apply Z.mod_same. lia.
    + destruct (op_inc_dec_packed vi Hwi HAi HBi ltac:(lia))
        as [_ (vb & Hback & Hnb & Hwb & HAb & HBb & Hpb)].
      rewrite Hback. f_equal. apply packed_inj; try done; try lia.
      rewrite Hpb, <- (value_packed vi), <- (value_packed v), Hpi, Hni by auto.
      rewrite Zminus_mod_idemp_l. replace (value v + 1 - 1) with (value v) by lia.
      apply Z.mod_small. done.
  - exists vd. split; [done|]. split; [done|]. split; [done|].
    intros Hz. rewrite Hpd, Hz.
    symmetry. apply (Z.mod_unique_pos _ _ (-1)); lia.
Qed.

Lemma inc_dec_value_witness :
  (exists v', op_inc (fromBuffer [255; 255; 240] 20) = Some v' /\
              m_NumBits v' = 20 /\
              value v' = (value (fromBuffer [255; 255; 240] 20) + 1) mod 2 ^ 20 /\
              (value (fromBuffer [255; 255; 240] 20) = 2 ^ 20 - 1 -> value v' = 0) /\
              op_dec v' = Some (fromBuffer [255; 255; 240] 20)) /\
  (exists v', op_dec (fromBuffer [255; 255; 240] 20) = Some v' /\
              m_NumBits v' = 20 /\
              value v' = (value (fromBuffer [255; 255; 240] 20) - 1) mod 2 ^ 20 /\
              (value (fromBuffer [255; 255; 240] 20) = 0 -> value v' = 2 ^ 20 - 1)).
Proof.
  apply (inc_dec_value (fromBuffer [255; 255; 240] 20)).
  - split; [vm_compute; split; [discriminate | reflexivity]|].
    repeat constructor; vm_compute; discriminate.
  - reflexivity.
  - reflexivity.
  - vm_compute. discriminate.
Defined.

(** ** Facts about single characters, by exhaustion *)

Lemma forall_uchar (P : Z -> bool) :
  forallb P (seqZ 0 256) = true -> forall x, uchar x -> P x = true.
Proof.
  intros H x Hx. rewrite forallb_forall in H. apply H.
  apply list_elem_of_In, elem_of_seqZ. unfold uchar in Hx. lia.
Qed.

Lemma forall_uchar2 (P : Z -> Z -> bool) :
  forallb (fun x => forallb (P x) (seqZ 0 256)) (seqZ 0 256) = true ->
  forall x y, uchar x -> uchar y -> P x y = true.
Proof.
  intros H x y Hx Hy.
  apply (forall_uchar (P x)); [|done].
  by apply (forall_uchar (fun x => forallb (P x) (seqZ 0 256))).
Qed.

Lemma spare_clear_iff c x : spare_clear c x = true <-> x mod 2 ^ c = 0.
Proof. unfold spare_clear. apply Z.eqb_eq. Qed.

(** Complementing twice. *)
Lemma complement_twice x : uchar x -> to_uchar (Z.lnot (to_uchar (Z.lnot x))) = x.
Proof.
  intros Hx. apply Z.eqb_eq.
  revert x Hx. apply forall_uchar. vm_compute. reflexivity.
Qed.

Lemma complement_mask_twice c x :
  0 <= c < 8 -> uchar x -> x mod 2 ^ c = 0 ->
  to_uchar (Z.land (to_uchar (Z.lnot
     (to_uchar (Z.land (to_uchar (Z.lnot x)) (256 - 2 ^ c))))) (256 - 2 ^ c)) = x.
Proof.
  intros Hc Hx Hm. apply spare_clear_iff in Hm. revert Hm.
  enum8 c;
    (intros Hm; apply Z.eqb_eq; revert Hm; apply implb_true_iff;
     revert x Hx; apply forall_uchar; vm_compute; reflexivity).
Qed.

Lemma complement_mask_spare c x :
  0 <= c < 8 -> uchar x ->
  uchar (to_uchar (Z.land x (256 - 2 ^ c))) /\
  to_uchar (Z.land x (256 - 2 ^ c)) mod 2 ^ c = 0.
Proof.
  intros Hc Hx.
  assert (spare_clear c (to_uchar (Z.land x (256 - 2 ^ c))) = true) as H.
  { revert x Hx. enum8 c; apply forall_uchar; vm_compute; reflexivity. }
  apply spare_clear_iff in H. split; [|done].
  unfold uchar, to_uchar. apply Z.mod_pos_bound. lia.
Qed.

Lemma to_uchar_uchar x : uchar (to_uchar x).
Proof. unfold uchar, to_uchar. apply Z.mod_pos_bound. lia. Qed.

(** ** Not *)

Lemma spare_mask_bits c :
  0 < c < 8 -> ((8 - c) mod CHAR_BIT =? 0) = false /\
               spare_mask ((8 - c) mod CHAR_BIT) = 256 - 2 ^ c.
Proof. intros Hc. enum8 c; try lia; split; reflexivity. Qed.

Lemma vsize_map (f : Z -> Z) l : vsize (map f l) = vsize l.
Proof. unfold vsize. by rewrite length_map. Qed.

(** What [Not] computes on a non-empty array under Invariant A. *)
Lemma Not_shape n l x c :
  uint n -> 0 <= c < 8 -> n = 8 * (vsize l + 1) - c ->
  Not {| m_NumBits := n; m_Array := l ++ [x] |}
  = Some {| m_NumBits := n;
            m_Array := map (fun y => to_uchar (Z.lnot y)) l ++
                       [if c =? 0 then to_uchar (Z.lnot x)
                        else to_uchar (Z.land (to_uchar (Z.lnot x)) (256 - 2 ^ c))] |}.
Proof.
  intros Hn Hc Hnc. pose proof (vsize_nonneg l) as Hs.
  unfold Not. simpl m_Array. simpl m_NumBits.
  rewrite vsize_app. change (vsize [x]) with 1.
  replace (vsize l + 1 =? 0) with false by (symmetry; apply Z.eqb_neq; lia).
  assert (n mod CHAR_BIT = (8 - c) mod CHAR_BIT) as ->.
  { unfold CHAR_BIT. subst n.
    replace (8 * (vsize l + 1) - c) with (8 - c + vsize l * 8) by lia.
    by rewrite Z.mod_add. }
  rewrite map_app. simpl map.
  destruct (Z.eq_dec c 0) as [-> | Hc0]; [reflexivity|].
  destruct (spare_mask_bits c ltac:(lia)) as [-> ->]. simpl negb. cbv iota.
  replace (c =? 0) with false by (symmetry; apply Z.eqb_neq; lia).
  assert (BIT_CHAR (to_uint (n - 1)) = vsize (map (fun y => to_uchar (Z.lnot y)) l)) as ->.
  { rewrite vsize_map. unfold uint in Hn. rewrite to_uint_small by (unfold uint; lia).
    unfold BIT_CHAR, CHAR_BIT. symmetry.
    apply (Z.div_unique _ _ _ (n - 1 - 8 * vsize l)); lia. }
  rewrite rd_middle. simpl. rewrite wr_middle. done.
Qed.

Lemma invA_empty v :
  uint (m_NumBits v) -> InvariantA v -> m_NumBits v < 1 ->
  m_NumBits v = 0 /\ m_Array v = [].
Proof.
  intros Hn HA H0. unfold uint in Hn. assert (m_NumBits v = 0) as Hz by lia.
  split; [done|]. unfold InvariantA in HA. rewrite Hz in HA.
  change (ceil8 0) with 0 in HA. destruct (m_Array v); [done|].
  unfold vsize in HA. simpl in HA. lia.
Qed.

(** C7, as the code has it: on an array under Invariants A and B,
    [operator~] applied twice gives the array back, and [operator==] says
    so.  (Without Invariant B the spare bits the first [Not] clears stay
    cleared.) *)
Theorem not_involutive (v : bit_array_c) :
  well_typed v -> InvariantA v -> spare_zero v = true ->
  exists v1 v2, op_not v = Some v1 /\ op_not v1 = Some v2 /\
                v2 = v /\ op_eq v2 v = true.
Proof.
  intros Hwt HA HB.
  assert (Heq : op_eq v v = true).
  { unfold op_eq. rewrite Z.eqb_refl. simpl. by apply vec_eq_true. }
  assert (Hgoal : exists v1, op_not v = Some v1 /\ op_not v1 = Some v).
  { destruct (Z.lt_ge_cases (m_NumBits v) 1) as [H0 | H1].
    - destruct Hwt as [Hn _]. destruct (invA_empty v Hn HA H0) as [Hz He].
      destruct v as [n a]. simpl in Hz, He. subst n a.
      exists {| m_NumBits := 0; m_Array := [] |}. split; reflexivity.
    - destruct (invA_shape v Hwt HA H1) as (l & x & c & Ha & Hl & Hx & Hc & Hn & _ & _).
      destruct Hwt as [Hun _].
      destruct v as [n a]. simpl in Ha, Hn, Hun. subst a.
      apply spare_zero_snoc in HB; [|lia].
      replace (8 * (vsize l + 1) - n) with c in HB by lia.
      unfold op_not, fromBuffer. simpl m_Array. simpl m_NumBits.
      rewrite (to_uint_small n Hun).
      rewrite (Not_shape n l x c Hun Hc Hn).
      eexists. split; [reflexivity|]. simpl m_Array. simpl m_NumBits.
      rewrite (to_uint_small n Hun).
      rewrite (Not_shape n _ _ c Hun Hc); [|by rewrite vsize_map].
      f_equal. f_equal. f_equal.
      + rewrite map_map. rewrite <- (map_id l) at 2.
        apply map_ext_Forall. eapply Forall_impl; [exact Hl|].
        intros y Hy. by apply complement_twice.
      + f_equal. destruct (c =? 0) eqn:E.
        * by apply complement_twice.
        * by apply complement_mask_twice. }
  destruct Hgoal as (v1 & H1 & H2). exists v1, v. done.
Qed.

Lemma not_involutive_witness :
  exists v1 v2, op_not (fromBuffer [165; 90; 160] 20) = Some v1 /\
                op_not v1 = Some v2 /\
                v2 = fromBuffer [165; 90; 160] 20 /\
                op_eq v2 (fromBuffer [165; 90; 160] 20) = true.
Proof.
  apply (not_involutive (fromBuffer [165; 90; 160] 20)).
  - split; [vm_compute; split; [discriminate | reflexivity]|].
    repeat constructor; vm_compute; discriminate.
  - reflexivity.
  - reflexivity.
Defined.

(** C7 as stated fails on an array whose spare bits are set: [~~v] has
    them cleared and [operator==] tells it from [v]. *)
Lemma not_twice_dirty_spare :
  (v1 ← op_not (fromBuffer [255] 4); op_not v1) = Some (fromBuffer [240] 4) /\
  op_eq (fromBuffer [240] 4) (fromBuffer [255] 4) = false.
Proof. split; reflexivity. Qed.

(** ** Invariant B is preserved *)

Lemma spare_zero_final v :
  0 <= spare_count v < 8 ->
  spare_zero v = true <-> final_unit (m_Array v) mod 2 ^ spare_count v = 0.
Proof.
  unfold spare_count. intros Hc.
  rewrite spare_zero_spec, mod_pow2_zero_bits by lia. split.
  - intros H k Hk. replace k with (7 - (7 - k)) by lia. apply H; lia.
  - intros H j Hj Hp. apply H. lia.
Qed.

Lemma spare_count_range v :
  InvariantA v -> 0 <= spare_count v < 8.
Proof.
  unfold InvariantA, spare_count. intros ->.
  pose proof (ceil8_spec (m_NumBits v)). lia.
Qed.

Lemma well_formed_storage v :
  well_formed v <->
  uint (m_NumBits v) /\
  storage_ok (ceil8 (m_NumBits v)) (8 * ceil8 (m_NumBits v) - m_NumBits v) (m_Array v).
Proof.
  unfold well_formed, well_typed, storage_ok. split.
  - intros ((Hn & Ha) & HA & HB).
    apply spare_zero_final in HB; [|by apply spare_count_range].
    unfold spare_count in HB. unfold InvariantA in HA. rewrite HA in HB. done.
  - intros (Hn & HA & Ha & HB). split; [done|]. split; [done|].
    apply spare_zero_final; [by apply spare_count_range|].
    unfold spare_count. by rewrite HA.
Qed.

Lemma final_unit_lookup a :
  a <> [] -> a !! Z.to_nat (vsize a - 1) = Some (final_unit a).
Proof.
  destruct a as [|x l _] using rev_ind; [done|]. intros _.
  rewrite final_unit_snoc, vsize_app. change (vsize [x]) with 1.
  replace (Z.to_nat (vsize l + 1 - 1)) with (length l) by (unfold vsize; lia).
  by rewrite list_lookup_middle.
Qed.

Lemma final_unit_insert a i y :
  (i < length a)%nat ->
  final_unit (<[i := y]> a) = if decide (S i = length a) then y else final_unit a.
Proof.
  destruct a as [|x l _] using rev_ind; [simpl; lia|].
  rewrite length_snoc. intros Hi. case_decide as Hd.
  - assert (i = length l + 0)%nat as -> by lia.
    rewrite insert_app_r. simpl. apply final_unit_snoc.
  - rewrite insert_app_l by lia. by rewrite !final_unit_snoc.
Qed.

(** Invariant B through [operator[]]: the spare bits are zero exactly when
    [operator[]] returns false at every position of the final character
    that is at or beyond the length. *)
Lemma spare_zero_get v :
  m_Array v <> [] ->
  spare_zero v = true <->
  (forall p, m_NumBits v <= p ->
             8 * (vsize (m_Array v) - 1) <= p < 8 * vsize (m_Array v) ->
             get v p = Some false).
Proof.
  intros Hne.
  assert (Hs1 : 1 <= vsize (m_Array v)).
  { unfold vsize. destruct (m_Array v); [done | simpl; lia]. }
  assert (Hget : forall p, 8 * (vsize (m_Array v) - 1) <= p < 8 * vsize (m_Array v) ->
            get v p = Some (Z.testbit (final_unit (m_Array v))
                              (7 - (p - 8 * (vsize (m_Array v) - 1))))).
  { intros p Hp. unfold get, BIT_CHAR, BIT_IN_CHAR, CHAR_BIT.
    pose proof (Z.div_mod p 8). pose proof (Z.mod_pos_bound p 8).
    assert (p / 8 = vsize (m_Array v) - 1) as Hd by lia. rewrite Hd.
    destruct (rd_in (m_Array v) (vsize (m_Array v) - 1)) as (x & -> & Hx); [lia|].
    rewrite final_unit_lookup in Hx by done. injection Hx as <-. simpl.
    rewrite land_bit by lia. do 2 f_equal. lia. }
  rewrite spare_zero_spec. split.
  - intros H p Hn Hp. rewrite Hget by done. f_equal. apply H; lia.
  - intros H j Hj Hn.
    specialize (H (8 * (vsize (m_Array v) - 1) + j) Hn ltac:(lia)).
    rewrite Hget in H by lia. injection H as H. rewrite <- H. f_equal. lia.
Qed.

Lemma rd_storage_ok s c a i x :
  storage_ok s c a -> rd a i = Some x ->
  0 <= i < s /\ uchar x /\ (i = s - 1 -> x mod 2 ^ c = 0).
Proof.
  intros (Hs & Ha & Hf) Hrd. apply rd_Some in Hrd as [Hi Hl].
  split; [lia|]. split.
  - rewrite Forall_lookup in Ha. by eapply Ha.
  - intros ->. rewrite <- Hs, final_unit_lookup in Hl.
    + by injection Hl as <-.
    + intros ->. change (vsize []) with 0 in Hi. lia.
Qed.

Lemma rd_storage_ok_in s c a i :
  storage_ok s c a -> 0 <= i < s ->
  exists x, rd a i = Some x /\ uchar x /\ (i = s - 1 -> x mod 2 ^ c = 0).
Proof.
  intros Hok Hi. destruct (rd_in a i) as (x & Hrd & _); [destruct Hok; lia|].
  exists x. split; [done|]. by apply (rd_storage_ok s c a i x Hok) in Hrd as (_ & ? & ?).
Qed.

(** Writing a character [y]: the storage stays as it should when [y] is a
    character and, if it is the final one, has its spare bits zero. *)
Lemma wr_storage_ok s c a i y :
  vsize a = s -> Forall uchar a -> 0 <= i < s -> uchar y ->
  (if i =? s - 1 then y mod 2 ^ c = 0 else final_unit a mod 2 ^ c = 0) ->
  exists a', wr a i y = Some a' /\ storage_ok s c a'.
Proof.
  intros Hs Ha Hi Hy Hf. rewrite wr_in by lia. eexists. split; [done|].
  split; [by rewrite vsize_insert|]. split; [by apply Forall_insert|].
  rewrite final_unit_insert by (unfold vsize in Hs; lia). case_decide as Hd.
  - replace (i =? s - 1) with true in Hf; [done|].
    symmetry. apply Z.eqb_eq. unfold vsize in Hs. lia.
  - replace (i =? s - 1) with false in Hf; [done|].
    symmetry. apply Z.eqb_neq. unfold vsize in Hs. lia.
Qed.

Lemma wr_storage_ok' s c a i y :
  storage_ok s c a -> 0 <= i < s -> uchar y ->
  (i = s - 1 -> y mod 2 ^ c = 0) ->
  exists a', wr a i y = Some a' /\ storage_ok s c a'.
Proof.
  intros (Hs & Ha & Hf) Hi Hy Hc. apply wr_storage_ok; try done.
  destruct (Z.eqb_spec i (s - 1)); auto.
Qed.

Lemma storage_ok_weaken s c a : storage_ok s c a -> storage_ok s 0 a.
Proof. intros (Hs & Ha & _). split; [done|]. split; [done|]. apply Z.mod_1_r. Qed.

Lemma keeps_intro v a' :
  well_formed v ->
  storage_ok (ceil8 (m_NumBits v)) (8 * ceil8 (m_NumBits v) - m_NumBits v) a' ->
  keeps v (Some (with_array v a')).
Proof.
  intros Hwf Hok. exists (with_array v a'). split; [done|]. split; [done|].
  apply well_formed_storage. simpl. split; [|done].
  by destruct Hwf as [[Hn _] _].
Qed.

(** *** Characters: the operations keep them in range and keep their spare
    bits zero *)

Lemma ucharb_iff x : ucharb x = true <-> uchar x.
Proof. unfold ucharb, uchar. rewrite andb_true_iff, Z.leb_le, Z.ltb_lt. done. Qed.

Lemma bitop_uchar x y :
  uchar x -> uchar y ->
  uchar (Z.land x y) /\ uchar (Z.lxor x y) /\ uchar (Z.lor x y).
Proof.
  intros Hx Hy.
  assert (ucharb (Z.land x y) && ucharb (Z.lxor x y) && ucharb (Z.lor x y) = true) as H.
  { revert x y Hx Hy. apply forall_uchar2. vm_compute. reflexivity. }
  rewrite !andb_true_iff, !ucharb_iff in H. tauto.
Qed.

Lemma bitop_spare c x y :
  0 <= c < 8 -> x mod 2 ^ c = 0 -> y mod 2 ^ c = 0 ->
  Z.land x y mod 2 ^ c = 0 /\ Z.lxor x y mod 2 ^ c = 0 /\ Z.lor x y mod 2 ^ c = 0.
Proof.
  intros Hc Hmx Hmy. rewrite !mod_pow2_zero_bits in * by lia.
  split; [|split]; intros k Hk.
  - by rewrite Z.land_spec, Hmx, Hmy.
  - by rewrite Z.lxor_spec, Hmx, Hmy.
  - by rewrite Z.lor_spec, Hmx, Hmy.
Qed.

Lemma setbit_spare c k x :
  0 <= c <= k -> k < 8 -> uchar x -> x mod 2 ^ c = 0 ->
  to_uchar (Z.lor x (Z.shiftl 1 k)) mod 2 ^ c = 0.
Proof.
  intros Hc Hk Hx Hm. apply spare_clear_iff in Hm. apply spare_clear_iff.
  revert Hm. apply implb_true_iff. revert x Hx.
  enum8 c; enum8 k; try lia; apply forall_uchar; vm_compute; reflexivity.
Qed.

Lemma clearbit_spare c k x :
  0 <= c < 8 -> 0 <= k < 8 -> uchar x -> x mod 2 ^ c = 0 ->
  to_uchar (Z.land x (to_uchar (Z.lnot (to_uchar (Z.shiftl 1 k))))) mod 2 ^ c = 0.
Proof.
  intros Hc Hk Hx Hm. apply spare_clear_iff in Hm. apply spare_clear_iff.
  revert Hm. apply implb_true_iff. revert x Hx.
  enum8 c; enum8 k; apply forall_uchar; vm_compute; reflexivity.
Qed.

Lemma shl1_spare c x :
  0 <= c < 8 -> uchar x -> x mod 2 ^ c = 0 ->
  to_uchar (Z.shiftl x 1) mod 2 ^ c = 0.
Proof.
  intros Hc Hx Hm. apply spare_clear_iff in Hm. apply spare_clear_iff.
  revert Hm. apply implb_true_iff. revert x Hx.
  enum8 c; apply forall_uchar; vm_compute; reflexivity.
Qed.

(** *** The methods *)

(** What a well-formed array provides: [s] characters, [c] spare bits. *)
Lemma well_formed_facts v :
  well_formed v ->
  exists s c,
    s = ceil8 (m_NumBits v) /\ c = 8 * s - m_NumBits v /\
    uint (m_NumBits v) /\ 0 <= c < 8 /\ 0 <= s /\ storage_ok s c (m_Array v) /\
    m_NumBits v mod CHAR_BIT = (8 - c) mod CHAR_BIT /\
    (1 <= m_NumBits v -> BIT_CHAR (to_uint (m_NumBits v - 1)) = s - 1 /\ 1 <= s).
Proof.
  intros Hwf. apply well_formed_storage in Hwf as (Hn & Hok).
  exists (ceil8 (m_NumBits v)), (8 * ceil8 (m_NumBits v) - m_NumBits v).
  pose proof (ceil8_spec (m_NumBits v)) as Hc. unfold uint in Hn.
  split; [done|]. split; [done|]. split; [done|]. split; [lia|]. split; [lia|].
  split; [done|]. split.
  - unfold CHAR_BIT.
    replace (8 - (8 * ceil8 (m_NumBits v) - m_NumBits v))
      with (m_NumBits v + (1 - ceil8 (m_NumBits v)) * 8) by lia.
    by rewrite Z.mod_add.
  - intros H1. destruct Hok as (Hs & _). split; [|lia].
    rewrite (top_index _ (m_Array v)); [lia | done | done | done].
Qed.

Lemma spare_bits_zero_iff c :
  0 <= c < 8 -> ((8 - c) mod CHAR_BIT =? 0) = (c =? 0).
Proof. intros Hc. enum8 c; reflexivity. Qed.

Lemma keeps_storage v a' s c :
  well_formed v -> s = ceil8 (m_NumBits v) -> c = 8 * s - m_NumBits v ->
  storage_ok s c a' -> keeps v (Some (with_array v a')).
Proof. intros Hwf -> ->. by apply keeps_intro. Qed.

Lemma keeps_self v : well_formed v -> keeps v (Some v).
Proof. intros Hwf. exists v. done. Qed.

Lemma mask_spare c : 0 <= c < 8 -> uchar (256 - 2 ^ c) /\ (256 - 2 ^ c) mod 2 ^ c = 0.
Proof. intros Hc. enum8 c; split; (reflexivity || (vm_compute; split; [discriminate | reflexivity])). Qed.

Lemma SetAll_keeps v : well_formed v -> keeps v (SetAll v).
Proof.
  intros Hwf.
  destruct (well_formed_facts v Hwf) as (s & c & Hs & Hc & Hn & Hcr & Hs0 & (Hsz & Ha & Hf) & Hmod & Htop).
  unfold SetAll, assign_all. rewrite Hmod, spare_bits_zero_iff by done.
  assert (Hrs : vsize (replicate (length (m_Array v)) UCHAR_MAX) = s)
    by (rewrite vsize_replicate; done).
  assert (Hru : Forall uchar (replicate (length (m_Array v)) UCHAR_MAX)).
  { apply Forall_replicate. unfold uchar, UCHAR_MAX. lia. }
  destruct (Z.eqb_spec c 0) as [Hc0 | Hc0]; simpl negb; cbv iota.
  - apply (keeps_storage v _ s c); try done. split; [done|]. split; [done|].
    rewrite Hc0. apply Z.mod_1_r.
  - assert (H1 : 1 <= m_NumBits v) by (unfold uint in Hn; pose proof (ceil8_spec (m_NumBits v)); lia).
    destruct (Htop H1) as [-> Hs1].
    destruct (spare_mask_bits c ltac:(lia)) as [_ ->].
    destruct (mask_spare c Hcr) as [Hmu Hmm].
    destruct (wr_storage_ok s c _ (s - 1) (256 - 2 ^ c) Hrs Hru) as (a' & -> & Hok);
      [lia | done | by rewrite Z.eqb_refl |].
    simpl. by apply (keeps_storage v _ s c).
Qed.

Lemma ClearAll_keeps v : well_formed v -> keeps v (Some (ClearAll v)).
Proof.
  intros Hwf.
  destruct (well_formed_facts v Hwf) as (s & c & Hs & Hc & Hn & Hcr & Hs0 & (Hsz & Ha & Hf) & Hmod & Htop).
  unfold ClearAll, assign_all. apply (keeps_storage v _ s c); try done.
  split; [by rewrite vsize_replicate|]. split.
  - apply Forall_replicate. unfold uchar. lia.
  - assert (final_unit (replicate (length (m_Array v)) 0) = 0) as ->; [|apply Z.mod_0_l; lia].
    generalize (length (m_Array v)). intros k. induction k as [|k IH]; [done|].
    destruct k; [done|]. exact IH.
Qed.

Lemma bit_in_last_char n s c bit :
  s = ceil8 n -> c = 8 * s - n -> 0 <= bit < n -> BIT_CHAR bit = s - 1 ->
  c <= 7 - bit mod 8 < 8.
Proof.
  intros -> -> Hb Hch. unfold BIT_CHAR, CHAR_BIT in Hch.
  pose proof (Z.div_mod bit 8). pose proof (Z.mod_pos_bound bit 8). lia.
Qed.

Lemma SetBit_keeps v bit : well_formed v -> uint bit -> keeps v (SetBit v bit).
Proof.
  intros Hwf Hb.
  destruct (well_formed_facts v Hwf) as (s & c & Hs & Hc & Hn & Hcr & Hs0 & Hok & Hmod & Htop).
  unfold SetBit. destruct (Z.leb_spec (m_NumBits v) bit) as [Hge | Hlt]; [by apply keeps_self|].
  unfold uint in Hb.
  assert (Hi : 0 <= BIT_CHAR bit < s) by (subst s; apply BIT_CHAR_lt_ceil8; lia).
  destruct (rd_storage_ok_in s c _ _ Hok Hi) as (x & -> & Hx & Hxf). simpl.
  destruct (wr_storage_ok' s c _ (BIT_CHAR bit) (to_uchar (Z.lor x (BIT_IN_CHAR bit))) Hok Hi)
    as (a' & -> & Hok'); [apply to_uchar_uchar | |].
  - intros Hlast. unfold BIT_IN_CHAR, CHAR_BIT.
    replace (8 - 1 - bit mod 8) with (7 - bit mod 8) by lia.
    pose proof (bit_in_last_char _ s c bit Hs Hc ltac:(lia) Hlast).
    apply setbit_spare; auto; lia.
  - simpl. by apply (keeps_storage v _ s c).
Qed.

Lemma ClearBit_keeps v bit : well_formed v -> uint bit -> keeps v (ClearBit v bit).
Proof.
  intros Hwf Hb.
  destruct (well_formed_facts v Hwf) as (s & c & Hs & Hc & Hn & Hcr & Hs0 & Hok & Hmod & Htop).
  unfold ClearBit. destruct (Z.leb_spec (m_NumBits v) bit) as [Hge | Hlt]; [by apply keeps_self|].
  unfold uint in Hb.
  assert (Hi : 0 <= BIT_CHAR bit < s) by (subst s; apply BIT_CHAR_lt_ceil8; lia).
  destruct (rd_storage_ok_in s c _ _ Hok Hi) as (x & -> & Hx & Hxf). simpl.
  destruct (wr_storage_ok' s c _ (BIT_CHAR bit)
              (to_uchar (Z.land x (to_uchar (Z.lnot (to_uchar (BIT_IN_CHAR bit)))))) Hok Hi)
    as (a' & -> & Hok'); [apply to_uchar_uchar | |].
  - intros Hlast. unfold BIT_IN_CHAR, CHAR_BIT.
    pose proof (Z.mod_pos_bound bit 8).
    apply clearbit_spare; auto; lia.
  - simpl. by apply (keeps_storage v _ s c).
Qed.

Lemma Not_keeps v : well_formed v -> keeps v (Not v).
Proof.
  intros Hwf.
  destruct (well_formed_facts v Hwf) as (s & c & Hs & Hc & Hn & Hcr & Hs0 & (Hsz & Ha & Hf) & Hmod & Htop).
  unfold Not. destruct (vsize (m_Array v) =? 0); [by apply keeps_self|].
  rewrite Hmod, spare_bits_zero_iff by done.
  set (a := map (fun x => to_uchar (Z.lnot x)) (m_Array v)).
  assert (Hrs : vsize a = s) by (unfold a; rewrite vsize_map; done).
  assert (Hru : Forall uchar a).
  { unfold a. apply Forall_map, Forall_forall. intros; apply to_uchar_uchar. }
  destruct (Z.eqb_spec c 0) as [Hc0 | Hc0]; simpl.
  - apply (keeps_storage v _ s c); try done. split; [done|]. split; [done|].
    rewrite Hc0. apply Z.mod_1_r.
  - assert (H1 : 1 <= m_NumBits v) by (unfold uint in Hn; pose proof (ceil8_spec (m_NumBits v)); lia).
    destruct (Htop H1) as [-> Hs1].
    destruct (spare_mask_bits c ltac:(lia)) as [_ ->].
    destruct (rd_in a (s - 1)) as (x & -> & Hlx); [lia|]. simpl.
    assert (Hx : uchar x) by (rewrite Forall_lookup in Hru; by eapply Hru).
    destruct (complement_mask_spare c x Hcr Hx) as [Hmu Hmm].
    destruct (wr_storage_ok s c a (s - 1) (to_uchar (Z.land x (256 - 2 ^ c))) Hrs Hru) as (a' & -> & Hok);
      [lia | done | by rewrite Z.eqb_refl |].
    simpl. by apply (keeps_storage v _ s c).
Qed.

Lemma final_unit_cons x y l : final_unit (x :: y :: l) = final_unit (y :: l).
Proof. reflexivity. Qed.

Lemma final_unit_uchar a : Forall uchar a -> uchar (final_unit a).
Proof.
  destruct a as [|x l _] using rev_ind; [intros _; unfold uchar, final_unit; simpl; lia|].
  intros [_ Hx%Forall_inv]%Forall_app. by rewrite final_unit_snoc.
Qed.

Lemma bytewise_ok op a b :
  length a = length b -> op 0 0 = 0 ->
  exists r, bytewise op a b = Some r /\ length r = length a /\
            Forall2 (fun z xy => z = to_uchar (op xy.1 xy.2)) r (zip a b) /\
            final_unit r = to_uchar (op (final_unit a) (final_unit b)).
Proof.
  intros Hlen H0. revert b Hlen. induction a as [|x a IH]; intros [|y b] Hlen; try done.
  - exists []. split; [done|]. split; [done|]. split; [done|].
    change (final_unit []) with 0. by rewrite H0.
  - simpl in Hlen. destruct (IH b ltac:(lia)) as (r & Hr & Hl & Hz & Hf).
    simpl. rewrite Hr. simpl. exists (to_uchar (op x y) :: r).
    split; [done|]. split; [simpl; lia|]. split; [by constructor|].
    destruct a as [|x' a], b as [|y' b], r as [|z r]; try done.
Qed.

Lemma op_assign_keeps op v w :
  op 0 0 = 0 ->
  (forall x y, uchar x -> uchar y -> uchar (op x y)) ->
  (forall c x y, 0 <= c < 8 -> x mod 2 ^ c = 0 -> y mod 2 ^ c = 0 -> op x y mod 2 ^ c = 0) ->
  well_formed v -> well_formed w -> keeps v (op_assign op v w).
Proof.
  intros H0 Hu Hsp Hwf Hwfw.
  destruct (well_formed_facts v Hwf) as (s & c & Hs & Hc & Hn & Hcr & Hs0 & (Hsz & Ha & Hf) & _).
  unfold op_assign. destruct (Z.eqb_spec (m_NumBits v) (m_NumBits w)) as [He | Hne]; simpl;
    [|by apply keeps_self].
  destruct (well_formed_facts w Hwfw) as (s' & c' & Hs' & Hc' & _ & _ & _ & (Hsz' & Ha' & Hf') & _).
  rewrite <- He in Hs', Hc'. subst s' c'. rewrite <- Hs in *. rewrite <- Hc in *.
  destruct (bytewise_ok op (m_Array v) (m_Array w)) as (r & -> & Hl & Hz & Hfr);
    [unfold vsize in *; lia | done |].
  simpl. apply (keeps_storage v _ s c); try done.
  split; [unfold vsize in *; lia|]. split.
  - apply Forall_lookup. intros i z Hi.
    destruct (Forall2_lookup_l _ _ _ _ _ Hz Hi) as ([x y] & Hxy & ->).
    apply to_uchar_uchar.
  - rewrite Hfr. unfold to_uchar. rewrite (Z.mod_small _ 256); [by apply Hsp|].
    apply Hu; by apply final_unit_uchar.
Qed.

Lemma bitwise_keeps v w :
  well_formed v -> well_formed w ->
  keeps v (and_assign v w) /\ keeps v (xor_assign v w) /\ keeps v (or_assign v w).
Proof.
  intros Hv Hw. split; [|split]; apply op_assign_keeps; try done.
  - intros x y Hx Hy. by apply bitop_uchar.
  - intros c x y Hc Hx Hy. by apply bitop_spare.
  - intros x y Hx Hy. by apply bitop_uchar.
  - intros c x y Hc Hx Hy. by apply bitop_spare.
  - intros x y Hx Hy. by apply bitop_uchar.
  - intros c x y Hc Hx Hy. by apply bitop_spare.
Qed.

Lemma inc_dec_keeps v : well_formed v -> keeps v (op_inc v) /\ keeps v (op_dec v).
Proof.
  intros Hwf. destruct (Z.lt_ge_cases (m_NumBits v) 1) as [H0 | H1].
  - destruct Hwf as ([Hn Ha] & HA & HB).
    destruct (invA_empty v Hn HA H0) as [Hz He].
    unfold op_inc, op_dec. rewrite He. simpl. split; apply keeps_self; done.
  - destruct Hwf as (Hwt & HA & HB).
    destruct (op_inc_dec_packed v Hwt HA HB H1)
      as [(vi & Hinc & Hni & Hwi & HAi & HBi & _) (vd & Hdec & Hnd & Hwd & HAd & HBd & _)].
    split; [exists vi | exists vd]; done.
Qed.

Lemma assign_keeps v w :
  well_formed v -> well_formed w -> keeps v (Some (assign v w)).
Proof.
  intros Hv Hw. unfold assign.
  destruct (Z.eqb_spec (m_NumBits v) (m_NumBits w)) as [He | Hne]; simpl;
    [|by apply keeps_self].
  destruct (_ || _); [by apply keeps_self|].
  apply keeps_intro; [done|]. rewrite He. by apply well_formed_storage.
Qed.

(** *** Shifts *)

Lemma for_up_ok (P : list Z -> Prop) body cnt i a :
  P a ->
  (forall j b, i <= j < i + Z.of_nat cnt -> P b -> exists b', body j b = Some b' /\ P b') ->
  exists a', for_up cnt i body a = Some a' /\ P a'.
Proof.
  revert i a. induction cnt as [|cnt IH]; intros i a Ha Hbody.
  - exists a. done.
  - simpl. destruct (Hbody i a) as (b & -> & Hb); [lia | done |]. simpl.
    apply IH; [done|]. intros j b' Hj. apply Hbody. lia.
Qed.

Lemma for_down_ok (P : list Z -> Prop) body cnt i a :
  P a ->
  (forall j b, i - Z.of_nat cnt < j <= i -> P b -> exists b', body j b = Some b' /\ P b') ->
  exists a', for_down cnt i body a = Some a' /\ P a'.
Proof.
  revert i a. induction cnt as [|cnt IH]; intros i a Ha Hbody.
  - exists a. done.
  - simpl. destruct (Hbody i a) as (b & -> & Hb); [lia | done |]. simpl.
    apply IH; [done|]. intros j b' Hj. apply Hbody. lia.
Qed.

(** One bit to the left: the storage stays as it should. *)
Lemma shl_bit_ok n s c a :
  uint n -> 1 <= n -> s = ceil8 n -> 0 <= c < 8 -> storage_ok s c a ->
  exists a', shl_bit n a = Some a' /\ storage_ok s c a'.
Proof.
  intros Hn H1 Hs Hc Hok. unfold shl_bit.
  assert (Htop : BIT_CHAR (to_uint (n - 1)) = s - 1).
  { destruct Hok as (Hsz & _). rewrite (top_index n a); [lia | done | done | lia]. }
  assert (Hs1 : 1 <= s) by (pose proof (ceil8_spec n); lia).
  rewrite Htop.
  destruct (for_up_ok (storage_ok s c)
              (fun j a => x ← rd a j; a ← wr a j (to_uchar (Z.shiftl x 1));
                          y ← rd a (j + 1);
                          if negb (Z.land y MS_BIT =? 0)
                          then x ← rd a j; wr a j (to_uchar (Z.lor x 1)) else Some a)
              (Z.to_nat (s - 1)) 0 a Hok) as (a1 & -> & Hok1).
  { intros j b Hj Hb.
    destruct (rd_storage_ok_in s c b j Hb) as (x & -> & Hx & _); [lia|]. simpl.
    destruct (wr_storage_ok' s c b j (to_uchar (Z.shiftl x 1)) Hb) as (b1 & -> & Hb1);
      [lia | apply to_uchar_uchar | lia |]. simpl.
    destruct (rd_storage_ok_in s c b1 (j + 1) Hb1) as (y & -> & Hy & _); [lia|]. simpl.
    destruct (negb (Z.land y MS_BIT =? 0)); [|by exists b1].
    destruct (rd_storage_ok_in s c b1 j Hb1) as (x' & -> & Hx' & _); [lia|]. simpl.
    apply wr_storage_ok'; [done | lia | apply to_uchar_uchar | lia]. }
  simpl.
  destruct (rd_storage_ok_in s c a1 (s - 1) Hok1) as (x & -> & Hx & Hxf); [lia|]. simpl.
  apply wr_storage_ok'; [done | lia | apply to_uchar_uchar |].
  intros _. apply shl1_spare; auto.
Qed.

Lemma ceil8_uint n : uint n -> 0 <= ceil8 n < 2 ^ 30.
Proof. unfold uint. intros Hn. pose proof (ceil8_spec n). lia. Qed.

Lemma shl_keeps v k :
  well_formed v -> uint k ->
  m_NumBits v <= k mod 8 \/ k / 8 <= vsize (m_Array v) ->
  keeps v (op_shl v k).
Proof.
  intros Hwf Hk Hcond.
  destruct (well_formed_facts v Hwf) as (s & c & Hs & Hc & Hn & Hcr & Hs0 & Hok & Hmod & Htop).
  unfold op_shl, CHAR_BIT.
  destruct (Z.leb_spec (m_NumBits v) (k mod 8)) as [Hge | Hlt]; [by apply ClearAll_keeps|].
  pose proof (Z.mod_pos_bound k 8 ltac:(lia)) as Hm.
  assert (H1 : 1 <= m_NumBits v) by lia.
  assert (Hsz : vsize (m_Array v) = s) by (by destruct Hok).
  assert (Hch : 0 <= k / 8 <= s) by (unfold uint in Hk; split; [apply Z.div_pos; lia | lia]).
  pose proof (ceil8_uint _ Hn) as Hsu. rewrite <- Hs in Hsu.
  assert (Ha1 : exists a1,
    (if 0 <? k / 8
     then a ← for_up (Z.to_nat (vsize (m_Array v) - k / 8)) 0
                 (fun i a => x ← rd a (to_uint (i + k / 8)); wr a i x) (m_Array v);
          for_down (Z.to_nat (k / 8)) (k / 8)
            (fun chars a0 => wr a0 (to_uint (to_uint (vsize a) - chars)) 0) a
     else Some (m_Array v)) = Some a1 /\ storage_ok s c a1).
  { destruct (Z.ltb_spec 0 (k / 8)) as [Hpos | Hz]; [|by exists (m_Array v)].
    rewrite Hsz.
    destruct (for_up_ok (storage_ok s c)
                (fun i a => x ← rd a (to_uint (i + k / 8)); wr a i x)
                (Z.to_nat (s - k / 8)) 0 (m_Array v) Hok) as (a0 & -> & Hok0).
    { intros j b Hj Hb. rewrite to_uint_small by (unfold uint; lia).
      destruct (rd_storage_ok_in s c b (j + k / 8) Hb) as (x & -> & Hx & _); [lia|]. simpl.
      apply wr_storage_ok'; [done | lia | done | lia]. }
    simpl. assert (vsize a0 = s) as -> by (by destruct Hok0).
    rewrite (to_uint_small s) by (unfold uint; lia).
    apply for_down_ok; [done|].
    intros j b Hj Hb. rewrite to_uint_small by (unfold uint; lia).
    apply wr_storage_ok'; [done | lia | unfold uchar; lia |].
    intros _. apply Z.mod_0_l. lia. }
  destruct Ha1 as (a1 & -> & Hok1). simpl.
  destruct (for_up_ok (storage_ok s c) (fun _ => shl_bit (m_NumBits v))
              (Z.to_nat (k mod 8)) 0 a1 Hok1) as (a2 & -> & Hok2).
  { intros j b _ Hb. by apply (shl_bit_ok _ s c). }
  simpl. by apply (keeps_storage v _ s c).
Qed.

(** One bit to the right: the storage keeps its size and its characters
    stay in range (the spare bits are cleared at the end of [operator>>=]). *)
Lemma shr_bit_ok n s a :
  uint n -> 1 <= n -> s = ceil8 n -> storage_ok s 0 a ->
  exists a', shr_bit n a = Some a' /\ storage_ok s 0 a'.
Proof.
  intros Hn H1 Hs Hok. unfold shr_bit.
  assert (Htop : BIT_CHAR (to_uint (n - 1)) = s - 1).
  { destruct Hok as (Hsz & _). rewrite (top_index n a); [lia | done | done | lia]. }
  assert (Hs1 : 1 <= s) by (pose proof (ceil8_spec n); lia).
  rewrite Htop.
  destruct (for_down_ok (storage_ok s 0)
              (fun j a => x ← rd a j; a ← wr a j (to_uchar (Z.shiftr x 1));
                          y ← rd a (j - 1);
                          if negb (Z.land y 1 =? 0)
                          then x ← rd a j; wr a j (to_uchar (Z.lor x MS_BIT)) else Some a)
              (Z.to_nat (s - 1)) (s - 1) a Hok) as (a1 & -> & Hok1).
  { intros j b Hj Hb.
    destruct (rd_storage_ok_in s 0 b j Hb) as (x & -> & Hx & _); [lia|]. simpl.
    destruct (wr_storage_ok' s 0 b j (to_uchar (Z.shiftr x 1)) Hb) as (b1 & -> & Hb1);
      [lia | apply to_uchar_uchar | intros _; apply Z.mod_1_r |]. simpl.
    destruct (rd_storage_ok_in s 0 b1 (j - 1) Hb1) as (y & -> & Hy & _); [lia|]. simpl.
    destruct (negb (Z.land y 1 =? 0)); [|by exists b1].
    destruct (rd_storage_ok_in s 0 b1 j Hb1) as (x' & -> & Hx' & _); [lia|]. simpl.
    apply wr_storage_ok'; [done | lia | apply to_uchar_uchar | intros _; apply Z.mod_1_r]. }
  simpl.
  destruct (rd_storage_ok_in s 0 a1 0 Hok1) as (x & -> & Hx & Hxf); [lia|]. simpl.
  apply wr_storage_ok'; [done | lia | apply to_uchar_uchar | intros _; apply Z.mod_1_r].
Qed.

Lemma shr_keeps v k :
  well_formed v -> uint k ->
  m_NumBits v <= k mod 8 \/ k / 8 <= vsize (m_Array v) ->
  keeps v (op_shr v k).
Proof.
  intros Hwf Hk Hcond.
  destruct (well_formed_facts v Hwf) as (s & c & Hs & Hc & Hn & Hcr & Hs0 & Hok & Hmod & Htop).
  unfold op_shr, CHAR_BIT.
  destruct (Z.leb_spec (m_NumBits v) (k mod 8)) as [Hge | Hlt]; [by apply ClearAll_keeps|].
  pose proof (Z.mod_pos_bound k 8 ltac:(lia)) as Hm.
  assert (H1 : 1 <= m_NumBits v) by lia.
  destruct (Htop H1) as [-> Hs1].
  assert (Hsz : vsize (m_Array v) = s) by (by destruct Hok).
  assert (Hch : 0 <= k / 8 <= s) by (unfold uint in Hk; split; [apply Z.div_pos; lia | lia]).
  apply storage_ok_weaken in Hok.
  assert (Ha1 : exists a1,
    (if 0 <? k / 8
     then a ← for_down (Z.to_nat (s - 1 - k / 8 + 1)) (s - 1)
                 (fun i a => x ← rd a (i - k / 8); wr a i x) (m_Array v);
          for_down (Z.to_nat (k / 8)) (k / 8) (fun chars a => wr a (chars - 1) 0) a
     else Some (m_Array v)) = Some a1 /\ storage_ok s 0 a1).
  { destruct (Z.ltb_spec 0 (k / 8)) as [Hpos | Hz]; [|by exists (m_Array v)].
    destruct (for_down_ok (storage_ok s 0)
                (fun i a => x ← rd a (i - k / 8); wr a i x)
                (Z.to_nat (s - 1 - k / 8 + 1)) (s - 1) (m_Array v) Hok) as (a0 & -> & Hok0).
    { intros j b Hj Hb.
      destruct (rd_storage_ok_in s 0 b (j - k / 8) Hb) as (x & -> & Hx & _); [lia|]. simpl.
      apply wr_storage_ok'; [done | lia | done | intros _; apply Z.mod_1_r]. }
    simpl. apply for_down_ok; [done|].
    intros j b Hj Hb.
    apply wr_storage_ok'; [done | lia | unfold uchar; lia | intros _; apply Z.mod_1_r]. }
  destruct Ha1 as (a1 & -> & Hok1). simpl.
  destruct (for_up_ok (storage_ok s 0) (fun _ => shr_bit (m_NumBits v))
              (Z.to_nat (k mod 8)) 0 a1 Hok1) as (a2 & -> & Hok2).
  { intros j b _ Hb. by apply (shr_bit_ok _ s). }
  simpl. unfold CHAR_BIT in Hmod. rewrite Hmod.
  change ((8 - c) mod 8) with ((8 - c) mod CHAR_BIT).
  rewrite spare_bits_zero_iff by done.
  destruct (Z.eqb_spec c 0) as [Hc0 | Hc0]; simpl.
  - apply (keeps_storage v _ s c); try done. by rewrite Hc0.
  - destruct (spare_mask_bits c ltac:(lia)) as [_ ->].
    destruct (rd_storage_ok_in s 0 a2 (s - 1) Hok2) as (x & -> & Hx & _); [lia|]. simpl.
    destruct (complement_mask_spare c x Hcr Hx) as [Hmu Hmm].
    destruct Hok2 as (Hsz2 & Hu2 & _).
    destruct (wr_storage_ok s c a2 (s - 1) (to_uchar (Z.land x (256 - 2 ^ c))) Hsz2 Hu2)
      as (a3 & -> & Hok3); [lia | done | by rewrite Z.eqb_refl |].
    simpl. by apply (keeps_storage v _ s c).
Qed.

(** Where the storage is as the class means it, the spare bits stay zero:
    on arrays under Invariant A whose spare bits
    are zero, every mutating method leaves an array of the same length
    under Invariant A whose spare bits are zero: [SetAll], [ClearAll],
    [SetBit], [ClearBit], [Not], [&=], [^=], [|=], [++], [--], [=], and
    [<<=] and [>>=] for the shift counts [k] with [k mod 8 >= length] or
    [k / 8] at most the number of characters (the counts for which the
    shift loops stay inside the storage). *)
Theorem spare_bits_preserved (v w : bit_array_c) (bit k : Z) :
  well_typed v -> InvariantA v -> spare_zero v = true ->
  well_typed w -> InvariantA w -> spare_zero w = true ->
  uint bit -> uint k ->
  keeps v (SetAll v) /\ keeps v (Some (ClearAll v)) /\
  keeps v (SetBit v bit) /\ keeps v (ClearBit v bit) /\ keeps v (Not v) /\
  keeps v (and_assign v w) /\ keeps v (xor_assign v w) /\ keeps v (or_assign v w) /\
  keeps v (op_inc v) /\ keeps v (op_dec v) /\ keeps v (Some (assign v w)) /\
  (m_NumBits v <= k mod 8 \/ k / 8 <= vsize (m_Array v) ->
   keeps v (op_shl v k) /\ keeps v (op_shr v k)).
Proof.
  intros Hwt HA HB Hwt' HA' HB' Hbit Hk.
  assert (Hv : well_formed v) by done. assert (Hw : well_formed w) by done.
  destruct (bitwise_keeps v w Hv Hw) as (Hand & Hxor & Hor).
  destruct (inc_dec_keeps v Hv) as (Hinc & Hdec).
  repeat split; try done.
  - by apply SetAll_keeps.
  - by apply ClearAll_keeps.
  - by apply SetBit_keeps.
  - by apply ClearBit_keeps.
  - by apply Not_keeps.
  - by apply assign_keeps.
  - by apply shl_keeps.
  - by apply shr_keeps.
Qed.

Lemma spare_bits_preserved_witness :
  let v := fromBuffer [255; 255; 240] 20 in
  let w := fromBuffer [165; 90; 160] 20 in
  keeps v (SetAll v) /\ keeps v (Some (ClearAll v)) /\
  keeps v (SetBit v 11) /\ keeps v (ClearBit v 11) /\ keeps v (Not v) /\
  keeps v (and_assign v w) /\ keeps v (xor_assign v w) /\ keeps v (or_assign v w) /\
  keeps v (op_inc v) /\ keeps v (op_dec v) /\ keeps v (Some (assign v w)) /\
  (m_NumBits v <= 9 mod 8 \/ 9 / 8 <= vsize (m_Array v) ->
   keeps v (op_shl v 9) /\ keeps v (op_shr v 9)).
Proof.
  apply (spare_bits_preserved (fromBuffer [255; 255; 240] 20)
           (fromBuffer [165; 90; 160] 20) 11 9).
  - split; [vm_compute; split; [discriminate | reflexivity]|].
    repeat constructor; vm_compute; discriminate.
  - reflexivity.
  - reflexivity.
  - split; [vm_compute; split; [discriminate | reflexivity]|].
    repeat constructor; vm_compute; discriminate.
  - reflexivity.
  - reflexivity.
  - vm_compute. split; [discriminate | reflexivity].
  - vm_compute. split; [discriminate | reflexivity].
Defined.

(** C3 (every mutating method keeps the spare bits zero) fails in the code
    on the array [new(0)]: its one character holds only positions at or
    beyond the length; they are zero after construction and all set after
    [SetAll] and after [Not], which mask the last character only when
    [m_NumBits % CHAR_BIT] is not zero, although [SetAll] is described as
    setting the unused bits to 0 and [Not] as leaving the spare bits at 0. *)
Lemma setall_on_empty_sets_spare_bits :
  spare_zero (new 0) = true /\
  SetAll (new 0) = Some {| m_NumBits := 0; m_Array := [255] |} /\
  Not (new 0) = Some {| m_NumBits := 0; m_Array := [255] |} /\
  spare_zero {| m_NumBits := 0; m_Array := [255] |} = false.
Proof. repeat split. Qed.

(** ** Shifts past the end of the storage *)

(** C1 (a shift by [k >= length] clears the array) fails in the code: the
    test [shifts >= m_NumBits] comes after [shifts = shifts % CHAR_BIT].
    When the count [k] has [k mod 8] below the length and [k / 8] above the
    number of characters, [k] is at least the length and neither
    [operator<<=] nor [operator>>=] has a defined result: the loops that
    zero the vacated characters index the vector outside its bounds,
    [m_Array[size - chars]] with an unsigned index that wrapped around in
    [operator<<=], [m_Array[chars - 1]] in [operator>>=]. *)
Theorem shift_past_storage (v : bit_array_c) (k : Z) :
  uint (m_NumBits v) -> InvariantA v -> uint k ->
  k mod 8 < m_NumBits v -> vsize (m_Array v) < k / 8 ->
  m_NumBits v <= k /\ op_shl v k = None /\ op_shr v k = None.
Proof.
  intros Hn HA Hk Hlt Hch. unfold InvariantA in HA.
  pose proof (ceil8_spec (m_NumBits v)) as Hc.
  pose proof (ceil8_uint _ Hn) as Hsu. rewrite <- HA in Hsu.
  pose proof (Z.mod_pos_bound k 8 ltac:(lia)) as Hm.
  pose proof (Z.div_mod k 8 ltac:(lia)) as Hdm.
  assert (H1 : 1 <= m_NumBits v) by lia. unfold uint in Hk.
  assert (Hchu : k / 8 < 2 ^ 29) by (apply Z.div_lt_upper_bound; lia).
  split; [lia|].
  assert (exists m, Z.to_nat (k / 8) = S m) as [m Hm1] by (exists (Z.to_nat (k / 8 - 1)); lia).
  split.
  - unfold op_shl, CHAR_BIT.
    replace (m_NumBits v <=? k mod 8) with false by (symmetry; apply Z.leb_gt; lia).
    replace (0 <? k / 8) with true by (symmetry; apply Z.ltb_lt; lia).
    replace (Z.to_nat (vsize (m_Array v) - k / 8)) with O by lia.
    simpl. rewrite Hm1. simpl.
    rewrite (to_uint_small (vsize (m_Array v))) by (unfold uint; lia).
    rewrite wr_out; [done|]. left. unfold to_uint.
    rewrite <- (Z.mod_add _ 1) by lia. rewrite Z.mod_small; lia.
  - unfold op_shr, CHAR_BIT.
    replace (m_NumBits v <=? k mod 8) with false by (symmetry; apply Z.leb_gt; lia).
    replace (0 <? k / 8) with true by (symmetry; apply Z.ltb_lt; lia).
    rewrite (top_index _ (m_Array v)) by done.
    replace (Z.to_nat (vsize (m_Array v) - 1 - k / 8 + 1)) with O by lia.
    simpl. rewrite Hm1. simpl.
    rewrite wr_out; [done|]. left. lia.
Qed.

Lemma shift_past_storage_witness :
  8 <= 16 /\ op_shl (fromBuffer [255] 8) 16 = None /\
  op_shr (fromBuffer [255] 8) 16 = None.
Proof.
  apply (shift_past_storage (fromBuffer [255] 8) 16).
  - vm_compute. split; [discriminate | reflexivity].
  - reflexivity.
  - vm_compute. split; [discriminate | reflexivity].
  - reflexivity.
  - reflexivity.
Defined.

(** The same misplaced test on an array built by the buffer constructor
    with set spare bits: twelve bits, all zero, shifted left by twelve.
    The loops stay inside the storage and move the spare bits into the
    array. *)
Lemma shift_left_moves_spare_bits_in :
  op_shl (fromBuffer [0; 15] 12) 12 = Some (fromBuffer [240; 0] 12) /\
  (forall i, 0 <= i < 12 -> get (fromBuffer [0; 15] 12) i = Some false) /\
  get (fromBuffer [240; 0] 12) 0 = Some true.
Proof.
  split; [reflexivity|]. split; [|reflexivity].
  intros i Hi.
  assert (i = 0 \/ i = 1 \/ i = 2 \/ i = 3 \/ i = 4 \/ i = 5 \/ i = 6 \/ i = 7 \/
          i = 8 \/ i = 9 \/ i = 10 \/ i = 11) as Hc by lia.
  repeat (destruct Hc as [-> | Hc]; [reflexivity|]). subst i. reflexivity.
Qed.

(** ** Shifts by the whole length or more, inside the storage *)

(** Loops whose invariant depends on the loop variable. *)
Lemma for_up_ix (P : Z -> list Z -> Prop) body cnt i a :
  P i a ->
  (forall j b, i <= j < i + Z.of_nat cnt -> P j b ->
               exists b', body j b = Some b' /\ P (j + 1) b') ->
  exists a', for_up cnt i body a = Some a' /\ P (i + Z.of_nat cnt) a'.
Proof.
  revert i a. induction cnt as [|cnt IH]; intros i a Ha Hbody.
  - exists a. rewrite Z.add_0_r. done.
  - simpl for_up. destruct (Hbody i a) as (b & -> & Hb); [lia | done |]. simpl.
    replace (i + Z.of_nat (S cnt)) with ((i + 1) + Z.of_nat cnt) by lia.
    apply IH; [done|]. intros j b' Hj. apply Hbody. lia.
Qed.

Lemma for_down_ix (P : Z -> list Z -> Prop) body cnt i a :
  P i a ->
  (forall j b, i - Z.of_nat cnt < j <= i -> P j b ->
               exists b', body j b = Some b' /\ P (j - 1) b') ->
  exists a', for_down cnt i body a = Some a' /\ P (i - Z.of_nat cnt) a'.
Proof.
  revert i a. induction cnt as [|cnt IH]; intros i a Ha Hbody.
  - exists a. rewrite Z.sub_0_r. done.
  - simpl for_down. destruct (Hbody i a) as (b & -> & Hb); [lia | done |]. simpl.
    replace (i - Z.of_nat (S cnt)) with ((i - 1) - Z.of_nat cnt) by lia.
    apply IH; [done|]. intros j b' Hj. apply Hbody. lia.
Qed.

(** The loop of [operator<<=] that zeroes the vacated characters. *)
Lemma shl_zero_loop s (cnt : nat) a :
  vsize a = s -> Z.of_nat cnt <= s -> s < 2 ^ 32 ->
  for_down cnt (Z.of_nat cnt) (fun chars b => wr b (to_uint (s - chars)) 0) a
  = Some (take (length a - cnt) a ++ replicate cnt 0).
Proof.
  revert a. induction cnt as [|cnt IH]; intros a Hs Hc Hu.
  - simpl. rewrite Nat.sub_0_r, take_ge by lia. by rewrite app_nil_r.
  - simpl for_down. rewrite to_uint_small by (unfold uint; lia).
    rewrite wr_in by lia. simpl.
    replace (Z.of_nat (S cnt) - 1) with (Z.of_nat cnt) by lia.
    rewrite IH by (rewrite ?vsize_insert; lia). f_equal.
    rewrite length_insert. unfold vsize in Hs.
    replace (Z.to_nat (s - Z.of_nat (S cnt))) with (length a - S cnt)%nat by lia.
    rewrite take_insert_lt by lia.
    assert (exists z, a !! (length a - S cnt)%nat = Some z) as [z Hz].
    { apply lookup_lt_is_Some. lia. }
    replace (length a - cnt)%nat with (S (length a - S cnt)) by lia.
    rewrite (take_S_r _ _ z) by done.
    replace (length a - S cnt)%nat with (length (take (length a - S cnt) a) + 0)%nat at 1
      by (rewrite length_take; lia).
    rewrite insert_app_r. simpl. rewrite <- app_assoc. done.
Qed.

(** The loop of [operator>>=] that zeroes the vacated characters. *)
Lemma shr_zero_loop (cnt : nat) a :
  (cnt <= length a)%nat ->
  for_down cnt (Z.of_nat cnt) (fun chars b => wr b (chars - 1) 0) a
  = Some (replicate cnt 0 ++ drop cnt a).
Proof.
  revert a. induction cnt as [|cnt IH]; intros a Hc.
  - done.
  - simpl for_down. rewrite wr_in by (unfold vsize; lia). simpl.
    replace (Z.of_nat (S cnt) - 1) with (Z.of_nat cnt) by lia.
    rewrite IH by (rewrite length_insert; lia). f_equal.
    rewrite Nat2Z.id.
    assert (exists z, a !! cnt = Some z) as [z Hz] by (apply lookup_lt_is_Some; lia).
    rewrite drop_insert_ge by lia. rewrite Nat.sub_diag.
    rewrite (drop_S a z cnt) by done.
    change (0 :: replicate cnt 0 ++ drop (S cnt) a)
      with ((0 :: replicate cnt 0) ++ drop (S cnt) a).
    rewrite replicate_cons_app, <- app_assoc. done.
Qed.

Lemma rd_head h t : rd (h :: t) 0 = Some h.
Proof. destruct (rd_in (h :: t) 0) as (x & -> & Hx); [unfold vsize; simpl; lia | done]. Qed.

Lemma rd_tail h t j : 1 <= j -> rd (h :: t) j = rd t (j - 1).
Proof.
  intros Hj. unfold rd, vsize. simpl length.
  replace (Z.to_nat j) with (S (Z.to_nat (j - 1))) by lia. simpl.
  destruct (Z.leb_spec 0 j), (Z.leb_spec 0 (j - 1)),
    (Z.ltb_spec j (Z.of_nat (S (length t)))), (Z.ltb_spec (j - 1) (Z.of_nat (length t)));
    simpl; (done || lia).
Qed.

Lemma wr_head h t x : wr (h :: t) 0 x = Some (x :: t).
Proof. rewrite wr_in by (unfold vsize; simpl; lia). done. Qed.

Lemma wr_tail h t j x t' :
  1 <= j -> wr t (j - 1) x = Some t' -> wr (h :: t) j x = Some (h :: t').
Proof.
  intros Hj Hw. apply wr_Some in Hw as [Hb ->].
  rewrite wr_in by (unfold vsize in *; simpl; lia).
  replace (Z.to_nat j) with (S (Z.to_nat (j - 1))) by lia. done.
Qed.

Lemma rd_replicate (m : nat) x j :
  0 <= j < Z.of_nat m -> rd (replicate m x) j = Some x.
Proof.
  intros Hj. destruct (rd_in (replicate m x) j) as (y & -> & Hy).
  - by rewrite vsize_replicate.
  - by apply lookup_replicate in Hy as [-> _].
Qed.

Lemma wr_replicate (m : nat) x j :
  0 <= j < Z.of_nat m -> wr (replicate m x) j x = Some (replicate m x).
Proof.
  intros Hj. rewrite wr_in by (by rewrite vsize_replicate).
  by rewrite insert_replicate.
Qed.

Lemma wr_app_l a b j x a' :
  wr a j x = Some a' -> wr (a ++ b) j x = Some (a' ++ b).
Proof.
  intros Hw. apply wr_Some in Hw as [Hb ->].
  rewrite wr_in by (rewrite vsize_app; pose proof (vsize_nonneg b); lia).
  rewrite insert_app_l by (unfold vsize in Hb; lia). done.
Qed.

(** One bit to the left when only the first character is not zero. *)
Lemma shl_bit_head n y (m : nat) :
  BIT_CHAR (to_uint (n - 1)) = Z.of_nat m ->
  shl_bit n (y :: replicate m 0)
  = Some (to_uchar (Z.shiftl y 1) :: replicate m 0).
Proof.
  intros Htop. unfold shl_bit. rewrite Htop, Nat2Z.id.
  set (y' := to_uchar (Z.shiftl y 1)).
  destruct (for_up_ix (fun j b => b = (if j =? 0 then y else y') :: replicate m 0)
              (fun j a => x ← rd a j; a ← wr a j (to_uchar (Z.shiftl x 1));
                          y ← rd a (j + 1);
                          if negb (Z.land y MS_BIT =? 0)
                          then x ← rd a j; wr a j (to_uchar (Z.lor x 1)) else Some a)
              m 0 (y :: replicate m 0)) as (a1 & -> & Ha1); [done | |].
  { intros j b Hj ->. destruct (Z.eqb_spec j 0) as [-> | Hne].
    - rewrite rd_head. simpl. rewrite wr_head. simpl.
      rewrite rd_tail, rd_replicate by lia. simpl. eexists. split; done.
    - rewrite rd_tail, rd_replicate by lia. simpl.
      rewrite (wr_tail _ _ _ _ (replicate m 0)) by (try apply wr_replicate; lia). simpl.
      rewrite (rd_tail _ _ (j + 1)), rd_replicate by lia. simpl.
      eexists. split; [done|]. by replace (j + 1 =? 0) with false by lia. }
  simpl. rewrite Ha1. replace (0 + Z.of_nat m) with (Z.of_nat m) by lia.
  destruct m as [|m].
  - reflexivity.
  - destruct (Z.eqb_spec (Z.of_nat (S m)) 0) as [He | _]; [lia|].
    rewrite rd_tail, rd_replicate by lia. cbn [mbind option_bind].
    change (to_uchar (0 ≪ 1)) with 0.
    rewrite (wr_tail _ _ _ _ (replicate (S m) 0)); [done | lia |].
    apply wr_replicate. lia.
Qed.

Lemma rd_middle' l x r i : i = vsize l -> rd (l ++ x :: r) i = Some x.
Proof. intros ->. apply rd_middle. Qed.

Lemma wr_middle' l x r i y : i = vsize l -> wr (l ++ x :: r) i y = Some (l ++ y :: r).
Proof. intros ->. apply wr_middle. Qed.

(** One bit to the right when only the last character is not zero. *)
Lemma shr_bit_last n y (m : nat) :
  BIT_CHAR (to_uint (n - 1)) = Z.of_nat m ->
  shr_bit n (replicate m 0 ++ [y])
  = Some (replicate m 0 ++ [to_uchar (Z.shiftr y 1)]).
Proof.
  intros Htop. unfold shr_bit. rewrite Htop, Nat2Z.id.
  set (y' := to_uchar (Z.shiftr y 1)).
  assert (Hvs : vsize (replicate m 0) = Z.of_nat m) by apply vsize_replicate.
  destruct (for_down_ix (fun j b => b = replicate m 0 ++ [if j =? Z.of_nat m then y else y'])
              (fun j a => x ← rd a j; a ← wr a j (to_uchar (Z.shiftr x 1));
                          y ← rd a (j - 1);
                          if negb (Z.land y 1 =? 0)
                          then x ← rd a j; wr a j (to_uchar (Z.lor x MS_BIT)) else Some a)
              m (Z.of_nat m) (replicate m 0 ++ [y])) as (a1 & -> & Ha1).
  { by rewrite Z.eqb_refl. }
  { intros j b Hj ->. destruct (Z.eqb_spec j (Z.of_nat m)) as [-> | Hne].
    - rewrite rd_middle' by done. simpl.
      rewrite wr_middle' by done. simpl.
      rewrite (rd_app_l _ _ (Z.of_nat m - 1)), rd_replicate by (rewrite ?Hvs; lia). simpl.
      eexists. split; [done|]. by replace (Z.of_nat m - 1 =? Z.of_nat m) with false by lia.
    - rewrite rd_app_l, rd_replicate by (rewrite ?Hvs; lia). simpl.
      rewrite (wr_app_l _ _ _ _ (replicate m 0)) by (apply wr_replicate; lia). simpl.
      rewrite (rd_app_l _ _ (j - 1)), rd_replicate by (rewrite ?Hvs; lia). simpl.
      eexists. split; [done|]. by replace (j - 1 =? Z.of_nat m) with false by lia. }
  simpl. rewrite Ha1. replace (Z.of_nat m - Z.of_nat m) with 0 by lia.
  destruct m as [|m].
  - reflexivity.
  - destruct (Z.eqb_spec 0 (Z.of_nat (S m))) as [He | _]; [lia|].
    rewrite rd_app_l, rd_replicate by (rewrite ?Hvs; lia). cbn [mbind option_bind].
    change (to_uchar (0 ≫ 1)) with 0.
    rewrite (wr_app_l _ _ _ _ (replicate (S m) 0)); [done|].
    apply wr_replicate. lia.
Qed.

Lemma shl_bits_head n y (m t : nat) :
  BIT_CHAR (to_uint (n - 1)) = Z.of_nat m ->
  uchar y -> (y * 2 ^ Z.of_nat t) mod 256 = 0 ->
  for_up t 0 (fun _ => shl_bit n) (y :: replicate m 0) = Some (replicate (S m) 0).
Proof.
  intros Htop Hy Hz.
  destruct (for_up_ix
              (fun j b => exists z, b = z :: replicate m 0 /\ uchar z /\
                                    (z * 2 ^ (Z.of_nat t - j)) mod 256 = 0)
              (fun _ => shl_bit n) t 0 (y :: replicate m 0))
    as (a' & -> & z & -> & Hu & Hz').
  - exists y. by rewrite Z.sub_0_r.
  - intros j b Hj (z & -> & Hu & Hzj). rewrite shl_bit_head by done.
    eexists. split; [done|]. eexists. split; [done|]. split; [apply to_uchar_uchar|].
    unfold to_uchar. rewrite Z.shiftl_mul_pow2 by lia.
    rewrite Z.mul_mod_idemp_l by lia. rewrite <- Z.mul_assoc, <- Z.pow_add_r by lia.
    by replace (1 + (Z.of_nat t - (j + 1))) with (Z.of_nat t - j) by lia.
  - f_equal. simpl. f_equal.
    replace (Z.of_nat t - (0 + Z.of_nat t)) with 0 in Hz' by lia.
    rewrite Z.mul_1_r in Hz'. unfold uchar in Hu. by rewrite Z.mod_small in Hz' by lia.
Qed.

Lemma shiftr_uchar y j : uchar y -> 0 <= j -> uchar (Z.shiftr y j).
Proof.
  unfold uchar. intros Hy Hj. rewrite Z.shiftr_div_pow2 by lia.
  assert (0 < 2 ^ j) by (apply Z.pow_pos_nonneg; lia).
  split; [apply Z.div_pos; lia|].
  apply Z.div_lt_upper_bound; [lia | nia].
Qed.

Lemma shr_bits_last n y (m t : nat) :
  BIT_CHAR (to_uint (n - 1)) = Z.of_nat m -> uchar y ->
  for_up t 0 (fun _ => shr_bit n) (replicate m 0 ++ [y])
  = Some (replicate m 0 ++ [Z.shiftr y (Z.of_nat t)]).
Proof.
  intros Htop Hy.
  destruct (for_up_ix
              (fun j b => b = replicate m 0 ++ [Z.shiftr y j])
              (fun _ => shr_bit n) t 0 (replicate m 0 ++ [y]))
    as (a' & -> & ->).
  - done.
  - intros j b Hj ->. rewrite shr_bit_last by done.
    eexists. split; [done|]. rewrite Z.shiftr_shiftr by lia.
    pose proof (shiftr_uchar y (j + 1) Hy ltac:(lia)) as Hu.
    unfold to_uchar. unfold uchar in Hu. by rewrite Z.mod_small by lia.
  - done.
Qed.

(** Characters shifted out whole. *)
Lemma shifted_out_left c sh x :
  0 <= c < 8 -> 8 - c <= sh < 8 -> uchar x -> x mod 2 ^ c = 0 ->
  (x * 2 ^ sh) mod 256 = 0.
Proof.
  intros Hc Hsh Hx Hm. apply spare_clear_iff in Hm. apply Z.eqb_eq.
  revert Hm. apply implb_true_iff. revert x Hx.
  enum8 c; enum8 sh; try lia; apply forall_uchar; vm_compute; reflexivity.
Qed.

Lemma shifted_out_right c sh x :
  0 < c < 8 -> 8 - c <= sh < 8 -> uchar x ->
  to_uchar (Z.land (Z.shiftr x sh) (256 - 2 ^ c)) = 0.
Proof.
  intros Hc Hsh Hx. apply Z.eqb_eq. revert x Hx.
  enum8 c; enum8 sh; try lia; apply forall_uchar; vm_compute; reflexivity.
Qed.

Lemma shl_all_out v k :
  well_formed v -> uint k -> m_NumBits v <= k ->
  m_NumBits v <= k mod 8 \/ k / 8 <= vsize (m_Array v) ->
  op_shl v k = Some (ClearAll v).
Proof.
  intros (Hwt & HA & HB) Hk Hge Hcond. unfold op_shl, CHAR_BIT.
  destruct (Z.leb_spec (m_NumBits v) (k mod 8)) as [Hearly | Hlt]; [done|].
  pose proof (Z.mod_pos_bound k 8 ltac:(lia)) as Hm.
  pose proof (Z.div_mod k 8 ltac:(lia)) as Hdm.
  destruct (invA_shape v Hwt HA ltac:(lia)) as (l & x & c & Ha & Hl & Hx & Hc & Hn & Htop & _).
  destruct v as [n a]. simpl in Ha, Hn, Htop, Hlt, Hge, Hcond. subst a.
  apply spare_zero_snoc in HB; [|lia].
  replace (8 * (vsize l + 1) - n) with c in HB by lia.
  unfold ClearAll, assign_all, with_array. cbn [m_Array m_NumBits].
  rewrite vsize_app in *. change (vsize [x]) with 1 in *.
  pose proof (vsize_nonneg l) as Hs0.
  assert (Hsu : vsize l + 1 < 2 ^ 32).
  { destruct Hwt as [Hun _]. unfold uint in Hun. simpl in Hun. lia. }
  replace (0 <? k / 8) with true by (symmetry; apply Z.ltb_lt; lia).
  rewrite length_snoc.
  assert (Hbits : forall y, uchar y -> (y * 2 ^ Z.of_nat (Z.to_nat (k mod 8))) mod 256 = 0 ->
            for_up (Z.to_nat (k mod 8)) 0 (fun _ => shl_bit n) (y :: replicate (length l) 0)
            = Some (replicate (S (length l)) 0)).
  { intros y Hy Hz. apply shl_bits_head; [|done|done]. by rewrite Htop. }
  assert (k / 8 = vsize l + 1 \/ k / 8 = vsize l) as [Hch | Hch] by lia.
  - (* every character is vacated *)
    replace (Z.to_nat (vsize l + 1 - k / 8)) with O by lia. cbn [for_up mbind option_bind].
    rewrite vsize_app. change (vsize [x]) with 1.
    rewrite (to_uint_small (vsize l + 1)) by (unfold uint; lia).
    replace (k / 8) with (Z.of_nat (S (length l))) by (unfold vsize in Hch; lia).
    rewrite Nat2Z.id.
    rewrite (shl_zero_loop (vsize l + 1)); [|by rewrite vsize_app | unfold vsize; lia | done].
    cbn [mbind option_bind]. rewrite length_snoc, Nat.sub_diag, take_0. cbn [app].
    change (replicate (S (length l)) 0) with (0 :: replicate (length l) 0) at 1.
    rewrite Hbits; [done | unfold uchar; lia | done].
  - (* all but one: the last character moves to the front *)
    destruct l as [|h l']; [change (vsize []) with 0 in *; lia|].
    replace (Z.to_nat (vsize (h :: l') + 1 - k / 8)) with 1%nat by lia.
    cbn [for_up mbind option_bind].
    rewrite to_uint_small by (unfold uint; lia).
    rewrite rd_middle' by lia. cbn [mbind option_bind].
    change ((h :: l') ++ [x]) with (h :: (l' ++ [x])). rewrite wr_head.
    cbn [mbind option_bind].
    assert (vsize (x :: l' ++ [x]) = vsize (h :: l') + 1) as ->
      by (unfold vsize; simpl; rewrite length_snoc; lia).
    rewrite (to_uint_small (vsize (h :: l') + 1)) by (unfold uint; lia).
    replace (k / 8) with (Z.of_nat (length (h :: l'))) by (unfold vsize in Hch; lia).
    rewrite Nat2Z.id.
    rewrite (shl_zero_loop (vsize (h :: l') + 1));
      [| unfold vsize; simpl; rewrite length_snoc; lia | unfold vsize; lia | done].
    cbn [mbind option_bind].
    replace (length (x :: l' ++ [x]) - length (h :: l'))%nat with 1%nat
      by (simpl; rewrite length_snoc; lia).
    cbn [take app].  rewrite take_0. cbn [app].
    rewrite Hbits; [done | done |].
    rewrite Z2Nat.id by lia. apply (shifted_out_left c); auto. lia.
Qed.

Lemma shr_all_out v k :
  well_formed v -> uint k -> m_NumBits v <= k ->
  m_NumBits v <= k mod 8 \/ k / 8 <= vsize (m_Array v) ->
  op_shr v k = Some (ClearAll v).
Proof.
  intros (Hwt & HA & HB) Hk Hge Hcond. unfold op_shr, CHAR_BIT.
  destruct (Z.leb_spec (m_NumBits v) (k mod 8)) as [Hearly | Hlt]; [done|].
  pose proof (Z.mod_pos_bound k 8 ltac:(lia)) as Hm.
  pose proof (Z.div_mod k 8 ltac:(lia)) as Hdm.
  destruct (invA_shape v Hwt HA ltac:(lia)) as (l & x & c & Ha & Hl & Hx & Hc & Hn & Htop & Hmod).
  destruct v as [n a]. simpl in Ha, Hn, Htop, Hmod, Hlt, Hge, Hcond. subst a.
  unfold ClearAll, assign_all, with_array. cbn [m_Array m_NumBits].
  rewrite vsize_app in *. change (vsize [x]) with 1 in *.
  pose proof (vsize_nonneg l) as Hs0.
  replace (0 <? k / 8) with true by (symmetry; apply Z.ltb_lt; lia).
  rewrite length_snoc, Htop, replicate_S_end. unfold CHAR_BIT in Hmod. rewrite Hmod.
  change ((8 - c) mod 8) with ((8 - c) mod CHAR_BIT).
  rewrite spare_bits_zero_iff by done.
  assert (Hvs : vsize (replicate (length l) 0) = vsize l) by apply vsize_replicate.
  assert (Hbits : forall y, uchar y ->
            for_up (Z.to_nat (k mod 8)) 0 (fun _ => shr_bit n) (replicate (length l) 0 ++ [y])
            = Some (replicate (length l) 0 ++ [Z.shiftr y (k mod 8)])).
  { intros y Hy. rewrite shr_bits_last by (done || by rewrite Htop). by rewrite Z2Nat.id by lia. }
  assert (Hmask : forall z, (c <> 0 -> to_uchar (Z.land z (256 - 2 ^ c)) = 0) -> (c = 0 -> z = 0) ->
            (if negb (c =? 0)
             then x0 ← rd (replicate (length l) 0 ++ [z]) (vsize l);
                  a3 ← wr (replicate (length l) 0 ++ [z]) (vsize l)
                         (to_uchar (Z.land x0 (spare_mask ((8 - c) mod CHAR_BIT))));
                  Some {| m_NumBits := n; m_Array := a3 |}
             else Some {| m_NumBits := n; m_Array := replicate (length l) 0 ++ [z] |})
            = Some {| m_NumBits := n; m_Array := replicate (length l) 0 ++ [0] |}).
  { intros z Hz1 Hz2.
    destruct (Z.eqb_spec c 0) as [Hc0 | Hc0]; simpl negb; cbv iota.
    - by rewrite Hz2.
    - destruct (spare_mask_bits c ltac:(lia)) as [_ ->].
      rewrite rd_middle' by done. cbn [mbind option_bind].
      rewrite wr_middle' by done. cbn [mbind option_bind]. by rewrite Hz1. }
  assert (k / 8 = vsize l + 1 \/ k / 8 = vsize l) as [Hch | Hch] by lia.
  - (* every character is vacated *)
    replace (Z.to_nat (vsize l - k / 8 + 1)) with O by lia. cbn [for_down mbind option_bind].
    replace (k / 8) with (Z.of_nat (S (length l))) by (unfold vsize in Hch; lia).
    rewrite Nat2Z.id.
    rewrite shr_zero_loop by (rewrite length_snoc; lia).
    cbn [mbind option_bind].
    rewrite drop_ge by (rewrite length_snoc; lia). rewrite app_nil_r, replicate_S_end.
    rewrite Hbits by (unfold uchar; lia). cbn [mbind option_bind]. rewrite Z.shiftr_0_l.
    apply Hmask; [|done]. intros _. reflexivity.
  - (* all but one: the first character moves to the end *)
    destruct l as [|h l']; [change (vsize []) with 0 in *; lia|].
    apply Forall_cons in Hl as [Hh Hl'].
    replace (Z.to_nat (vsize (h :: l') - k / 8 + 1)) with 1%nat by lia.
    cbn [for_down mbind option_bind].
    replace (vsize (h :: l') - k / 8) with 0 by lia.
    rewrite (rd_app_l (h :: l') [x] 0), rd_head by lia.
    cbn [mbind option_bind]. rewrite wr_middle' by done. cbn [mbind option_bind].
    replace (k / 8) with (Z.of_nat (length (h :: l'))) by (unfold vsize in Hch; lia).
    rewrite Nat2Z.id.
    rewrite shr_zero_loop by (rewrite length_snoc; lia).
    cbn [mbind option_bind]. rewrite drop_app_length.
    rewrite Hbits by done. cbn [mbind option_bind].
    apply Hmask; [|lia]. intros Hc0. apply shifted_out_right; [lia | lia | done].
Qed.

(** For the counts at or beyond the length for which the loops stay inside
    the storage ([k mod 8] at least the length, or [k / 8] at most the
    number of characters), both shifts clear a well-formed array. *)
Lemma shift_all_out v k :
  well_formed v -> uint k -> m_NumBits v <= k ->
  m_NumBits v <= k mod 8 \/ k / 8 <= vsize (m_Array v) ->
  op_shl v k = Some (ClearAll v) /\ op_shr v k = Some (ClearAll v) /\
  all_zero (ClearAll v).
Proof.
  intros Hwf Hk Hge Hcond. split; [by apply shl_all_out|]. split; [by apply shr_all_out|].
  unfold all_zero, ClearAll, assign_all. simpl. apply Forall_replicate. done.
Qed.

(** ** Scenarios *)

(** Eight bits, [SetBit(0)] and [SetBit(3)]: one character, [0x90]. *)
Example scenario_setbit :
  (v ← SetBit (new 8) 0; SetBit v 3) = Some (fromBuffer [144] 8).
Proof. reflexivity. Qed.

(** Sixteen zero bits incremented once, then 256 times more. *)
Example scenario_increment :
  op_inc (fromBuffer [0; 0] 16) = Some (fromBuffer [0; 1] 16) /\
  Nat.iter 257 (fun r => v ← r; op_inc v) (Some (fromBuffer [0; 0] 16))
  = Some (fromBuffer [1; 1] 16).
Proof. split; reflexivity. Qed.

(** [0xF0] and [0x0F]: or, and, xor. *)
Example scenario_bitwise :
  op_or (fromBuffer [240] 8) (fromBuffer [15] 8) = Some (fromBuffer [255] 8) /\
  op_and (fromBuffer [240] 8) (fromBuffer [15] 8) = Some (fromBuffer [0] 8) /\
  op_xor (fromBuffer [240] 8) (fromBuffer [15] 8) = Some (fromBuffer [255] 8).
Proof. repeat split. Qed.

(** Twenty bits, all set: shifted by four to the left, by nine to the
    right, by thirteen to the left. *)
Example scenario_shift :
  (v ← SetAll (new 20); op_shl v 4) = Some (fromBuffer [255; 255; 0] 20) /\
  (v ← SetAll (new 20); op_shr v 9) = Some (fromBuffer [0; 127; 240] 20) /\
  (v ← SetAll (new 20); op_shl v 13) = Some (fromBuffer [254; 0; 0] 20).
Proof. repeat split. Qed.

(** * Further properties of the code *)

(** ** No method changes the length or the number of characters *)

Lemma wr_length a i x a' : wr a i x = Some a' -> length a' = length a.
Proof. intros H. apply wr_Some in H as [_ ->]. apply length_insert. Qed.

Lemma for_up_length body cnt i a a' :
  (forall j b b', body j b = Some b' -> length b' = length b) ->
  for_up cnt i body a = Some a' -> length a' = length a.
Proof.
  intros Hbody. revert i a. induction cnt as [|cnt IH]; intros i a H.
  - by injection H as <-.
  - simpl in H. destruct (body i a) as [b|] eqn:E; [|done]. simpl in H.
    rewrite (IH _ _ H). by eapply Hbody.
Qed.

Lemma for_down_length body cnt i a a' :
  (forall j b b', body j b = Some b' -> length b' = length b) ->
  for_down cnt i body a = Some a' -> length a' = length a.
Proof.
  intros Hbody. revert i a. induction cnt as [|cnt IH]; intros i a H.
  - by injection H as <-.
  - simpl in H. destruct (body i a) as [b|] eqn:E; [|done]. simpl in H.
    rewrite (IH _ _ H). by eapply Hbody.
Qed.

Lemma inc_loop_length cnt i mx one a a' :
  inc_loop cnt i mx one a = Some a' -> length a' = length a.
Proof.
  revert i mx one a. induction cnt as [|cnt IH]; intros i mx one a H.
  - by injection H as <-.
  - simpl in H. destruct (rd a i) as [x|]; [|done]. simpl in H.
    destruct (negb (x =? mx)); [by eapply wr_length|].
    destruct (wr a i 0) as [b|] eqn:E; [|done]. simpl in H.
    rewrite (IH _ _ _ _ H). by eapply wr_length.
Qed.

Lemma dec_loop_length cnt i mx one a a' :
  dec_loop cnt i mx one a = Some a' -> length a' = length a.
Proof.
  revert i mx one a. induction cnt as [|cnt IH]; intros i mx one a H.
  - by injection H as <-.
  - simpl in H. destruct (rd a i) as [x|]; [|done]. simpl in H.
    destruct (one <=? x); [by eapply wr_length|].
    destruct (wr a i mx) as [b|] eqn:E; [|done]. simpl in H.
    rewrite (IH _ _ _ _ H). by eapply wr_length.
Qed.

Lemma bytewise_length op a b r : bytewise op a b = Some r -> length r = length a.
Proof.
  revert b r. induction a as [|x a IH]; intros [|y b] r H; simpl in H; try done.
  - by injection H as <-.
  - by injection H as <-.
  - destruct (bytewise op a b) as [r'|] eqn:E; [|done]. injection H as <-.
    simpl. f_equal. by eapply IH.
Qed.

Lemma shl_bit_length n a a' : shl_bit n a = Some a' -> length a' = length a.
Proof.
  unfold shl_bit. intros H.
  destruct (for_up _ _ _ a) as [a1|] eqn:E; [|done]. simpl in H.
  destruct (rd a1 _) as [x|]; [|done]. simpl in H.
  rewrite (wr_length _ _ _ _ H). eapply for_up_length; [|exact E].
  intros j b b' Hb. simpl in Hb. destruct (rd b j) as [x0|]; [|done]. simpl in Hb.
  destruct (wr b j _) as [b1|] eqn:E1; [|done]. simpl in Hb.
  destruct (rd b1 (j + 1)) as [y|]; [|done]. simpl in Hb.
  rewrite <- (wr_length _ _ _ _ E1).
  destruct (negb _); [|by injection Hb as <-].
  destruct (rd b1 j) as [x1|]; [|done]. simpl in Hb. by eapply wr_length.
Qed.

Lemma shr_bit_length n a a' : shr_bit n a = Some a' -> length a' = length a.
Proof.
  unfold shr_bit. intros H.
  destruct (for_down _ _ _ a) as [a1|] eqn:E; [|done]. simpl in H.
  destruct (rd a1 _) as [x|]; [|done]. simpl in H.
  rewrite (wr_length _ _ _ _ H). eapply for_down_length; [|exact E].
  intros j b b' Hb. simpl in Hb. destruct (rd b j) as [x0|]; [|done]. simpl in Hb.
  destruct (wr b j _) as [b1|] eqn:E1; [|done]. simpl in Hb.
  destruct (rd b1 (j - 1)) as [y|]; [|done]. simpl in Hb.
  rewrite <- (wr_length _ _ _ _ E1).
  destruct (negb _); [|by injection Hb as <-].
  destruct (rd b1 j) as [x1|]; [|done]. simpl in Hb. by eapply wr_length.
Qed.

Lemma op_shl_length v k v' :
  op_shl v k = Some v' ->
  m_NumBits v' = m_NumBits v /\ length (m_Array v') = length (m_Array v).
Proof.
  unfold op_shl. intros H.
  destruct (_ <=? _).
  { injection H as <-. simpl. unfold assign_all. by rewrite length_replicate. }
  destruct (if 0 <? _ then _ else _) as [a1|] eqn:E1; [|done]. simpl in H.
  destruct (for_up _ _ _ a1) as [a2|] eqn:E2; [|done]. injection H as <-. simpl.
  split; [done|].
  assert (length a2 = length a1) as ->.
  { eapply for_up_length; [|exact E2]. intros j b b'. apply shl_bit_length. }
  destruct (0 <? _); [|by injection E1 as <-].
  destruct (for_up _ _ _ (m_Array v)) as [a0|] eqn:E0; [|done]. simpl in E1.
  assert (length a1 = length a0) as ->.
  { eapply for_down_length; [|exact E1]. intros j b b'. apply wr_length. }
  eapply for_up_length; [|exact E0].
  intros j b b' Hb. simpl in Hb. destruct (rd b _) as [x|]; [|done]. by eapply wr_length.
Qed.

Lemma op_shr_length v k v' :
  op_shr v k = Some v' ->
  m_NumBits v' = m_NumBits v /\ length (m_Array v') = length (m_Array v).
Proof.
  unfold op_shr. intros H.
  destruct (_ <=? _).
  { injection H as <-. simpl. unfold assign_all. by rewrite length_replicate. }
  destruct (if 0 <? _ then _ else _) as [a1|] eqn:E1; [|done]. simpl in H.
  destruct (for_up _ _ _ a1) as [a2|] eqn:E2; [|done]. simpl in H.
  assert (length a2 = length (m_Array v)) as Hl.
  { assert (length a2 = length a1) as ->.
    { eapply for_up_length; [|exact E2]. intros j b b'. apply shr_bit_length. }
    destruct (0 <? _); [|by injection E1 as <-].
    destruct (for_down _ _ _ (m_Array v)) as [a0|] eqn:E0; [|done]. simpl in E1.
    assert (length a1 = length a0) as ->.
    { eapply for_down_length; [|exact E1]. intros j b b'. apply wr_length. }
    eapply for_down_length; [|exact E0].
    intros j b b' Hb. simpl in Hb. destruct (rd b _) as [x|]; [|done]. by eapply wr_length. }
  destruct (negb _); [|by injection H as <-].
  destruct (rd a2 _) as [x|]; [|done]. simpl in H.
  destruct (wr a2 _ _) as [a3|] eqn:E3; [|done]. injection H as <-. simpl.
  split; [done|]. rewrite <- Hl. by eapply wr_length.
Qed.

(** X1: whatever the array, a method that returns leaves the number of bits
    and the number of characters as they were: [SetAll], [ClearAll],
    [SetBit], [ClearBit], [Not], [&=], [^=], [|=], [++], [--], [<<=] and
    [>>=] never resize. *)
Theorem methods_never_resize (v w v' : bit_array_c) (bit k : Z) :
  SetAll v = Some v' \/ ClearAll v = v' \/
  SetBit v bit = Some v' \/ ClearBit v bit = Some v' \/ Not v = Some v' \/
  and_assign v w = Some v' \/ xor_assign v w = Some v' \/ or_assign v w = Some v' \/
  op_inc v = Some v' \/ op_dec v = Some v' \/
  op_shl v k = Some v' \/ op_shr v k = Some v' ->
  m_NumBits v' = m_NumBits v /\ length (m_Array v') = length (m_Array v).
Proof.
  assert (Hop : forall op, op_assign op v w = Some v' ->
            m_NumBits v' = m_NumBits v /\ length (m_Array v') = length (m_Array v)).
  { intros op H. unfold op_assign in H. destruct (negb _); [by injection H as <-|].
    destruct (bytewise _ _ _) as [r|] eqn:E; [|done]. injection H as <-.
    split; [done|]. by eapply bytewise_length. }
  intros [H|[H|[H|[H|[H|[H|[H|[H|[H|[H|[H|H]]]]]]]]]]].
  - unfold SetAll in H. destruct (negb _).
    + destruct (wr _ _ _) as [a'|] eqn:E; [|done]. injection H as <-.
      split; [done|]. simpl. rewrite (wr_length _ _ _ _ E).
      unfold assign_all. by rewrite length_replicate.
    + injection H as <-. simpl. unfold assign_all. by rewrite length_replicate.
  - subst v'. simpl. unfold assign_all. by rewrite length_replicate.
  - unfold SetBit in H. destruct (_ <=? _); [by injection H as <-|].
    destruct (rd _ _) as [x|]; [|done]. simpl in H.
    destruct (wr _ _ _) as [a'|] eqn:E; [|done]. injection H as <-.
    split; [done|]. by eapply wr_length.
  - unfold ClearBit in H. destruct (_ <=? _); [by injection H as <-|].
    destruct (rd _ _) as [x|]; [|done]. simpl in H.
    destruct (wr _ _ _) as [a'|] eqn:E; [|done]. injection H as <-.
    split; [done|]. by eapply wr_length.
  - unfold Not in H. destruct (_ =? _); [by injection H as <-|].
    destruct (negb _).
    + destruct (rd _ _) as [x|]; [|done]. simpl in H.
      destruct (wr _ _ _) as [a'|] eqn:E; [|done]. injection H as <-.
      split; [done|]. simpl. rewrite (wr_length _ _ _ _ E). by rewrite length_map.
    + injection H as <-. simpl. by rewrite length_map.
  - by apply (Hop Z.land).
  - by apply (Hop Z.lxor).
  - by apply (Hop Z.lor).
  - unfold op_inc in H. destruct (_ =? _); [by injection H as <-|].
    destruct (inc_loop _ _ _ _ _) as [a'|] eqn:E; [|done]. injection H as <-.
    split; [done|]. by eapply inc_loop_length.
  - unfold op_dec in H. destruct (_ =? _); [by injection H as <-|].
    destruct (dec_loop _ _ _ _ _) as [a'|] eqn:E; [|done]. injection H as <-.
    split; [done|]. by eapply dec_loop_length.
  - by eapply op_shl_length.
  - by eapply op_shr_length.
Qed.

Lemma methods_never_resize_witness :
  m_NumBits (fromBuffer [0; 127; 240] 20) = m_NumBits (fromBuffer [255; 255; 240] 20) /\
  length (m_Array (fromBuffer [0; 127; 240] 20)) = length (m_Array (fromBuffer [255; 255; 240] 20)).
Proof.
  apply (methods_never_resize (fromBuffer [255; 255; 240] 20)
           (fromBuffer [0] 8) (fromBuffer [0; 127; 240] 20) 0 9).
  do 11 right. reflexivity.
Defined.

(** ** Single bits on any array *)

Lemma get_rd v j :
  get v j = x ← rd (m_Array v) (j / 8); Some (Z.testbit x (7 - j mod 8)).
Proof.
  unfold get, BIT_CHAR, BIT_IN_CHAR, CHAR_BIT.
  destruct (rd _ _) as [x|]; [|done]. simpl.
  pose proof (Z.mod_pos_bound j 8 ltac:(lia)).
  replace (8 - 1 - j mod 8) with (7 - j mod 8) by lia.
  by rewrite land_bit by lia.
Qed.

Lemma rd_wr_same a i y a' : wr a i y = Some a' -> rd a' i = Some y.
Proof.
  intros H. apply wr_Some in H as [Hi ->].
  destruct (rd_in (<[Z.to_nat i := y]> a) i) as (x & -> & Hx); [by rewrite vsize_insert|].
  rewrite list_lookup_insert_eq in Hx by (unfold vsize in Hi; lia). done.
Qed.

Lemma rd_wr_other a i y a' j : wr a i y = Some a' -> i <> j -> rd a' j = rd a j.
Proof.
  intros H Hne. apply wr_Some in H as [Hi ->].
  unfold rd. rewrite vsize_insert.
  destruct ((0 <=? j) && (j <? vsize a)) eqn:E; [|done].
  apply andb_true_iff in E as [E1 E2]. apply Z.leb_le in E1.
  apply list_lookup_insert_ne. lia.
Qed.

Lemma same_char_other_bit i j :
  i / 8 = j / 8 -> i <> j -> 7 - i mod 8 <> 7 - j mod 8.
Proof. intros He Hne. pose proof (Z.div_mod i 8). pose proof (Z.div_mod j 8). lia. Qed.

Lemma testbit_to_uchar x k : 0 <= k < 8 -> Z.testbit (to_uchar x) k = Z.testbit x k.
Proof. intros Hk. unfold to_uchar. change 256 with (2 ^ 8). apply Z.mod_pow2_bits_low. lia. Qed.

(** The character [SetBit] and [ClearBit] write, bit by bit. *)
Lemma setbit_char x k kj :
  0 <= k < 8 -> 0 <= kj < 8 ->
  Z.testbit (to_uchar (Z.lor x (Z.shiftl 1 k))) kj = Z.testbit x kj || (k =? kj).
Proof.
  intros Hk Hkj. rewrite testbit_to_uchar, Z.lor_spec, Z.shiftl_1_l by lia.
  by rewrite Z.pow2_bits_eqb by lia.
Qed.

Lemma clearbit_char x k kj :
  0 <= k < 8 -> 0 <= kj < 8 ->
  Z.testbit (to_uchar (Z.land x (to_uchar (Z.lnot (to_uchar (Z.shiftl 1 k)))))) kj
  = Z.testbit x kj && negb (k =? kj).
Proof.
  intros Hk Hkj.
  rewrite testbit_to_uchar, Z.land_spec, testbit_to_uchar, Z.lnot_spec by lia.
  rewrite testbit_to_uchar, Z.shiftl_1_l by lia.
  by rewrite Z.pow2_bits_eqb by lia.
Qed.

Lemma SetBit_get v bit :
  0 <= bit < m_NumBits v -> bit < 8 * vsize (m_Array v) ->
  exists v', SetBit v bit = Some v' /\ m_NumBits v' = m_NumBits v /\
             get v' bit = Some true /\
             forall j, j <> bit -> get v' j = get v j.
Proof.
  intros Hb Hs.
  pose proof (Z.div_mod bit 8 ltac:(lia)). pose proof (Z.mod_pos_bound bit 8 ltac:(lia)).
  assert (Hi : 0 <= BIT_CHAR bit < vsize (m_Array v)) by (unfold BIT_CHAR, CHAR_BIT; lia).
  destruct (rd_in _ _ Hi) as (x & Hrd & _).
  assert (Hk : BIT_IN_CHAR bit = Z.shiftl 1 (7 - bit mod 8)).
  { unfold BIT_IN_CHAR, CHAR_BIT. f_equal; lia. }
  unfold SetBit.
  replace (m_NumBits v <=? bit) with false by (symmetry; apply Z.leb_gt; lia).
  rewrite Hrd, Hk. simpl. rewrite !wr_in by done. simpl.
  eexists. split; [done|]. split; [done|].
  set (y := to_uchar (Z.lor x (Z.shiftl 1 (7 - bit mod 8)))).
  assert (Hw : wr (m_Array v) (BIT_CHAR bit) y
               = Some (<[Z.to_nat (BIT_CHAR bit) := y]> (m_Array v))) by (by rewrite wr_in).
  split.
  - rewrite get_rd. simpl m_Array. change (bit / 8) with (BIT_CHAR bit).
    rewrite (rd_wr_same _ _ _ _ Hw). simpl. f_equal. unfold y.
    rewrite setbit_char by lia. rewrite Z.eqb_refl. apply orb_true_r.
  - intros j Hne. rewrite !get_rd. simpl m_Array.
    destruct (Z.eq_dec (BIT_CHAR bit) (j / 8)) as [He | Hd].
    + rewrite <- He, (rd_wr_same _ _ _ _ Hw), Hrd. simpl. f_equal. unfold y.
      pose proof (Z.mod_pos_bound j 8 ltac:(lia)).
      rewrite setbit_char by lia.
      pose proof (same_char_other_bit bit j He ltac:(lia)).
      replace (7 - bit mod 8 =? 7 - j mod 8) with false by (symmetry; apply Z.eqb_neq; lia).
      apply orb_false_r.
    + by rewrite (rd_wr_other _ _ _ _ _ Hw Hd).
Qed.

Lemma ClearBit_get v bit :
  0 <= bit < m_NumBits v -> bit < 8 * vsize (m_Array v) ->
  exists v', ClearBit v bit = Some v' /\ m_NumBits v' = m_NumBits v /\
             get v' bit = Some false /\
             forall j, j <> bit -> get v' j = get v j.
Proof.
  intros Hb Hs.
  pose proof (Z.div_mod bit 8 ltac:(lia)). pose proof (Z.mod_pos_bound bit 8 ltac:(lia)).
  assert (Hi : 0 <= BIT_CHAR bit < vsize (m_Array v)) by (unfold BIT_CHAR, CHAR_BIT; lia).
  destruct (rd_in _ _ Hi) as (x & Hrd & _).
  assert (Hk : BIT_IN_CHAR bit = Z.shiftl 1 (7 - bit mod 8)).
  { unfold BIT_IN_CHAR, CHAR_BIT. f_equal; lia. }
  unfold ClearBit.
  replace (m_NumBits v <=? bit) with false by (symmetry; apply Z.leb_gt; lia).
  rewrite Hrd, Hk. simpl. rewrite !wr_in by done. simpl.
  eexists. split; [done|]. split; [done|].
  set (y := to_uchar (Z.land x (to_uchar (Z.lnot (to_uchar (Z.shiftl 1 (7 - bit mod 8))))))).
  assert (Hw : wr (m_Array v) (BIT_CHAR bit) y
               = Some (<[Z.to_nat (BIT_CHAR bit) := y]> (m_Array v))) by (by rewrite wr_in).
  split.
  - rewrite get_rd. simpl m_Array. change (bit / 8) with (BIT_CHAR bit).
    rewrite (rd_wr_same _ _ _ _ Hw). simpl. f_equal. unfold y.
    rewrite clearbit_char by lia. rewrite Z.eqb_refl. apply andb_false_r.
  - intros j Hne. rewrite !get_rd. simpl m_Array.
    destruct (Z.eq_dec (BIT_CHAR bit) (j / 8)) as [He | Hd].
    + rewrite <- He, (rd_wr_same _ _ _ _ Hw), Hrd. simpl. f_equal. unfold y.
      pose proof (Z.mod_pos_bound j 8 ltac:(lia)).
      rewrite clearbit_char by lia.
      pose proof (same_char_other_bit bit j He ltac:(lia)).
      replace (7 - bit mod 8 =? 7 - j mod 8) with false by (symmetry; apply Z.eqb_neq; lia).
      apply andb_true_r.
    + by rewrite (rd_wr_other _ _ _ _ _ Hw Hd).
Qed.

(** X2: on any array, for a bit below the length that the storage holds,
    [SetBit] makes [operator[]] return true at that bit and [ClearBit]
    makes it return false; at every other index [operator[]] returns what
    it returned before (also where it is not defined). *)
Theorem setbit_clearbit_frame (v : bit_array_c) (bit : Z) :
  0 <= bit < m_NumBits v -> bit < 8 * vsize (m_Array v) ->
  (exists v', SetBit v bit = Some v' /\ get v' bit = Some true /\
              forall j, j <> bit -> get v' j = get v j) /\
  (exists v', ClearBit v bit = Some v' /\ get v' bit = Some false /\
              forall j, j <> bit -> get v' j = get v j).
Proof.
  intros Hb Hs. split.
  - destruct (SetBit_get v bit Hb Hs) as (v' & H1 & _ & H2 & H3). by exists v'.
  - destruct (ClearBit_get v bit Hb Hs) as (v' & H1 & _ & H2 & H3). by exists v'.
Qed.

Lemma setbit_clearbit_frame_witness :
  (exists v', SetBit (fromBuffer [165; 90; 160] 20) 9 = Some v' /\ get v' 9 = Some true /\
              forall j, j <> 9 -> get v' j = get (fromBuffer [165; 90; 160] 20) j) /\
  (exists v', ClearBit (fromBuffer [165; 90; 160] 20) 9 = Some v' /\ get v' 9 = Some false /\
              forall j, j <> 9 -> get v' j = get (fromBuffer [165; 90; 160] 20) j).
Proof. apply setbit_clearbit_frame; vm_compute; split; congruence. Defined.

(** *** Set then clear, clear then set *)

Lemma set_clear_char k x :
  0 <= k < 8 -> uchar x ->
  (Z.testbit x k = false ->
   to_uchar (Z.land (to_uchar (Z.lor x (Z.shiftl 1 k)))
                    (to_uchar (Z.lnot (to_uchar (Z.shiftl 1 k))))) = x) /\
  (Z.testbit x k = true ->
   to_uchar (Z.lor (to_uchar (Z.land x (to_uchar (Z.lnot (to_uchar (Z.shiftl 1 k))))))
                   (Z.shiftl 1 k)) = x) /\
  (Z.testbit x k = true -> to_uchar (Z.lor x (Z.shiftl 1 k)) = x) /\
  (Z.testbit x k = false ->
   to_uchar (Z.land x (to_uchar (Z.lnot (to_uchar (Z.shiftl 1 k))))) = x).
Proof.
  intros Hk Hx.
  assert (Hinj : forall y, (forall m, 0 <= m < 8 -> Z.testbit (to_uchar y) m = Z.testbit x m) ->
                           to_uchar y = x).
  { intros y Hy. apply Z.bits_inj'. intros m Hm.
    destruct (Z.lt_ge_cases m 8); [apply Hy; lia|].
    unfold to_uchar. change 256 with (2 ^ 8). rewrite Z.mod_pow2_bits_high by lia.
    symmetry. unfold uchar in Hx. destruct (Z.eq_dec x 0) as [-> | Hne]; [apply Z.bits_0|].
    apply Z.bits_above_log2; [lia|].
    assert (Z.log2 x < 8) by (apply Z.log2_lt_pow2; lia). lia. }
  repeat split; intros Hb; apply Hinj; intros m Hm.
  - rewrite clearbit_char, setbit_char by lia.
    destruct (Z.eqb_spec k m) as [<- | Hne]; [by rewrite Hb | by rewrite orb_false_r, andb_true_r].
  - rewrite setbit_char, clearbit_char by lia.
    destruct (Z.eqb_spec k m) as [<- | Hne]; [by rewrite Hb | by rewrite orb_false_r, andb_true_r].
  - rewrite setbit_char by lia.
    destruct (Z.eqb_spec k m) as [<- | Hne]; [by rewrite Hb | by rewrite orb_false_r].
  - rewrite clearbit_char by lia.
    destruct (Z.eqb_spec k m) as [<- | Hne]; [by rewrite Hb | by rewrite andb_true_r].
Qed.

(** X3: on an array of characters in range, for a bit below the length:
    setting a clear bit and clearing it again gives the array back, and so
    does clearing a set bit and setting it again; setting a set bit or
    clearing a clear bit changes nothing. *)
Theorem set_clear_round_trip (v : bit_array_c) (bit : Z) :
  Forall uchar (m_Array v) ->
  0 <= bit < m_NumBits v -> bit < 8 * vsize (m_Array v) ->
  (get v bit = Some false ->
   (exists v', SetBit v bit = Some v' /\ ClearBit v' bit = Some v) /\
   ClearBit v bit = Some v) /\
  (get v bit = Some true ->
   (exists v', ClearBit v bit = Some v' /\ SetBit v' bit = Some v) /\
   SetBit v bit = Some v).
Proof.
  intros Ha Hb Hs.
  pose proof (Z.div_mod bit 8 ltac:(lia)). pose proof (Z.mod_pos_bound bit 8 ltac:(lia)).
  assert (Hi : 0 <= BIT_CHAR bit < vsize (m_Array v)) by (unfold BIT_CHAR, CHAR_BIT; lia).
  destruct (rd_in _ _ Hi) as (x & Hrd & Hl).
  assert (Hx : uchar x) by (rewrite Forall_lookup in Ha; by eapply Ha).
  assert (Hk : BIT_IN_CHAR bit = Z.shiftl 1 (7 - bit mod 8)).
  { unfold BIT_IN_CHAR, CHAR_BIT. f_equal; lia. }
  rewrite get_rd. change (bit / 8) with (BIT_CHAR bit). rewrite Hrd. simpl.
  destruct (set_clear_char (7 - bit mod 8) x ltac:(lia) Hx) as (H1 & H2 & H3 & H4).
  unfold SetBit, ClearBit.
  replace (m_NumBits v <=? bit) with false by (symmetry; apply Z.leb_gt; lia).
  rewrite Hrd, Hk. simpl. rewrite !wr_in by done. simpl.
  assert (Hid : <[Z.to_nat (BIT_CHAR bit) := x]> (m_Array v) = m_Array v)
    by (by apply list_insert_id).
  split; intros [= Hbit].
  - split.
    + eexists. split; [done|]. simpl.
      replace (m_NumBits v <=? bit) with false by (symmetry; apply Z.leb_gt; lia).
      erewrite rd_wr_same by (by apply wr_in). simpl.
      rewrite wr_in by (by rewrite vsize_insert). simpl.
      rewrite H1 by done. rewrite list_insert_insert_eq, Hid.
      f_equal. by destruct v.
    + rewrite H4, Hid by done. f_equal. by destruct v.
  - split.
    + eexists. split; [done|]. simpl.
      replace (m_NumBits v <=? bit) with false by (symmetry; apply Z.leb_gt; lia).
      erewrite rd_wr_same by (by apply wr_in). simpl.
      rewrite wr_in by (by rewrite vsize_insert). simpl.
      rewrite H2 by done. rewrite list_insert_insert_eq, Hid.
      f_equal. by destruct v.
    + rewrite H3, Hid by done. f_equal. by destruct v.
Qed.

Lemma set_clear_round_trip_witness :
  (get (fromBuffer [165; 90; 160] 20) 9 = Some false ->
   (exists v', SetBit (fromBuffer [165; 90; 160] 20) 9 = Some v' /\
               ClearBit v' 9 = Some (fromBuffer [165; 90; 160] 20)) /\
   ClearBit (fromBuffer [165; 90; 160] 20) 9 = Some (fromBuffer [165; 90; 160] 20)) /\
  (get (fromBuffer [165; 90; 160] 20) 9 = Some true ->
   (exists v', ClearBit (fromBuffer [165; 90; 160] 20) 9 = Some v' /\
               SetBit v' 9 = Some (fromBuffer [165; 90; 160] 20)) /\
   SetBit (fromBuffer [165; 90; 160] 20) 9 = Some (fromBuffer [165; 90; 160] 20)).
Proof.
  apply set_clear_round_trip.
  - repeat constructor; vm_compute; discriminate.
  - vm_compute. split; congruence.
  - reflexivity.
Defined.

(** ** Assignment through the index proxy *)

(** X4: [array(bit) = src] on any array.  For a bit below the length that
    the storage holds, the array the proxy then refers to has the same
    length, [operator[]] returns [src] at [bit] and what it returned before
    at every other index.  For a bit at or beyond the length, and for a
    proxy with a null pointer, the assignment returns without changing
    anything. *)
Theorem index_assign_spec (v : bit_array_c) (bit : Z) (src : bool) :
  (0 <= bit < m_NumBits v -> bit < 8 * vsize (m_Array v) ->
   exists v', index_assign (op_call v bit) src = Some (op_call v' bit) /\
              Size v' = Size v /\ get v' bit = Some src /\
              forall j, j <> bit -> get v' j = get v j) /\
  (m_NumBits v <= bit -> index_assign (op_call v bit) src = Some (op_call v bit)) /\
  index_assign (mk_bit_array_index None bit) src = Some (mk_bit_array_index None bit).
Proof.
  split; [|split].
  - intros Hb Hs. unfold index_assign, op_call, Size. simpl.
    replace (m_NumBits v <=? bit) with false by (symmetry; apply Z.leb_gt; lia).
    destruct src.
    + destruct (SetBit_get v bit Hb Hs) as (v' & -> & Hn & Hg & Hf).
      exists v'. by simpl.
    + destruct (ClearBit_get v bit Hb Hs) as (v' & -> & Hn & Hg & Hf).
      exists v'. by simpl.
  - intros Hb. unfold index_assign, op_call, Size. simpl.
    by replace (m_NumBits v <=? bit) with true by (symmetry; apply Z.leb_le; lia).
  - done.
Qed.

Lemma index_assign_spec_witness :
  exists v', index_assign (op_call (fromBuffer [165; 90; 160] 20) 9) true
             = Some (op_call v' 9) /\
             Size v' = Size (fromBuffer [165; 90; 160] 20) /\
             get v' 9 = Some true /\
             forall j, j <> 9 -> get v' j = get (fromBuffer [165; 90; 160] 20) j.
Proof.
  apply (proj1 (index_assign_spec (fromBuffer [165; 90; 160] 20) 9 true)).
  - vm_compute. split; congruence.
  - reflexivity.
Defined.

(** ** Comparison operators *)

Lemma vec_eq_refl a : vec_eq a a = true.
Proof. by apply vec_eq_true. Qed.

Lemma vec_lt_irrefl a : vec_lt a a = false.
Proof. induction a as [|x a IH]; [done|]. simpl. by rewrite Z.ltb_irrefl. Qed.

Lemma vec_trichotomy a b :
  length a = length b ->
  (vec_lt a b = true /\ vec_eq a b = false /\ vec_lt b a = false) \/
  (vec_lt a b = false /\ vec_eq a b = true /\ vec_lt b a = false) \/
  (vec_lt a b = false /\ vec_eq a b = false /\ vec_lt b a = true).
Proof.
  revert b. induction a as [|x a IH]; intros [|y b] Hl; try done.
  - right. by left.
  - injection Hl as Hl. specialize (IH b Hl). simpl.
    destruct (Z.ltb_spec x y), (Z.ltb_spec y x), (Z.eqb_spec x y); try lia; simpl; tauto.
Qed.

Lemma be_value_app a b :
  be_value (a ++ b) = be_value a * 256 ^ vsize b + be_value b.
Proof.
  induction b as [|y b IH] using rev_ind.
  - rewrite app_nil_r. unfold vsize. simpl. unfold be_value at 3. simpl. lia.
  - rewrite app_assoc, !be_value_snoc, IH. unfold vsize.
    rewrite length_app. simpl length.
    replace (Z.of_nat (length b + 1)) with (Z.of_nat (length b) + 1) by lia.
    rewrite Z.pow_add_r by lia. lia.
Qed.

Lemma be_value_cons x a : be_value (x :: a) = x * 256 ^ vsize a + be_value a.
Proof.
  change (x :: a) with ([x] ++ a). rewrite be_value_app.
  unfold be_value at 1. simpl. lia.
Qed.

Lemma vec_lt_be_value a b :
  Forall uchar a -> Forall uchar b -> length a = length b ->
  vec_lt a b = true <-> be_value a < be_value b.
Proof.
  revert b. induction a as [|x a IH]; intros [|y b] Ha Hb Hl; try done.
  injection Hl as Hl.
  apply Forall_cons in Ha as [Hx Ha]. apply Forall_cons in Hb as [Hy Hb].
  specialize (IH b Ha Hb Hl). rewrite !be_value_cons.
  assert (vsize a = vsize b) as Hs by (unfold vsize; lia).
  pose proof (be_value_bound a Ha). pose proof (be_value_bound b Hb).
  rewrite Hs in *. set (K := 256 ^ vsize b) in *.
  simpl. destruct (Z.ltb_spec x y); [|destruct (Z.ltb_spec y x)].
  - split; [intros _; nia | done].
  - split; [done | nia].
  - assert (x = y) as -> by lia. rewrite IH. lia.
Qed.

(** X5: the six comparison operators on arrays of one length and one
    storage size: exactly one of [<], [==], [>] holds; [==] holds exactly
    when the two arrays are the same; [<=] is [<] or [==] and [>=] is [>]
    or [==].  On any two arrays [!=] is the negation of [==] and [v > w] is
    [w < v]. *)
Theorem compare_same_length (v w : bit_array_c) :
  m_NumBits v = m_NumBits w -> vsize (m_Array v) = vsize (m_Array w) ->
  ((op_lt v w = true /\ op_eq v w = false /\ op_gt v w = false) \/
   (op_lt v w = false /\ op_eq v w = true /\ op_gt v w = false) \/
   (op_lt v w = false /\ op_eq v w = false /\ op_gt v w = true)) /\
  (op_eq v w = true <-> v = w) /\
  op_le v w = op_lt v w || op_eq v w /\
  op_ge v w = op_gt v w || op_eq v w /\
  op_ne v w = negb (op_eq v w) /\
  op_gt v w = op_lt w v.
Proof.
  intros Hn Hs. unfold op_lt, op_eq, op_gt, op_le, op_ge, op_ne.
  rewrite <- Hn, !Z.eqb_refl. simpl.
  assert (Hl : length (m_Array v) = length (m_Array w)) by (unfold vsize in Hs; lia).
  pose proof (vec_trichotomy _ _ Hl) as Ht.
  split; [done|]. split; [|split; [|split]].
  - rewrite vec_eq_true. split; [|by intros ->].
    destruct v, w. simpl in *. by intros ->; subst.
  - destruct Ht as [(-> & -> & ->) | [(-> & -> & ->) | (-> & -> & ->)]]; done.
  - destruct Ht as [(-> & -> & ->) | [(-> & -> & ->) | (-> & -> & ->)]]; done.
  - done.
Qed.

Lemma compare_same_length_witness :
  ((op_lt (fromBuffer [1; 128] 9) (fromBuffer [2; 0] 9) = true /\
    op_eq (fromBuffer [1; 128] 9) (fromBuffer [2; 0] 9) = false /\
    op_gt (fromBuffer [1; 128] 9) (fromBuffer [2; 0] 9) = false) \/
   (op_lt (fromBuffer [1; 128] 9) (fromBuffer [2; 0] 9) = false /\
    op_eq (fromBuffer [1; 128] 9) (fromBuffer [2; 0] 9) = true /\
    op_gt (fromBuffer [1; 128] 9) (fromBuffer [2; 0] 9) = false) \/
   (op_lt (fromBuffer [1; 128] 9) (fromBuffer [2; 0] 9) = false /\
    op_eq (fromBuffer [1; 128] 9) (fromBuffer [2; 0] 9) = false /\
    op_gt (fromBuffer [1; 128] 9) (fromBuffer [2; 0] 9) = true)) /\
  (op_eq (fromBuffer [1; 128] 9) (fromBuffer [2; 0] 9) = true <->
   fromBuffer [1; 128] 9 = fromBuffer [2; 0] 9) /\
  op_le (fromBuffer [1; 128] 9) (fromBuffer [2; 0] 9)
  = op_lt (fromBuffer [1; 128] 9) (fromBuffer [2; 0] 9)
    || op_eq (fromBuffer [1; 128] 9) (fromBuffer [2; 0] 9) /\
  op_ge (fromBuffer [1; 128] 9) (fromBuffer [2; 0] 9)
  = op_gt (fromBuffer [1; 128] 9) (fromBuffer [2; 0] 9)
    || op_eq (fromBuffer [1; 128] 9) (fromBuffer [2; 0] 9) /\
  op_ne (fromBuffer [1; 128] 9) (fromBuffer [2; 0] 9)
  = negb (op_eq (fromBuffer [1; 128] 9) (fromBuffer [2; 0] 9)) /\
  op_gt (fromBuffer [1; 128] 9) (fromBuffer [2; 0] 9)
  = op_lt (fromBuffer [2; 0] 9) (fromBuffer [1; 128] 9).
Proof. apply compare_same_length; reflexivity. Defined.

Lemma well_formed_value v :
  well_formed v -> value v = be_value (m_Array v) / 2 ^ spare_count v /\
                   be_value (m_Array v) mod 2 ^ spare_count v = 0 /\
                   0 <= spare_count v < 8.
Proof.
  intros Hwf. pose proof Hwf as (Ht & HA & HB).
  destruct (well_formed_facts v Hwf) as (s & c & -> & -> & Hu & Hc & Hs & (Hsz & Hua & Hf) & _).
  assert (Hsc : spare_count v = 8 * ceil8 (m_NumBits v) - m_NumBits v)
    by (unfold spare_count; by rewrite Hsz).
  rewrite Hsc. split; [|split; [|done]].
  - rewrite value_packed; [|done|lia]. unfold packed_value. by rewrite Hsz.
  - set (c := 8 * ceil8 (m_NumBits v) - m_NumBits v) in *.
    revert Hf. generalize (m_Array v). intros a.
    induction a as [|x0 a0 _] using rev_ind; intros Hf; [done|].
    rewrite be_value_snoc.
    unfold final_unit in Hf. rewrite last_last in Hf.
    assert (256 = 2 ^ c * 2 ^ (8 - c)) as ->.
    { rewrite <- Z.pow_add_r by lia. by replace (c + (8 - c)) with 8 by lia. }
    rewrite <- Z.mul_assoc, Z.add_comm, Z.mul_comm.
    rewrite Z.mod_add by (apply Z.pow_nonzero; lia). done.
Qed.

(** X6: on well-formed arrays of one length the comparison operators
    compare the values: [v < w] holds exactly when the value of [v] is
    below the value of [w], and likewise for [==], [<=], [>], [>=], and
    [!=] holds exactly when the values differ. *)
Theorem compare_is_numeric (v w : bit_array_c) :
  well_formed v -> well_formed w -> m_NumBits v = m_NumBits w ->
  (op_lt v w = true <-> value v < value w) /\
  (op_eq v w = true <-> value v = value w) /\
  (op_le v w = true <-> value v <= value w) /\
  (op_gt v w = true <-> value v > value w) /\
  (op_ge v w = true <-> value v >= value w) /\
  (op_ne v w = true <-> value v <> value w).
Proof.
  intros Hv Hw Hn.
  destruct (well_formed_value v Hv) as (Ev & Mv & Hc).
  destruct (well_formed_value w Hw) as (Ew & Mw & _).
  pose proof Hv as ((_ & Hav) & HAv & _). pose proof Hw as ((_ & Haw) & HAw & _).
  assert (Hs : vsize (m_Array v) = vsize (m_Array w)).
  { unfold InvariantA in *. by rewrite HAv, HAw, Hn. }
  assert (Hl : length (m_Array v) = length (m_Array w)) by (unfold vsize in Hs; lia).
  assert (Hsc : spare_count w = spare_count v) by (unfold spare_count; rewrite Hs, Hn; lia).
  rewrite Hsc in *.
  set (K := 2 ^ spare_count v) in *.
  assert (HK : 0 < K) by (apply Z.pow_pos_nonneg; lia).
  pose proof (Z.div_mod (be_value (m_Array v)) K ltac:(lia)) as Dv.
  pose proof (Z.div_mod (be_value (m_Array w)) K ltac:(lia)) as Dw.
  rewrite Mv in Dv. rewrite Mw in Dw. rewrite <- Ev in Dv. rewrite <- Ew in Dw.
  pose proof (vec_lt_be_value _ _ Hav Haw Hl) as Hlt.
  pose proof (vec_lt_be_value _ _ Haw Hav (eq_sym Hl)) as Hgt.
  assert (Heq : vec_eq (m_Array v) (m_Array w) = true <-> value v = value w).
  { rewrite vec_eq_true. split; [intros E; rewrite E in Dv; nia|].
    intros E. apply be_value_inj; try done. nia. }
  pose proof (vec_trichotomy _ _ Hl) as Ht.
  unfold op_lt, op_eq, op_gt, op_le, op_ge, op_ne.
  rewrite <- Hn, !Z.eqb_refl. simpl.
  rewrite !negb_true_iff, <- !not_true_iff_false, Heq, Hlt, Hgt.
  repeat split; try nia.
Qed.

Lemma compare_is_numeric_witness :
  (op_lt (fromBuffer [1; 128] 9) (fromBuffer [2; 0] 9) = true <->
   value (fromBuffer [1; 128] 9) < value (fromBuffer [2; 0] 9)) /\
  (op_eq (fromBuffer [1; 128] 9) (fromBuffer [2; 0] 9) = true <->
   value (fromBuffer [1; 128] 9) = value (fromBuffer [2; 0] 9)) /\
  (op_le (fromBuffer [1; 128] 9) (fromBuffer [2; 0] 9) = true <->
   value (fromBuffer [1; 128] 9) <= value (fromBuffer [2; 0] 9)) /\
  (op_gt (fromBuffer [1; 128] 9) (fromBuffer [2; 0] 9) = true <->
   value (fromBuffer [1; 128] 9) > value (fromBuffer [2; 0] 9)) /\
  (op_ge (fromBuffer [1; 128] 9) (fromBuffer [2; 0] 9) = true <->
   value (fromBuffer [1; 128] 9) >= value (fromBuffer [2; 0] 9)) /\
  (op_ne (fromBuffer [1; 128] 9) (fromBuffer [2; 0] 9) = true <->
   value (fromBuffer [1; 128] 9) <> value (fromBuffer [2; 0] 9)).
Proof.
  apply compare_is_numeric; [closed_well_formed | closed_well_formed | reflexivity].
Defined.

(** ** In-place bitwise operators, bit by bit *)



Lemma bytewise_None op a b : (length b < length a)%nat -> bytewise op a b = None.
Proof.
  revert b. induction a as [|x a IH]; intros b Hl; [simpl in Hl; lia|].
  destruct b as [|y b]; [done|]. simpl in *. by rewrite IH by lia.
Qed.




(** X8: [&=], [|=] and [^=] with a source of the same length but fewer
    characters than this array read the source beyond its storage: the
    operation is not defined.  The value-returning [&], [|], [^] behave
    the same. *)
Theorem bitwise_short_source (v w : bit_array_c) :
  m_NumBits v = m_NumBits w -> vsize (m_Array w) < vsize (m_Array v) ->
  and_assign v w = None /\ or_assign v w = None /\ xor_assign v w = None /\
  (uint (m_NumBits v) ->
   op_and v w = None /\ op_or v w = None /\ op_xor v w = None).
Proof.
  intros Hn Hs.
  assert (H : forall op n, n = m_NumBits w ->
            op_assign op {| m_NumBits := n; m_Array := m_Array v |} w = None).
  { intros op n ->. unfold op_assign. simpl. rewrite Z.eqb_refl. simpl.
    rewrite bytewise_None; [done | unfold vsize in Hs; lia]. }
  assert (H' : forall op, op_assign op v w = None).
  { intros op. specialize (H op _ Hn). by destruct v. }
  do 3 (split; [apply H'|]). intros Hu.
  unfold op_and, op_or, op_xor, and_assign, or_assign, xor_assign, fromBuffer.
  rewrite to_uint_small by done. repeat split; by apply H.
Qed.

Lemma bitwise_short_source_witness :
  and_assign (fromBuffer [165; 90; 160] 20) (fromBuffer [255; 15] 20) = None /\
  or_assign (fromBuffer [165; 90; 160] 20) (fromBuffer [255; 15] 20) = None /\
  xor_assign (fromBuffer [165; 90; 160] 20) (fromBuffer [255; 15] 20) = None /\
  (uint (m_NumBits (fromBuffer [165; 90; 160] 20)) ->
   op_and (fromBuffer [165; 90; 160] 20) (fromBuffer [255; 15] 20) = None /\
   op_or (fromBuffer [165; 90; 160] 20) (fromBuffer [255; 15] 20) = None /\
   op_xor (fromBuffer [165; 90; 160] 20) (fromBuffer [255; 15] 20) = None).
Proof. apply bitwise_short_source; reflexivity. Defined.

(** ** Laws of the in-place bitwise operators *)








(** ** Not, SetAll and ClearAll, bit by bit *)

Lemma testbit_mask c m :
  0 <= c < 8 -> 0 <= m < 8 -> Z.testbit (256 - 2 ^ c) m = (c <=? m).
Proof. intros Hc Hm. enum8 c; enum8 m; reflexivity. Qed.

Lemma testbit_255 m : 0 <= m < 8 -> Z.testbit 255 m = true.
Proof. intros Hm. enum8 m; reflexivity. Qed.

Lemma SetAll_shape n l x c :
  uint n -> 0 <= c < 8 -> n = 8 * (vsize l + 1) - c ->
  SetAll {| m_NumBits := n; m_Array := l ++ [x] |}
  = Some {| m_NumBits := n; m_Array := replicate (length l) 255 ++ [256 - 2 ^ c] |}.
Proof.
  intros Hn Hc Hnc. pose proof (vsize_nonneg l) as Hs.
  unfold SetAll, assign_all. simpl m_Array. simpl m_NumBits.
  assert (n mod CHAR_BIT = (8 - c) mod CHAR_BIT) as ->.
  { unfold CHAR_BIT. subst n.
    replace (8 * (vsize l + 1) - c) with (8 - c + vsize l * 8) by lia.
    by rewrite Z.mod_add. }
  rewrite length_app. simpl length. rewrite replicate_add. simpl replicate.
  change UCHAR_MAX with 255.
  destruct (Z.eq_dec c 0) as [-> | Hc0]; [reflexivity|].
  destruct (spare_mask_bits c ltac:(lia)) as [-> ->]. simpl negb. cbv iota.
  assert (BIT_CHAR (to_uint (n - 1)) = vsize (replicate (length l) 255)) as ->.
  { rewrite vsize_replicate. unfold uint in Hn. rewrite to_uint_small by (unfold uint; lia).
    unfold BIT_CHAR, CHAR_BIT. symmetry. fold (vsize l).
    apply (Z.div_unique _ _ _ (n - 1 - 8 * vsize l)); lia. }
  by rewrite wr_middle.
Qed.

Lemma get_snoc_front n l x n' l' x' (f : Z -> Z) i :
  vsize l' = vsize l -> 0 <= i < 8 * vsize l ->
  (forall j y, l !! j = Some y -> l' !! j = Some (f y)) ->
  exists y, get {| m_NumBits := n; m_Array := l ++ [x] |} i
            = Some (Z.testbit y (7 - i mod 8)) /\
            get {| m_NumBits := n'; m_Array := l' ++ [x'] |} i
            = Some (Z.testbit (f y) (7 - i mod 8)).
Proof.
  intros Hs Hi Hf.
  pose proof (Z.div_mod i 8 ltac:(lia)). pose proof (Z.mod_pos_bound i 8 ltac:(lia)).
  rewrite !get_rd. simpl m_Array. rewrite !rd_app_l by lia.
  destruct (rd_in l (i / 8) ltac:(lia)) as (y & Hy & Hly).
  destruct (rd_in l' (i / 8) ltac:(lia)) as (y' & Hy' & Hly').
  rewrite (Hf _ _ Hly) in Hly'. injection Hly' as <-.
  exists y. by rewrite Hy, Hy'.
Qed.

Lemma get_snoc_last n l x i :
  8 * vsize l <= i < 8 * (vsize l + 1) ->
  get {| m_NumBits := n; m_Array := l ++ [x] |} i = Some (Z.testbit x (7 - i mod 8)).
Proof.
  intros Hi. pose proof (vsize_nonneg l).
  rewrite get_rd. simpl m_Array.
  assert (i / 8 = vsize l) as -> by (symmetry; apply (Z.div_unique _ _ _ (i - 8 * vsize l)); lia).
  by rewrite rd_middle.
Qed.

(** X10: [Not], [SetAll] and [ClearAll] on an array under Invariant A,
    whatever its spare bits hold.  All three return; at every index below
    the length [operator[]] returns the negation of what it returned
    before after [Not], true after [SetAll] and false after [ClearAll];
    at every index from the length up to the end of the storage it
    returns false after each of the three. *)
Theorem not_setall_clearall_per_bit (v : bit_array_c) :
  well_typed v -> InvariantA v ->
  exists vn vs,
    Not v = Some vn /\ SetAll v = Some vs /\
    (forall i, 0 <= i < m_NumBits v ->
       exists b, get v i = Some b /\ get vn i = Some (negb b) /\
                 get vs i = Some true /\ get (ClearAll v) i = Some false) /\
    (forall i, m_NumBits v <= i < 8 * vsize (m_Array v) ->
       get vn i = Some false /\ get vs i = Some false /\
       get (ClearAll v) i = Some false).
Proof.
  intros Ht HA. pose proof Ht as [Hu Ha].
  destruct (Z.lt_ge_cases (m_NumBits v) 1) as [H0 | H1].
  { destruct (invA_empty v Hu HA H0) as [Hn He]. destruct v as [n a]. simpl in *. subst.
    exists (mk_bit_array 0 []), (mk_bit_array 0 []).
    repeat split; try done; unfold vsize in *; simpl in *; lia. }
  destruct (invA_shape v Ht HA H1) as (l & x & c & El & Hl & Hx & Hc & Hn & _ & _).
  destruct v as [n a]. simpl in *. subst a.
  rewrite (Not_shape n l x c Hu Hc Hn), (SetAll_shape n l x c Hu Hc Hn).
  do 2 eexists. do 2 (split; [reflexivity|]).
  unfold ClearAll, assign_all, with_array. simpl m_Array. simpl m_NumBits.
  rewrite length_app. simpl length. rewrite replicate_add. simpl replicate.
  pose proof (vsize_nonneg l) as Hs. rewrite vsize_app. change (vsize [x]) with 1.
  set (xn := if c =? 0 then to_uchar (Z.lnot x)
             else to_uchar (Z.land (to_uchar (Z.lnot x)) (256 - 2 ^ c))).
  assert (Hxn : forall m, 0 <= m < 8 ->
                Z.testbit xn m = negb (Z.testbit x m) && (c <=? m)).
  { intros m Hm. unfold xn. destruct (Z.eqb_spec c 0) as [-> | Hc0].
    - rewrite testbit_to_uchar, Z.lnot_spec by lia.
      replace (0 <=? m) with true by (symmetry; apply Z.leb_le; lia).
      by rewrite andb_true_r.
    - rewrite testbit_to_uchar, Z.land_spec, testbit_to_uchar, Z.lnot_spec by lia.
      by rewrite testbit_mask by lia. }
  split.
  - intros i Hi. pose proof (Z.mod_pos_bound i 8 ltac:(lia)).
    destruct (Z.lt_ge_cases i (8 * vsize l)) as [Hf | Hlast].
    + destruct (get_snoc_front n l x n (map (fun y => to_uchar (Z.lnot y)) l) xn
                  (fun y => to_uchar (Z.lnot y)) i) as (y & -> & ->);
        [apply vsize_map | lia | |].
      { intros j y0 Hj. by rewrite list_lookup_fmap, Hj. }
      destruct (get_snoc_front n l x n (replicate (length l) 255) (256 - 2 ^ c)
                  (fun _ => 255) i) as (y1 & _ & ->);
        [apply vsize_replicate | lia | |].
      { intros j y0 Hj. apply lookup_replicate_2. by eapply lookup_lt_Some. }
      destruct (get_snoc_front n l x n (replicate (length l) 0) 0
                  (fun _ => 0) i) as (y2 & _ & ->);
        [apply vsize_replicate | lia | |].
      { intros j y0 Hj. apply lookup_replicate_2. by eapply lookup_lt_Some. }
      eexists. split; [done|].
      rewrite testbit_to_uchar, Z.lnot_spec, testbit_255, Z.bits_0 by lia. done.
    + pose proof (Z.div_mod i 8 ltac:(lia)).
      assert (i / 8 = vsize l) by (symmetry; apply (Z.div_unique _ _ _ (i - 8 * vsize l)); lia).
      rewrite !get_snoc_last by (rewrite ?vsize_map, ?vsize_replicate; unfold vsize in *; lia).
      eexists. split; [done|].
      rewrite Hxn, testbit_mask, Z.bits_0 by lia.
      replace (c <=? 7 - i mod 8) with true by (symmetry; apply Z.leb_le; lia).
      by rewrite andb_true_r.
  - intros i Hi. pose proof (Z.mod_pos_bound i 8 ltac:(lia)).
    pose proof (Z.div_mod i 8 ltac:(lia)).
    assert (i / 8 = vsize l) by (symmetry; apply (Z.div_unique _ _ _ (i - 8 * vsize l)); lia).
    rewrite !get_snoc_last by (rewrite ?vsize_map, ?vsize_replicate; unfold vsize in *; lia).
    rewrite Hxn, testbit_mask, Z.bits_0 by lia.
    replace (c <=? 7 - i mod 8) with false by (symmetry; apply Z.leb_gt; lia).
    by rewrite andb_false_r.
Qed.

Lemma not_setall_clearall_per_bit_witness :
  exists vn vs,
    Not (fromBuffer [165; 90; 175] 20) = Some vn /\
    SetAll (fromBuffer [165; 90; 175] 20) = Some vs /\
    (forall i, 0 <= i < m_NumBits (fromBuffer [165; 90; 175] 20) ->
       exists b, get (fromBuffer [165; 90; 175] 20) i = Some b /\
                 get vn i = Some (negb b) /\
                 get vs i = Some true /\
                 get (ClearAll (fromBuffer [165; 90; 175] 20)) i = Some false) /\
    (forall i, m_NumBits (fromBuffer [165; 90; 175] 20) <= i
               < 8 * vsize (m_Array (fromBuffer [165; 90; 175] 20)) ->
       get vn i = Some false /\ get vs i = Some false /\
       get (ClearAll (fromBuffer [165; 90; 175] 20)) i = Some false).
Proof.
  apply not_setall_clearall_per_bit.
  - split; [vm_compute; split; [discriminate | reflexivity]|].
    repeat constructor; vm_compute; discriminate.
  - reflexivity.
Defined.

(** ** Increment and decrement: extremes and sequences *)

Lemma be_value_replicate_max (k : nat) : be_value (replicate k 255) = 256 ^ Z.of_nat k - 1.
Proof.
  induction k as [|k IH]; [done|].
  change (replicate (S k) 255) with (255 :: replicate k 255).
  rewrite be_value_cons, IH, vsize_replicate.
  rewrite Nat2Z.inj_succ, Z.pow_succ_r by lia. lia.
Qed.

Lemma be_value_replicate_zero (k : nat) : be_value (replicate k 0) = 0.
Proof.
  induction k as [|k IH]; [done|].
  change (replicate (S k) 0) with (0 :: replicate k 0).
  rewrite be_value_cons, IH. lia.
Qed.

Lemma packed_bound v :
  well_typed v -> m_NumBits v <= 8 * vsize (m_Array v) ->
  0 <= packed_value v < 2 ^ m_NumBits v.
Proof. intros Ht Hs. rewrite <- value_packed by done. by apply value_bound. Qed.

Lemma well_formed_snoc n l x c :
  uint n -> 0 <= c < 8 -> n = 8 * (vsize l + 1) - c ->
  Forall uchar l -> uchar x -> x mod 2 ^ c = 0 ->
  well_formed {| m_NumBits := n; m_Array := l ++ [x] |}.
Proof.
  intros Hu Hc Hn Hl Hx Hm. pose proof (vsize_nonneg l).
  apply well_formed_storage. simpl.
  assert (vsize l + 1 = ceil8 n) as <- by (apply ceil8_unique; lia).
  split; [done|]. replace (8 * (vsize l + 1) - n) with c by lia.
  split; [by rewrite vsize_app|]. split.
  - apply Forall_app. split; [done|]. by apply Forall_singleton.
  - by rewrite final_unit_snoc.
Qed.

(** X11: on an array under Invariant A of length at least 1, whatever its
    spare bits hold: after [SetAll] the value is [2 ^ length - 1] and
    [operator++] then gives the array [ClearAll] gives; after [ClearAll]
    the value is 0 and [operator--] then gives the array [SetAll] gives. *)
Theorem setall_increment_wraps (v : bit_array_c) :
  well_typed v -> InvariantA v -> 1 <= m_NumBits v ->
  exists vs, SetAll v = Some vs /\
             value vs = 2 ^ m_NumBits v - 1 /\ value (ClearAll v) = 0 /\
             op_inc vs = Some (ClearAll v) /\ op_dec (ClearAll v) = Some vs.
Proof.
  intros Ht HA H1. pose proof Ht as [Hu Ha].
  destruct (invA_shape v Ht HA H1) as (l & x & c & El & Hl & Hx & Hc & Hn & _ & _).
  destruct v as [n a]. simpl in *. subst a.
  rewrite (SetAll_shape n l x c Hu Hc Hn). eexists. split; [reflexivity|].
  unfold ClearAll, assign_all, with_array. simpl m_Array. simpl m_NumBits.
  rewrite length_app. simpl length. rewrite replicate_add. simpl replicate.
  pose proof (vsize_nonneg l) as Hs.
  destruct (mask_spare c Hc) as [Hmu Hmm].
  set (vs := {| m_NumBits := n; m_Array := replicate (length l) 255 ++ [256 - 2 ^ c] |}).
  set (vc := {| m_NumBits := n; m_Array := replicate (length l) 0 ++ [0] |}).
  assert (Wfs : well_formed vs).
  { apply (well_formed_snoc n _ _ c); rewrite ?vsize_replicate; try done.
    apply Forall_replicate. unfold uchar. lia. }
  assert (Wfc : well_formed vc).
  { apply (well_formed_snoc n _ _ c); rewrite ?vsize_replicate; try done.
    apply Forall_replicate. unfold uchar. lia. }
  destruct (pow_split c Hc) as (Hp1 & Hp2 & Hp3).
  assert (Hpn : 2 ^ n * 2 ^ c = 256 ^ (vsize l + 1)).
  { rewrite <- Z.pow_add_r by lia. replace (n + c) with (8 * (vsize l + 1)) by lia.
    rewrite Z.pow_mul_r by lia. done. }
  assert (Pvs : packed_value vs = 2 ^ n - 1).
  { unfold packed_value, vs. simpl. rewrite be_value_snoc, be_value_replicate_max.
    rewrite vsize_app, vsize_replicate. change (vsize [256 - 2 ^ c]) with 1.
    fold (vsize l). replace (8 * (vsize l + 1) - n) with c by lia.
    rewrite Z.pow_add_r in Hpn by lia. change (256 ^ 1) with 256 in Hpn.
    replace (256 * (256 ^ vsize l - 1) + (256 - 2 ^ c)) with ((2 ^ n - 1) * 2 ^ c) by lia.
    apply Z.div_mul. lia. }
  assert (Pvc : packed_value vc = 0).
  { unfold packed_value, vc. simpl. rewrite be_value_snoc, be_value_replicate_zero. done. }
  assert (Hszs : m_NumBits vs <= 8 * vsize (m_Array vs)).
  { unfold vs. simpl. rewrite vsize_app, vsize_replicate. fold (vsize l).
    change (vsize [256 - 2 ^ c]) with 1. lia. }
  assert (Hszc : m_NumBits vc <= 8 * vsize (m_Array vc)).
  { unfold vc. simpl. rewrite vsize_app, vsize_replicate. fold (vsize l).
    change (vsize [0]) with 1. lia. }
  pose proof Wfs as (Hts & HAs & HBs). pose proof Wfc as (Htc & HAc & HBc).
  assert (Hpow : 0 < 2 ^ n) by (apply Z.pow_pos_nonneg; lia).
  split; [by rewrite value_packed|]. split; [by rewrite value_packed|].
  destruct (op_inc_dec_packed vs Hts HAs HBs H1) as ((vi & Ei & Ni & Ti & Ai & Bi & Pi) & _).
  destruct (op_inc_dec_packed vc Htc HAc HBc H1) as (_ & (vd & Ed & Nd & Td & Ad & Bd & Pd)).
  rewrite Ei, Ed. split; f_equal.
  - assert (packed_value vi = packed_value vc).
    { rewrite Pi, Pvs, Pvc. simpl m_NumBits.
      replace (2 ^ n - 1 + 1) with (2 ^ n) by lia. apply Z.mod_same. lia. }
    apply packed_inj; try done; simpl in *; lia.
  - assert (packed_value vd = packed_value vs).
    { rewrite Pd, Pvs, Pvc. simpl m_NumBits.
      replace (0 - 1) with (2 ^ n - 1 + (-1) * 2 ^ n) by lia.
      rewrite Z.mod_add by lia. apply Z.mod_small. lia. }
    apply packed_inj; try done; simpl in *; lia.
Qed.

Lemma setall_increment_wraps_witness :
  exists vs, SetAll (fromBuffer [165; 90; 175] 20) = Some vs /\
             value vs = 2 ^ m_NumBits (fromBuffer [165; 90; 175] 20) - 1 /\
             value (ClearAll (fromBuffer [165; 90; 175] 20)) = 0 /\
             op_inc vs = Some (ClearAll (fromBuffer [165; 90; 175] 20)) /\
             op_dec (ClearAll (fromBuffer [165; 90; 175] 20)) = Some vs.
Proof.
  apply setall_increment_wraps.
  - split; [vm_compute; split; [discriminate | reflexivity]|].
    repeat constructor; vm_compute; discriminate.
  - reflexivity.
  - vm_compute. discriminate.
Defined.

Lemma repeated_inc_dec (k : nat) v :
  well_formed v -> 1 <= m_NumBits v ->
  (exists vi, repeated k op_inc v = Some vi /\ m_NumBits vi = m_NumBits v /\
              well_formed vi /\
              packed_value vi = (packed_value v + Z.of_nat k) mod 2 ^ m_NumBits v) /\
  (exists vd, repeated k op_dec v = Some vd /\ m_NumBits vd = m_NumBits v /\
              well_formed vd /\
              packed_value vd = (packed_value v - Z.of_nat k) mod 2 ^ m_NumBits v).
Proof.
  revert v. induction k as [|k IH]; intros v Hwf H1.
  - pose proof Hwf as (Ht & HA & HB).
    assert (Hs : m_NumBits v <= 8 * vsize (m_Array v)).
    { unfold InvariantA in HA. rewrite HA. pose proof (ceil8_spec (m_NumBits v)). lia. }
    pose proof (packed_bound v Ht Hs).
    split; exists v; simpl; rewrite ?Z.add_0_r, ?Z.sub_0_r, Z.mod_small by lia; done.
  - pose proof Hwf as (Ht & HA & HB).
    assert (Hpow : 0 < 2 ^ m_NumBits v) by (apply Z.pow_pos_nonneg; lia).
    destruct (op_inc_dec_packed v Ht HA HB H1)
      as ((vi & Ei & Ni & Ti & Ai & Bi & Pi) & (vd & Ed & Nd & Td & Ad & Bd & Pd)).
    split.
    + destruct (IH vi) as ((vi' & E' & N' & W' & P') & _); [done | lia |].
      exists vi'. simpl. rewrite Ei. simpl. rewrite E'. split; [done|].
      split; [lia|]. split; [done|]. rewrite P', Pi, Ni.
      rewrite Zplus_mod_idemp_l. f_equal. lia.
    + destruct (IH vd) as (_ & (vd' & E' & N' & W' & P')); [done | lia |].
      exists vd'. simpl. rewrite Ed. simpl. rewrite E'. split; [done|].
      split; [lia|]. split; [done|]. rewrite P', Pd, Nd.
      rewrite Zminus_mod_idemp_l. f_equal. lia.
Qed.

(** X12: on a well-formed array of length at least 1, [k] calls of
    [operator++] give an array of value [(value + k) mod 2 ^ length], [k]
    calls of [operator--] one of value [(value - k) mod 2 ^ length], and
    [k] decrements after [k] increments, as well as [k] increments after
    [k] decrements, give the array back. *)
Theorem repeated_inc_dec_value (v : bit_array_c) (k : nat) :
  well_formed v -> 1 <= m_NumBits v ->
  exists vi vd,
    repeated k op_inc v = Some vi /\
    value vi = (value v + Z.of_nat k) mod 2 ^ m_NumBits v /\
    repeated k op_dec v = Some vd /\
    value vd = (value v - Z.of_nat k) mod 2 ^ m_NumBits v /\
    repeated k op_dec vi = Some v /\ repeated k op_inc vd = Some v.
Proof.
  intros Hwf H1.
  assert (Hsz : forall u, well_formed u -> m_NumBits u <= 8 * vsize (m_Array u)).
  { intros u (_ & HA & _). unfold InvariantA in HA. rewrite HA.
    pose proof (ceil8_spec (m_NumBits u)). lia. }
  assert (Hval : forall u, well_formed u -> value u = packed_value u).
  { intros u Hu. apply value_packed; [apply Hu | by apply Hsz]. }
  pose proof Hwf as (Ht & HA & HB).
  pose proof (packed_bound v Ht (Hsz v Hwf)) as Hb.
  assert (Hpow : 0 < 2 ^ m_NumBits v) by (apply Z.pow_pos_nonneg; lia).
  destruct (repeated_inc_dec k v Hwf H1)
    as ((vi & Ei & Ni & Wi & Pi) & (vd & Ed & Nd & Wd & Pd)).
  destruct (repeated_inc_dec k vi Wi ltac:(lia)) as (_ & (vid & Eid & Nid & Wid & Pid)).
  destruct (repeated_inc_dec k vd Wd ltac:(lia)) as ((vdi & Edi & Ndi & Wdi & Pdi) & _).
  exists vi, vd. rewrite !Hval by done.
  split; [done|]. split; [done|]. split; [done|]. split; [done|].
  rewrite Eid, Edi. split; f_equal.
  - pose proof Wid as (? & ? & ?).
    assert (packed_value vid = packed_value v).
    { rewrite Pid, Pi, Ni. rewrite Zminus_mod_idemp_l.
      replace (packed_value v + Z.of_nat k - Z.of_nat k) with (packed_value v) by lia.
      apply Z.mod_small. lia. }
    apply packed_inj; try done; lia.
  - pose proof Wdi as (? & ? & ?).
    assert (packed_value vdi = packed_value v).
    { rewrite Pdi, Pd, Nd. rewrite Zplus_mod_idemp_l.
      replace (packed_value v - Z.of_nat k + Z.of_nat k) with (packed_value v) by lia.
      apply Z.mod_small. lia. }
    apply packed_inj; try done; lia.
Qed.

Lemma repeated_inc_dec_value_witness :
  exists vi vd,
    repeated 300 op_inc (fromBuffer [255; 255; 240] 20) = Some vi /\
    value vi = (value (fromBuffer [255; 255; 240] 20) + Z.of_nat 300)
               mod 2 ^ m_NumBits (fromBuffer [255; 255; 240] 20) /\
    repeated 300 op_dec (fromBuffer [255; 255; 240] 20) = Some vd /\
    value vd = (value (fromBuffer [255; 255; 240] 20) - Z.of_nat 300)
               mod 2 ^ m_NumBits (fromBuffer [255; 255; 240] 20) /\
    repeated 300 op_dec vi = Some (fromBuffer [255; 255; 240] 20) /\
    repeated 300 op_inc vd = Some (fromBuffer [255; 255; 240] 20).
Proof.
  apply repeated_inc_dec_value; [closed_well_formed | vm_compute; discriminate].
Defined.

(** X13: an array of length 0 that has storage, as the constructor builds
    for [numBits = 0]: [operator++] and [operator--] start at the character
    [BIT_CHAR(0 - 1)] of the unsigned subtraction, which is beyond the
    storage, so neither is defined; [SetAll], [Not] and both shifts
    return. *)
Theorem zero_length_inc_dec (v : bit_array_c) :
  m_NumBits v = 0 -> 1 <= vsize (m_Array v) <= 536870911 ->
  op_inc v = None /\ op_dec v = None /\
  SetAll v = Some (with_array v (assign_all (m_Array v) UCHAR_MAX)) /\
  Not v = Some (with_array v (map (fun x => to_uchar (Z.lnot x)) (m_Array v))) /\
  forall k, 0 <= k -> op_shl v k = Some (ClearAll v) /\ op_shr v k = Some (ClearAll v).
Proof.
  intros Hn Hs. unfold op_inc, op_dec, SetAll, Not, op_shl, op_shr. rewrite Hn.
  replace (vsize (m_Array v) =? 0) with false by (symmetry; apply Z.eqb_neq; lia).
  change (BIT_CHAR (to_uint (0 - 1))) with 536870911.
  change (0 mod CHAR_BIT) with 0. simpl negb. cbv iota.
  assert (Hc : exists c, Z.to_nat (536870911 + 1) = S c).
  { exists (Z.to_nat 536870911). rewrite <- Z2Nat.inj_succ by lia. done. }
  destruct Hc as (c & ->).
  assert (Hr : rd (m_Array v) 536870911 = None).
  { unfold rd. replace (536870911 <? vsize (m_Array v)) with false
      by (symmetry; apply Z.ltb_ge; lia). by rewrite andb_false_r. }
  cbn [inc_loop dec_loop]. rewrite Hr. simpl.
  do 4 (split; [done|]). intros k Hk.
  pose proof (Z.mod_pos_bound k CHAR_BIT ltac:(unfold CHAR_BIT; lia)).
  replace (0 <=? k mod CHAR_BIT) with true by (symmetry; apply Z.leb_le; lia). done.
Qed.

Lemma zero_length_inc_dec_witness :
  op_inc (new 0) = None /\ op_dec (new 0) = None /\
  SetAll (new 0) = Some (with_array (new 0) (assign_all (m_Array (new 0)) UCHAR_MAX)) /\
  Not (new 0)
  = Some (with_array (new 0) (map (fun x => to_uchar (Z.lnot x)) (m_Array (new 0)))) /\
  forall k, 0 <= k ->
    op_shl (new 0) k = Some (ClearAll (new 0)) /\
    op_shr (new 0) k = Some (ClearAll (new 0)).
Proof. apply zero_length_inc_dec; [reflexivity | vm_compute; split; discriminate]. Defined.

(** ** Shifts as arithmetic on the storage *)

Lemma rd_lookup a (i : nat) : rd a (Z.of_nat i) = a !! i.
Proof.
  unfold rd, vsize. destruct (Z.ltb_spec (Z.of_nat i) (Z.of_nat (length a))).
  - replace (0 <=? Z.of_nat i) with true by (symmetry; apply Z.leb_le; lia).
    simpl. by rewrite Nat2Z.id.
  - rewrite andb_false_r. symmetry. apply lookup_ge_None. lia.
Qed.

Lemma rd_ext a b :
  vsize a = vsize b -> (forall i, 0 <= i < vsize a -> rd a i = rd b i) -> a = b.
Proof.
  intros Hs H. apply list_eq. intros i. rewrite <- !rd_lookup.
  destruct (Z.lt_ge_cases (Z.of_nat i) (vsize a)); [apply H; lia|].
  rewrite !rd_lookup.
  transitivity (@None Z); [|symmetry]; apply lookup_ge_None; unfold vsize in *; lia.
Qed.

Lemma rd_uchar a i x : Forall uchar a -> rd a i = Some x -> uchar x.
Proof.
  intros Ha H. apply rd_Some in H as [_ H]. rewrite Forall_lookup in Ha. by eapply Ha.
Qed.

Lemma rd_None a i : vsize a <= i \/ i < 0 -> rd a i = None.
Proof.
  intros H. unfold rd.
  destruct (Z.leb_spec 0 i), (Z.ltb_spec i (vsize a)); try done; lia.
Qed.

(** *** One bit to the left *)

Lemma vsize_shl1 a : vsize (shl1 a) = vsize a.
Proof. unfold vsize. f_equal. induction a as [|x a IH]; [done|]. simpl. by rewrite IH. Qed.

Lemma shl1_uchar a : Forall uchar (shl1 a).
Proof. induction a as [|x a IH]; constructor; [apply to_uchar_uchar | done]. Qed.

Lemma rd_shl1 a j x :
  rd a j = Some x ->
  rd (shl1 a) j = Some (to_uchar (2 * x + default 0 (rd a (j + 1)) / 128)).
Proof.
  revert j. induction a as [|h t IH]; intros j H.
  - by rewrite rd_None in H by (unfold vsize; simpl; lia).
  - pose proof (rd_Some _ _ _ H) as [Hj _].
    destruct (Z.eq_dec j 0) as [-> | Hne].
    + rewrite rd_head in H. injection H as ->. simpl shl1. rewrite rd_head.
      rewrite (rd_tail _ _ (0 + 1)) by lia. simpl. destruct t as [|y t]; [done|].
      by rewrite rd_head.
    + rewrite rd_tail in H by lia. simpl shl1. rewrite rd_tail by lia.
      rewrite (IH _ H). rewrite (rd_tail _ _ (j + 1)) by lia.
      by replace (j + 1 - 1) with (j - 1 + 1) by lia.
Qed.

Lemma msb_char y :
  uchar y ->
  Bool.eqb (negb (Z.land y MS_BIT =? 0)) (y / 128 =? 1)
  && ((y / 128 =? 0) || (y / 128 =? 1)) = true.
Proof. revert y. apply forall_uchar. vm_compute. reflexivity. Qed.

Lemma lsb_char y :
  uchar y ->
  Bool.eqb (negb (Z.land y 1 =? 0)) (y mod 2 =? 1)
  && ((y mod 2 =? 0) || (y mod 2 =? 1)) = true.
Proof. revert y. apply forall_uchar. vm_compute. reflexivity. Qed.

Lemma shl_char_parts x :
  uchar x ->
  (to_uchar (Z.lor (to_uchar (Z.shiftl x 1)) 1) =? to_uchar (2 * x + 1))
  && (to_uchar (Z.shiftl x 1) =? to_uchar (2 * x + 0)) = true.
Proof. revert x. apply forall_uchar. vm_compute. reflexivity. Qed.

Lemma shr_char_parts x :
  uchar x ->
  (to_uchar (Z.lor (to_uchar (Z.shiftr x 1)) MS_BIT) =? x / 2 + 128 * 1)
  && (to_uchar (Z.shiftr x 1) =? x / 2 + 128 * 0) = true.
Proof. revert x. apply forall_uchar. vm_compute. reflexivity. Qed.

Lemma shl_char x y :
  uchar x -> uchar y ->
  (if negb (Z.land y MS_BIT =? 0)
   then to_uchar (Z.lor (to_uchar (Z.shiftl x 1)) 1)
   else to_uchar (Z.shiftl x 1)) = to_uchar (2 * x + y / 128).
Proof.
  intros Hx Hy.
  pose proof (msb_char y Hy) as [Hm Hc]%andb_true_iff.
  pose proof (shl_char_parts x Hx) as [H1%Z.eqb_eq H0%Z.eqb_eq]%andb_true_iff.
  apply Bool.eqb_prop in Hm. rewrite Hm.
  apply orb_true_iff in Hc as [Hc%Z.eqb_eq | Hc%Z.eqb_eq]; rewrite Hc; simpl; done.
Qed.

Lemma shr_char x y :
  uchar x -> uchar y ->
  (if negb (Z.land y 1 =? 0)
   then to_uchar (Z.lor (to_uchar (Z.shiftr x 1)) MS_BIT)
   else to_uchar (Z.shiftr x 1)) = x / 2 + 128 * (y mod 2).
Proof.
  intros Hx Hy.
  pose proof (lsb_char y Hy) as [Hm Hc]%andb_true_iff.
  pose proof (shr_char_parts x Hx) as [H1%Z.eqb_eq H0%Z.eqb_eq]%andb_true_iff.
  apply Bool.eqb_prop in Hm. rewrite Hm.
  apply orb_true_iff in Hc as [Hc%Z.eqb_eq | Hc%Z.eqb_eq]; rewrite Hc; simpl; done.
Qed.

(** One call of the one-bit shift loop of [operator<<=] computes [shl1]. *)
Lemma shl_bit_shl1 n a :
  Forall uchar a -> 1 <= vsize a -> BIT_CHAR (to_uint (n - 1)) = vsize a - 1 ->
  shl_bit n a = Some (shl1 a).
Proof.
  intros Ha Hs Htop. unfold shl_bit. rewrite Htop.
  set (s := vsize a) in *.
  destruct (for_up_ix
    (fun j b => vsize b = s /\
                forall i, 0 <= i < s -> rd b i = if i <? j then rd (shl1 a) i else rd a i)
    (fun j a => x ← rd a j; a ← wr a j (to_uchar (Z.shiftl x 1));
                y ← rd a (j + 1);
                if negb (Z.land y MS_BIT =? 0)
                then x ← rd a j; wr a j (to_uchar (Z.lor x 1)) else Some a)
    (Z.to_nat (s - 1)) 0 a) as (a1 & -> & Hs1 & Hrd1).
  { split; [done|]. intros i Hi. by replace (i <? 0) with false by (symmetry; apply Z.ltb_ge; lia). }
  { intros j b Hj (Hsb & Hb).
    destruct (rd_in a j ltac:(lia)) as (x & Hx & _).
    destruct (rd_in a (j + 1) ltac:(lia)) as (y & Hy & _).
    pose proof (rd_uchar _ _ _ Ha Hx) as Hxu. pose proof (rd_uchar _ _ _ Ha Hy) as Hyu.
    assert (Hbj : rd b j = Some x).
    { rewrite Hb by lia. by replace (j <? j) with false by (symmetry; apply Z.ltb_ge; lia). }
    rewrite Hbj. simpl.
    assert (Hw1 : wr b j (to_uchar (Z.shiftl x 1))
                  = Some (<[Z.to_nat j := to_uchar (Z.shiftl x 1)]> b)) by (apply wr_in; lia).
    rewrite Hw1. simpl.
    rewrite (rd_wr_other _ _ _ _ (j + 1) Hw1) by lia.
    rewrite Hb by lia. replace (j + 1 <? j) with false by (symmetry; apply Z.ltb_ge; lia).
    rewrite Hy. simpl.
    rewrite (rd_wr_same _ _ _ _ Hw1).
    assert (Hfin : rd (shl1 a) j = Some (to_uchar (2 * x + y / 128))).
    { rewrite (rd_shl1 _ _ _ Hx), Hy. done. }
    pose proof (shl_char x y Hxu Hyu) as Hch.
    destruct (negb (Z.land y MS_BIT =? 0)).
    - simpl.
      assert (Hw2 : wr (<[Z.to_nat j := to_uchar (Z.shiftl x 1)]> b) j
                       (to_uchar (Z.lor (to_uchar (Z.shiftl x 1)) 1))
                    = Some (<[Z.to_nat j := to_uchar (Z.lor (to_uchar (Z.shiftl x 1)) 1)]>
                              (<[Z.to_nat j := to_uchar (Z.shiftl x 1)]> b)))
        by (apply wr_in; rewrite vsize_insert; lia).
      rewrite Hw2. eexists. split; [done|]. split; [by rewrite !vsize_insert|].
      intros i Hi. destruct (Z.eq_dec i j) as [-> | Hne].
      + rewrite (rd_wr_same _ _ _ _ Hw2).
        replace (j <? j + 1) with true by (symmetry; apply Z.ltb_lt; lia).
        by rewrite Hfin, Hch.
      + rewrite (rd_wr_other _ _ _ _ i Hw2), (rd_wr_other _ _ _ _ i Hw1) by lia.
        rewrite Hb by lia.
        destruct (Z.ltb_spec i j), (Z.ltb_spec i (j + 1)); try done; lia.
    - eexists. split; [done|]. split; [by rewrite !vsize_insert|].
      intros i Hi. destruct (Z.eq_dec i j) as [-> | Hne].
      + rewrite (rd_wr_same _ _ _ _ Hw1).
        replace (j <? j + 1) with true by (symmetry; apply Z.ltb_lt; lia).
        by rewrite Hfin, Hch.
      + rewrite (rd_wr_other _ _ _ _ i Hw1) by lia.
        rewrite Hb by lia.
        destruct (Z.ltb_spec i j), (Z.ltb_spec i (j + 1)); try done; lia. }
  simpl. rewrite Z2Nat.id in Hrd1 by lia.
  destruct (rd_in a (s - 1) ltac:(lia)) as (x & Hx & _).
  pose proof (rd_uchar _ _ _ Ha Hx) as Hxu.
  rewrite Hrd1 by lia.
  replace (s - 1 <? 0 + (s - 1)) with false by (symmetry; apply Z.ltb_ge; lia).
  rewrite Hx. simpl.
  assert (Hw : wr a1 (s - 1) (to_uchar (Z.shiftl x 1))
               = Some (<[Z.to_nat (s - 1) := to_uchar (Z.shiftl x 1)]> a1)) by (apply wr_in; lia).
  rewrite Hw. f_equal. apply rd_ext; [by rewrite vsize_insert, vsize_shl1|].
  rewrite vsize_insert. intros i Hi. destruct (Z.eq_dec i (s - 1)) as [-> | Hne].
  - rewrite (rd_wr_same _ _ _ _ Hw), (rd_shl1 _ _ _ Hx).
    rewrite (rd_None a (s - 1 + 1)) by (fold s; lia). simpl.
    pose proof (shl_char_parts x Hxu) as [_ H0%Z.eqb_eq]%andb_true_iff.
    by rewrite H0.
  - rewrite (rd_wr_other _ _ _ _ i Hw) by lia. rewrite Hrd1 by lia.
    by replace (i <? 0 + (s - 1)) with true by (symmetry; apply Z.ltb_lt; lia).
Qed.

Lemma pow256_pos k : 0 <= k -> 0 < 256 ^ k.
Proof. intros. apply Z.pow_pos_nonneg; lia. Qed.

Lemma be_carry r :
  Forall uchar r -> (2 * be_value r) / 256 ^ vsize r = hd 0 r / 128.
Proof.
  intros Hr. destruct r as [|h t]; [done|].
  apply Forall_cons in Hr as [Hh Ht]. simpl hd.
  rewrite be_value_cons. change (h :: t) with ([h] ++ t). rewrite vsize_app.
  change (vsize [h]) with 1. pose proof (vsize_nonneg t).
  rewrite Z.pow_add_r by lia. change (256 ^ 1) with 256.
  pose proof (be_value_bound t Ht) as Hb. pose proof (pow256_pos (vsize t) ltac:(lia)) as HK.
  set (K := 256 ^ vsize t) in *. set (B := be_value t) in *.
  pose proof (Z.div_mod h 128 ltac:(lia)) as Hd.
  pose proof (Z.mod_pos_bound h 128 ltac:(lia)) as Hm.
  set (m := h mod 128) in *. set (q := h / 128) in *. clearbody K B m q.
  assert (m * K <= 127 * K) by (apply Z.mul_le_mono_nonneg_r; lia).
  assert (0 <= m * K) by (apply Z.mul_nonneg_nonneg; lia).
  symmetry. apply (Z.div_unique _ _ _ (2 * (m * K) + 2 * B)); [lia|].
  subst h. ring.
Qed.

Lemma be_value_shl1 a :
  Forall uchar a -> be_value (shl1 a) = (2 * be_value a) mod 256 ^ vsize a.
Proof.
  induction 1 as [|x r Hx Hr IH]; [done|].
  simpl shl1. rewrite !be_value_cons, IH, vsize_shl1.
  rewrite <- (be_carry r Hr).
  change (x :: r) with ([x] ++ r). rewrite vsize_app.
  change (vsize [x]) with 1. pose proof (vsize_nonneg r).
  rewrite Z.pow_add_r by lia. change (256 ^ 1) with 256.
  pose proof (be_value_bound r Hr) as Hb. pose proof (pow256_pos (vsize r) ltac:(lia)) as HK.
  set (K := 256 ^ vsize r) in *. set (B := be_value r) in *.
  pose proof (Z.div_mod (2 * B) K ltac:(lia)) as Hd.
  pose proof (Z.mod_pos_bound (2 * B) K ltac:(lia)) as Hm.
  rewrite (Z.mul_comm 256 K), Z.rem_mul_r by lia.
  replace (2 * (x * K + B)) with ((2 * B) mod K + (2 * x + 2 * B / K) * K) by lia.
  rewrite Z.mod_add, Z.mod_mod by lia.
  rewrite Z.div_add by lia. rewrite (Z.div_small ((2 * B) mod K)) by lia.
  unfold to_uchar. rewrite Z.add_0_l. ring.
Qed.

(** [t] one-bit shifts to the left multiply the storage by [2 ^ t]. *)
Lemma shl_bits_be n (t : nat) i a :
  Forall uchar a -> 1 <= vsize a -> BIT_CHAR (to_uint (n - 1)) = vsize a - 1 ->
  exists a', for_up t i (fun _ => shl_bit n) a = Some a' /\
             Forall uchar a' /\ vsize a' = vsize a /\
             be_value a' = (be_value a * 2 ^ Z.of_nat t) mod 256 ^ vsize a.
Proof.
  revert i a. induction t as [|t IH]; intros i a Ha Hs Htop.
  - exists a. simpl. rewrite Z.mul_1_r.
    pose proof (be_value_bound a Ha). by rewrite Z.mod_small.
  - simpl for_up. rewrite shl_bit_shl1 by done. simpl.
    destruct (IH (i + 1) (shl1 a)) as (a' & -> & Hu & Hsz & Hbe);
      [apply shl1_uchar | by rewrite vsize_shl1 | by rewrite vsize_shl1 |].
    exists a'. split; [done|]. split; [done|]. rewrite vsize_shl1 in *. split; [done|].
    rewrite Hbe, be_value_shl1 by done.
    rewrite Z.mul_mod_idemp_l by (pose proof (pow256_pos (vsize a)); lia).
    f_equal. rewrite Nat2Z.inj_succ, Z.pow_succ_r by lia. lia.
Qed.

(** *** Moving whole characters to the left *)

Lemma shl_move_loop (chars : Z) a :
  0 < chars <= vsize a -> vsize a < 2 ^ 32 ->
  exists b, for_up (Z.to_nat (vsize a - chars)) 0
              (fun i a => x ← rd a (to_uint (i + chars)); wr a i x) a = Some b /\
            vsize b = vsize a /\
            forall i, 0 <= i < vsize a - chars -> rd b i = rd a (i + chars).
Proof.
  intros Hc Hs. set (s := vsize a) in *.
  destruct (for_up_ix
    (fun j b => vsize b = s /\
                forall i, 0 <= i < s -> rd b i = if i <? j then rd a (i + chars) else rd a i)
    (fun i a => x ← rd a (to_uint (i + chars)); wr a i x)
    (Z.to_nat (s - chars)) 0 a) as (b & Hb & Hsb & Hrd).
  { split; [done|]. intros i Hi. by replace (i <? 0) with false by (symmetry; apply Z.ltb_ge; lia). }
  { intros j b Hj (Hsb & Hb). rewrite to_uint_small by (unfold uint; lia).
    rewrite Hb by lia. replace (j + chars <? j) with false by (symmetry; apply Z.ltb_ge; lia).
    destruct (rd_in a (j + chars) ltac:(lia)) as (x & Hx & _). rewrite Hx. simpl.
    assert (Hw : wr b j x = Some (<[Z.to_nat j := x]> b)) by (apply wr_in; lia).
    rewrite Hw. eexists. split; [done|]. split; [by rewrite vsize_insert|].
    intros i Hi. destruct (Z.eq_dec i j) as [-> | Hne].
    - rewrite (rd_wr_same _ _ _ _ Hw).
      by replace (j <? j + 1) with true by (symmetry; apply Z.ltb_lt; lia).
    - rewrite (rd_wr_other _ _ _ _ i Hw) by lia. rewrite Hb by lia.
      destruct (Z.ltb_spec i j), (Z.ltb_spec i (j + 1)); try done; lia. }
  exists b. split; [done|]. split; [done|]. intros i Hi.
  rewrite Hrd by lia. rewrite Z2Nat.id by lia.
  by replace (i <? 0 + (s - chars)) with true by (symmetry; apply Z.ltb_lt; lia).
Qed.

Lemma be_value_drop_zeros (c : nat) a :
  Forall uchar a -> (c <= length a)%nat ->
  be_value (drop c a ++ replicate c 0)
  = (be_value a * 256 ^ Z.of_nat c) mod 256 ^ vsize a.
Proof.
  intros Ha Hc. rewrite be_value_app, be_value_replicate_zero, vsize_replicate, Z.add_0_r.
  rewrite <- (take_drop c a) at 2 3.
  rewrite be_value_app, vsize_app.
  assert (Hst : vsize (take c a) = Z.of_nat c) by (unfold vsize; rewrite length_take; lia).
  assert (Hd : Forall uchar (drop c a)) by (by apply Forall_drop).
  pose proof (be_value_bound _ Hd) as Hb. pose proof (vsize_nonneg (drop c a)).
  rewrite Hst. rewrite (Z.pow_add_r 256) by lia.
  pose proof (pow256_pos (Z.of_nat c) ltac:(lia)). pose proof (pow256_pos (vsize (drop c a)) ltac:(lia)).
  set (K := 256 ^ Z.of_nat c) in *. set (D := 256 ^ vsize (drop c a)) in *.
  replace ((be_value (take c a) * D + be_value (drop c a)) * K)
    with (be_value (drop c a) * K + be_value (take c a) * (K * D)) by lia.
  rewrite Z.mod_add by lia. symmetry. apply Z.mod_small. nia.
Qed.

(** The two character loops of [operator<<=] together. *)
Lemma shl_chars_be (chars : Z) a :
  Forall uchar a -> 0 < chars <= vsize a -> vsize a < 2 ^ 32 ->
  exists a1,
    (a0 ← for_up (Z.to_nat (vsize a - chars)) 0
            (fun i a => x ← rd a (to_uint (i + chars)); wr a i x) a;
     for_down (Z.to_nat chars) chars
       (fun chars a => wr a (to_uint (to_uint (vsize a0) - chars)) 0) a0) = Some a1 /\
    Forall uchar a1 /\ vsize a1 = vsize a /\
    be_value a1 = (be_value a * 256 ^ chars) mod 256 ^ vsize a.
Proof.
  intros Ha Hc Hs.
  destruct (shl_move_loop chars a Hc Hs) as (b & -> & Hsb & Hrd). simpl.
  rewrite Hsb, (to_uint_small (vsize a)) by (unfold uint; pose proof (vsize_nonneg a); lia).
  pose proof (shl_zero_loop (vsize a) (Z.to_nat chars) b Hsb ltac:(lia) Hs) as Hz.
  rewrite Z2Nat.id in Hz by lia. rewrite Hz.
  assert (Hl : length b = length a) by (unfold vsize in Hsb; lia).
  assert (E : take (length b - Z.to_nat chars) b = drop (Z.to_nat chars) a).
  { apply list_eq. intros i. rewrite lookup_take, lookup_drop.
    destruct (decide (i < length b - Z.to_nat chars)%nat) as [Hi | Hi].
    - rewrite <- !rd_lookup. rewrite Hrd by (unfold vsize; lia). f_equal. lia.
    - symmetry. apply lookup_ge_None. lia. }
  rewrite E. eexists. split; [done|].
  assert (Hcl : (Z.to_nat chars <= length a)%nat) by (unfold vsize in Hc; lia).
  split; [|split].
  - apply Forall_app. split; [by apply Forall_drop|].
    apply Forall_replicate. unfold uchar. lia.
  - rewrite vsize_app, vsize_replicate. unfold vsize. rewrite length_drop. lia.
  - rewrite be_value_drop_zeros by done. by rewrite Z2Nat.id by lia.
Qed.

Lemma pow256 k : 0 <= k -> 256 ^ k = 2 ^ (8 * k).
Proof. intros. rewrite Z.pow_mul_r by lia. done. Qed.

(** [operator<<=] on the storage: inside the storage it multiplies the
    big-endian number by [2 ^ shifts], modulo the size of the storage. *)
Lemma op_shl_be v k :
  well_typed v -> InvariantA v -> uint k ->
  k mod 8 < m_NumBits v -> k / 8 <= vsize (m_Array v) ->
  exists v', op_shl v k = Some v' /\ m_NumBits v' = m_NumBits v /\
             Forall uchar (m_Array v') /\ vsize (m_Array v') = vsize (m_Array v) /\
             be_value (m_Array v')
             = (be_value (m_Array v) * 2 ^ k) mod 2 ^ (8 * vsize (m_Array v)).
Proof.
  intros [Hn Ha] HA Hk Hg Hch. unfold op_shl, CHAR_BIT.
  replace (m_NumBits v <=? k mod 8) with false by (symmetry; apply Z.leb_gt; lia).
  pose proof (Z.mod_pos_bound k 8 ltac:(lia)) as Hm.
  pose proof (Z.div_mod k 8 ltac:(lia)) as Hd.
  assert (H1 : 1 <= m_NumBits v) by lia.
  pose proof (top_index _ _ Hn H1 HA) as Htop.
  pose proof (ceil8_uint _ Hn) as Hsu. unfold InvariantA in HA. rewrite <- HA in Hsu.
  pose proof (ceil8_spec (m_NumBits v)) as Hc8. rewrite <- HA in Hc8.
  set (s := vsize (m_Array v)) in *.
  assert (Hk0 : 0 <= k / 8) by (apply Z.div_pos; unfold uint in Hk; lia).
  assert (Hs1 : 1 <= s) by lia.
  assert (Hpos : 0 < 256 ^ s) by (apply pow256_pos; lia).
  assert (Ha1 : exists a1,
    (if 0 <? k / 8
     then a ← for_up (Z.to_nat (s - k / 8)) 0
                 (fun i a => x ← rd a (to_uint (i + k / 8)); wr a i x) (m_Array v);
          for_down (Z.to_nat (k / 8)) (k / 8)
            (fun chars a0 => wr a0 (to_uint (to_uint (vsize a) - chars)) 0) a
     else Some (m_Array v)) = Some a1 /\
    Forall uchar a1 /\ vsize a1 = s /\
    be_value a1 = (be_value (m_Array v) * 256 ^ (k / 8)) mod 256 ^ s).
  { destruct (Z.ltb_spec 0 (k / 8)) as [Hp | Hz].
    - apply shl_chars_be; [done | fold s; lia | fold s; lia].
    - exists (m_Array v). replace (k / 8) with 0 by lia.
      rewrite Z.mul_1_r. pose proof (be_value_bound _ Ha). fold s in H.
      by rewrite Z.mod_small. }
  destruct Ha1 as (a1 & -> & Hu1 & Hs1' & Hbe1). simpl.
  destruct (shl_bits_be (m_NumBits v) (Z.to_nat (k mod 8)) 0 a1)
    as (a2 & -> & Hu2 & Hs2 & Hbe2); [done | lia | by rewrite Hs1' |].
  simpl. eexists. split; [done|]. simpl. split; [done|]. split; [done|].
  split; [lia|]. rewrite Hbe2, Hs1', Hbe1, Z2Nat.id by lia.
  rewrite Z.mul_mod_idemp_l by lia. rewrite <- (pow256 s) by lia. f_equal.
  rewrite <- Z.mul_assoc. f_equal. rewrite pow256 by lia.
  rewrite <- Z.pow_add_r by lia. f_equal. lia.
Qed.

(** *** One bit to the right *)

Lemma vsize_shr1 cin a : vsize (shr1 cin a) = vsize a.
Proof.
  unfold vsize. f_equal. revert cin. induction a as [|x a IH]; intros cin; [done|].
  simpl. by rewrite IH.
Qed.

Lemma shr1_uchar cin a : 0 <= cin <= 1 -> Forall uchar a -> Forall uchar (shr1 cin a).
Proof.
  intros Hc Ha. revert cin Hc. induction Ha as [|x a Hx Ha IH]; intros cin Hc; [constructor|].
  simpl. unfold uchar in Hx.
  pose proof (Z.div_mod x 2 ltac:(lia)). pose proof (Z.mod_pos_bound x 2 ltac:(lia)).
  constructor; [unfold uchar; lia | apply IH; lia].
Qed.

Lemma rd_shr1 cin a j x :
  rd a j = Some x ->
  rd (shr1 cin a) j
  = Some (x / 2 + 128 * (if j =? 0 then cin else default 0 (rd a (j - 1)) mod 2)).
Proof.
  revert cin j. induction a as [|h t IH]; intros cin j H.
  - by rewrite rd_None in H by (unfold vsize; simpl; lia).
  - pose proof (rd_Some _ _ _ H) as [Hj _].
    destruct (Z.eq_dec j 0) as [-> | Hne].
    + rewrite rd_head in H. injection H as ->. simpl shr1. by rewrite rd_head.
    + rewrite rd_tail in H by lia. simpl shr1. rewrite rd_tail by lia.
      rewrite (IH _ _ H).
      replace (j =? 0) with false by (symmetry; apply Z.eqb_neq; lia).
      destruct (Z.eq_dec (j - 1) 0) as [E | E].
      * rewrite E, Z.eqb_refl, rd_head. done.
      * replace (j - 1 =? 0) with false by (symmetry; apply Z.eqb_neq; lia).
        by rewrite (rd_tail _ _ (j - 1)) by lia.
Qed.

(** One call of the one-bit shift loop of [operator>>=] computes [shr1]. *)
Lemma shr_bit_shr1 n a :
  Forall uchar a -> 1 <= vsize a -> BIT_CHAR (to_uint (n - 1)) = vsize a - 1 ->
  shr_bit n a = Some (shr1 0 a).
Proof.
  intros Ha Hs Htop. unfold shr_bit. rewrite Htop.
  set (s := vsize a) in *.
  destruct (for_down_ix
    (fun j b => vsize b = s /\
                forall i, 0 <= i < s -> rd b i = if j <? i then rd (shr1 0 a) i else rd a i)
    (fun j a => x ← rd a j; a ← wr a j (to_uchar (Z.shiftr x 1));
                y ← rd a (j - 1);
                if negb (Z.land y 1 =? 0)
                then x ← rd a j; wr a j (to_uchar (Z.lor x MS_BIT)) else Some a)
    (Z.to_nat (s - 1)) (s - 1) a) as (a1 & -> & Hs1 & Hrd1).
  { split; [done|]. intros i Hi.
    by replace (s - 1 <? i) with false by (symmetry; apply Z.ltb_ge; lia). }
  { intros j b Hj (Hsb & Hb).
    destruct (rd_in a j ltac:(lia)) as (x & Hx & _).
    destruct (rd_in a (j - 1) ltac:(lia)) as (y & Hy & _).
    pose proof (rd_uchar _ _ _ Ha Hx) as Hxu. pose proof (rd_uchar _ _ _ Ha Hy) as Hyu.
    assert (Hbj : rd b j = Some x).
    { rewrite Hb by lia. by replace (j <? j) with false by (symmetry; apply Z.ltb_ge; lia). }
    rewrite Hbj. simpl.
    assert (Hw1 : wr b j (to_uchar (Z.shiftr x 1))
                  = Some (<[Z.to_nat j := to_uchar (Z.shiftr x 1)]> b)) by (apply wr_in; lia).
    rewrite Hw1. simpl.
    rewrite (rd_wr_other _ _ _ _ (j - 1) Hw1) by lia.
    rewrite Hb by lia. replace (j <? j - 1) with false by (symmetry; apply Z.ltb_ge; lia).
    rewrite Hy. simpl.
    rewrite (rd_wr_same _ _ _ _ Hw1).
    assert (Hfin : rd (shr1 0 a) j = Some (x / 2 + 128 * (y mod 2))).
    { rewrite (rd_shr1 _ _ _ _ Hx), Hy.
      by replace (j =? 0) with false by (symmetry; apply Z.eqb_neq; lia). }
    pose proof (shr_char x y Hxu Hyu) as Hch.
    destruct (negb (Z.land y 1 =? 0)).
    - simpl.
      assert (Hw2 : wr (<[Z.to_nat j := to_uchar (Z.shiftr x 1)]> b) j
                       (to_uchar (Z.lor (to_uchar (Z.shiftr x 1)) MS_BIT))
                    = Some (<[Z.to_nat j := to_uchar (Z.lor (to_uchar (Z.shiftr x 1)) MS_BIT)]>
                              (<[Z.to_nat j := to_uchar (Z.shiftr x 1)]> b)))
        by (apply wr_in; rewrite vsize_insert; lia).
      rewrite Hw2. eexists. split; [done|]. split; [by rewrite !vsize_insert|].
      intros i Hi. destruct (Z.eq_dec i j) as [-> | Hne].
      + rewrite (rd_wr_same _ _ _ _ Hw2).
        replace (j - 1 <? j) with true by (symmetry; apply Z.ltb_lt; lia).
        by rewrite Hfin, Hch.
      + rewrite (rd_wr_other _ _ _ _ i Hw2), (rd_wr_other _ _ _ _ i Hw1) by lia.
        rewrite Hb by lia.
        destruct (Z.ltb_spec j i), (Z.ltb_spec (j - 1) i); try done; lia.
    - eexists. split; [done|]. split; [by rewrite !vsize_insert|].
      intros i Hi. destruct (Z.eq_dec i j) as [-> | Hne].
      + rewrite (rd_wr_same _ _ _ _ Hw1).
        replace (j - 1 <? j) with true by (symmetry; apply Z.ltb_lt; lia).
        by rewrite Hfin, Hch.
      + rewrite (rd_wr_other _ _ _ _ i Hw1) by lia.
        rewrite Hb by lia.
        destruct (Z.ltb_spec j i), (Z.ltb_spec (j - 1) i); try done; lia. }
  simpl. rewrite Z2Nat.id in Hrd1 by lia.
  replace (s - 1 - (s - 1)) with 0 in Hrd1 by lia.
  destruct (rd_in a 0 ltac:(lia)) as (x & Hx & _).
  pose proof (rd_uchar _ _ _ Ha Hx) as Hxu.
  rewrite Hrd1 by lia. rewrite Z.ltb_irrefl, Hx. simpl.
  assert (Hw : wr a1 0 (to_uchar (Z.shiftr x 1))
               = Some (<[Z.to_nat 0 := to_uchar (Z.shiftr x 1)]> a1)) by (apply wr_in; lia).
  rewrite Hw. f_equal. apply rd_ext; [by rewrite vsize_insert, vsize_shr1|].
  rewrite vsize_insert. intros i Hi. destruct (Z.eq_dec i 0) as [-> | Hne].
  - rewrite (rd_wr_same _ _ _ _ Hw), (rd_shr1 _ _ _ _ Hx). simpl.
    pose proof (shr_char_parts x Hxu) as [_ H0%Z.eqb_eq]%andb_true_iff.
    by rewrite H0.
  - rewrite (rd_wr_other _ _ _ _ i Hw) by lia. rewrite Hrd1 by lia.
    by replace (0 <? i) with true by (symmetry; apply Z.ltb_lt; lia).
Qed.

Lemma be_value_shr1 cin a :
  0 <= cin <= 1 -> Forall uchar a ->
  be_value (shr1 cin a) = (cin * 256 ^ vsize a + be_value a) / 2.
Proof.
  intros Hc Ha. revert cin Hc. induction Ha as [|x r Hx Hr IH]; intros cin Hc.
  - unfold vsize, be_value. simpl. rewrite Z.mul_1_r, Z.add_0_r.
    symmetry. apply Z.div_small. lia.
  - simpl shr1. rewrite !be_value_cons, vsize_shr1.
    pose proof (Z.div_mod x 2 ltac:(lia)) as Hd.
    pose proof (Z.mod_pos_bound x 2 ltac:(lia)) as Hm.
    rewrite IH by lia.
    change (x :: r) with ([x] ++ r). rewrite vsize_app.
    change (vsize [x]) with 1. pose proof (vsize_nonneg r).
    rewrite Z.pow_add_r by lia. change (256 ^ 1) with 256.
    set (K := 256 ^ vsize r). set (B := be_value r).
    set (q := x / 2) in *. set (e := x mod 2) in *. clearbody K B q e. subst x.
    replace (cin * (256 * K) + ((2 * q + e) * K + B))
      with ((128 * cin * K + q * K) * 2 + (e * K + B)) by ring.
    rewrite Z.div_add_l by lia. ring.
Qed.

(** [t] one-bit shifts to the right divide the storage by [2 ^ t]. *)
Lemma shr_bits_be n (t : nat) i a :
  Forall uchar a -> 1 <= vsize a -> BIT_CHAR (to_uint (n - 1)) = vsize a - 1 ->
  exists a', for_up t i (fun _ => shr_bit n) a = Some a' /\
             Forall uchar a' /\ vsize a' = vsize a /\
             be_value a' = be_value a / 2 ^ Z.of_nat t.
Proof.
  revert i a. induction t as [|t IH]; intros i a Ha Hs Htop.
  - exists a. simpl. by rewrite Z.div_1_r.
  - simpl for_up. rewrite shr_bit_shr1 by done. simpl.
    destruct (IH (i + 1) (shr1 0 a)) as (a' & -> & Hu & Hsz & Hbe);
      [apply shr1_uchar; [lia | done] | by rewrite vsize_shr1 | by rewrite vsize_shr1 |].
    exists a'. split; [done|]. split; [done|]. rewrite vsize_shr1 in *. split; [done|].
    rewrite Hbe, be_value_shr1 by (done || lia). rewrite Z.mul_0_l, Z.add_0_l.
    rewrite Z.div_div by (try apply Z.pow_pos_nonneg; lia).
    f_equal. rewrite Nat2Z.inj_succ, Z.pow_succ_r by lia. lia.
Qed.

(** *** Moving whole characters to the right *)

Lemma shr_move_loop (chars : Z) a :
  0 < chars <= vsize a ->
  exists b, for_down (Z.to_nat (vsize a - 1 - chars + 1)) (vsize a - 1)
              (fun i a => x ← rd a (i - chars); wr a i x) a = Some b /\
            vsize b = vsize a /\
            forall i, chars <= i < vsize a -> rd b i = rd a (i - chars).
Proof.
  intros Hc. set (s := vsize a) in *.
  destruct (for_down_ix
    (fun j b => vsize b = s /\
                forall i, 0 <= i < s -> rd b i = if j <? i then rd a (i - chars) else rd a i)
    (fun i a => x ← rd a (i - chars); wr a i x)
    (Z.to_nat (s - 1 - chars + 1)) (s - 1) a) as (b & Hb & Hsb & Hrd).
  { split; [done|]. intros i Hi.
    by replace (s - 1 <? i) with false by (symmetry; apply Z.ltb_ge; lia). }
  { intros j b Hj (Hsb & Hb).
    rewrite Hb by lia. replace (j <? j - chars) with false by (symmetry; apply Z.ltb_ge; lia).
    destruct (rd_in a (j - chars) ltac:(lia)) as (x & Hx & _). rewrite Hx. simpl.
    assert (Hw : wr b j x = Some (<[Z.to_nat j := x]> b)) by (apply wr_in; lia).
    rewrite Hw. eexists. split; [done|]. split; [by rewrite vsize_insert|].
    intros i Hi. destruct (Z.eq_dec i j) as [-> | Hne].
    - rewrite (rd_wr_same _ _ _ _ Hw).
      by replace (j - 1 <? j) with true by (symmetry; apply Z.ltb_lt; lia).
    - rewrite (rd_wr_other _ _ _ _ i Hw) by lia. rewrite Hb by lia.
      destruct (Z.ltb_spec j i), (Z.ltb_spec (j - 1) i); try done; lia. }
  exists b. split; [done|]. split; [done|]. intros i Hi.
  rewrite Hrd by lia. rewrite Z2Nat.id by lia.
  by replace (s - 1 - (s - 1 - chars + 1) <? i) with true by (symmetry; apply Z.ltb_lt; lia).
Qed.

Lemma be_value_zeros_take (c : nat) a :
  Forall uchar a -> (c <= length a)%nat ->
  be_value (replicate c 0 ++ take (length a - c) a) = be_value a / 256 ^ Z.of_nat c.
Proof.
  intros Ha Hc. rewrite be_value_app, be_value_replicate_zero, Z.mul_0_l, Z.add_0_l.
  rewrite <- (take_drop (length a - c) a) at 3.
  rewrite be_value_app.
  assert (Hsd : vsize (drop (length a - c) a) = Z.of_nat c)
    by (unfold vsize; rewrite length_drop; lia).
  assert (Hd : Forall uchar (drop (length a - c) a)) by (by apply Forall_drop).
  pose proof (be_value_bound _ Hd) as Hb. rewrite Hsd in *.
  pose proof (pow256_pos (Z.of_nat c) ltac:(lia)).
  rewrite Z.div_add_l by lia. rewrite (Z.div_small (be_value (drop _ _))) by lia. lia.
Qed.

(** The two character loops of [operator>>=] together. *)
Lemma shr_chars_be (chars : Z) a :
  Forall uchar a -> 0 < chars <= vsize a ->
  exists a1,
    (a0 ← for_down (Z.to_nat (vsize a - 1 - chars + 1)) (vsize a - 1)
            (fun i a => x ← rd a (i - chars); wr a i x) a;
     for_down (Z.to_nat chars) chars (fun chars a => wr a (chars - 1) 0) a0) = Some a1 /\
    Forall uchar a1 /\ vsize a1 = vsize a /\
    be_value a1 = be_value a / 256 ^ chars.
Proof.
  intros Ha Hc.
  destruct (shr_move_loop chars a Hc) as (b & -> & Hsb & Hrd). simpl.
  assert (Hl : length b = length a) by (unfold vsize in Hsb; lia).
  assert (Hcl : (Z.to_nat chars <= length a)%nat) by (unfold vsize in Hc; lia).
  pose proof (shr_zero_loop (Z.to_nat chars) b ltac:(lia)) as Hz.
  rewrite Z2Nat.id in Hz by lia. rewrite Hz.
  assert (E : drop (Z.to_nat chars) b = take (length a - Z.to_nat chars) a).
  { apply list_eq. intros i. rewrite lookup_take, lookup_drop.
    destruct (decide (i < length a - Z.to_nat chars)%nat) as [Hi | Hi].
    - rewrite <- !rd_lookup. rewrite Hrd by (unfold vsize; lia). f_equal. lia.
    - apply lookup_ge_None. lia. }
  rewrite E. eexists. split; [done|].
  split; [|split].
  - apply Forall_app. split; [|by apply Forall_take].
    apply Forall_replicate. unfold uchar. lia.
  - rewrite vsize_app, vsize_replicate. unfold vsize. rewrite length_take. lia.
  - rewrite be_value_zeros_take by done. by rewrite Z2Nat.id by lia.
Qed.

Lemma mask_char c x :
  0 <= c < 8 -> uchar x -> to_uchar (Z.land x (256 - 2 ^ c)) = x / 2 ^ c * 2 ^ c.
Proof.
  intros Hc Hx.
  enum8 c; (apply Z.eqb_eq; revert x Hx; apply forall_uchar; vm_compute; reflexivity).
Qed.

(** Zeroing the [c] low bits of the last character. *)
Lemma be_value_mask_last c l x :
  0 <= c < 8 -> uchar x ->
  be_value (l ++ [to_uchar (Z.land x (256 - 2 ^ c))])
  = be_value (l ++ [x]) / 2 ^ c * 2 ^ c.
Proof.
  intros Hc Hx. rewrite !be_value_snoc, mask_char by done.
  destruct (pow_split c Hc) as (Hp1 & Hp2 & ->).
  replace (2 ^ c * 2 ^ (8 - c) * be_value l + x)
    with (2 ^ (8 - c) * be_value l * 2 ^ c + x) by ring.
  rewrite Z.div_add_l by lia. ring.
Qed.

(** [operator>>=] on the storage: inside the storage it divides the
    big-endian number by [2 ^ shifts] and zeroes the spare bits. *)
Lemma op_shr_be v k :
  well_typed v -> InvariantA v -> uint k ->
  k mod 8 < m_NumBits v -> k / 8 <= vsize (m_Array v) ->
  exists v', op_shr v k = Some v' /\ m_NumBits v' = m_NumBits v /\
             Forall uchar (m_Array v') /\ vsize (m_Array v') = vsize (m_Array v) /\
             be_value (m_Array v')
             = be_value (m_Array v) / 2 ^ k / 2 ^ spare_count v * 2 ^ spare_count v.
Proof.
  intros Ht HA Hk Hg Hch. pose proof Ht as [Hn Ha]. unfold op_shr, CHAR_BIT.
  replace (m_NumBits v <=? k mod 8) with false by (symmetry; apply Z.leb_gt; lia).
  pose proof (Z.mod_pos_bound k 8 ltac:(lia)) as Hm.
  pose proof (Z.div_mod k 8 ltac:(lia)) as Hd.
  assert (H1 : 1 <= m_NumBits v) by lia.
  destruct (invA_shape v Ht HA H1) as (l0 & x0 & c & El & _ & _ & Hc & Hnc & Htop & Hmod).
  assert (Hs : vsize (m_Array v) = vsize l0 + 1) by (by rewrite El, vsize_app).
  assert (Hsc : spare_count v = c) by (unfold spare_count; lia).
  rewrite Hsc, Htop. unfold CHAR_BIT in Hmod. rewrite Hmod.
  change ((8 - c) mod 8) with ((8 - c) mod CHAR_BIT). rewrite spare_bits_zero_iff by done.
  pose proof (vsize_nonneg l0) as Hl0.
  set (s := vsize (m_Array v)) in *.
  assert (Hk0 : 0 <= k / 8) by (apply Z.div_pos; unfold uint in Hk; lia).
  assert (Ha1 : exists a1,
    (if 0 <? k / 8
     then a ← for_down (Z.to_nat (vsize l0 - k / 8 + 1)) (vsize l0)
                 (fun i a => x ← rd a (i - k / 8); wr a i x) (m_Array v);
          for_down (Z.to_nat (k / 8)) (k / 8) (fun chars a0 => wr a0 (chars - 1) 0) a
     else Some (m_Array v)) = Some a1 /\
    Forall uchar a1 /\ vsize a1 = s /\
    be_value a1 = be_value (m_Array v) / 256 ^ (k / 8)).
  { destruct (Z.ltb_spec 0 (k / 8)) as [Hp | Hz].
    - replace (vsize l0) with (s - 1) by lia.
      apply shr_chars_be; [done | fold s; lia].
    - exists (m_Array v). replace (k / 8) with 0 by lia. by rewrite Z.div_1_r. }
  destruct Ha1 as (a1 & -> & Hu1 & Hs1' & Hbe1). simpl.
  destruct (shr_bits_be (m_NumBits v) (Z.to_nat (k mod 8)) 0 a1)
    as (a2 & -> & Hu2 & Hs2 & Hbe2); [done | lia | rewrite Hs1'; lia |].
  simpl.
  assert (Hbe : be_value a2 = be_value (m_Array v) / 2 ^ k).
  { rewrite Hbe2, Hbe1, Z2Nat.id by lia.
    rewrite Z.div_div by (try apply Z.pow_pos_nonneg; try apply Z.pow_nonzero; lia).
    f_equal. rewrite pow256 by lia. rewrite <- Z.pow_add_r by lia. f_equal. lia. }
  destruct (Z.eqb_spec c 0) as [-> | Hc0]; simpl negb; cbv iota.
  - eexists. split; [done|]. simpl. split; [done|]. split; [done|]. split; [lia|].
    rewrite Hbe. change (2 ^ 0) with 1. rewrite Z.div_1_r. lia.
  - destruct (spare_mask_bits c ltac:(lia)) as [_ ->].
    destruct a2 as [|y a2' _] using rev_ind; [change (vsize []) with 0 in Hs2; lia|].
    rewrite vsize_app in Hs2. change (vsize [y]) with 1 in Hs2.
    apply Forall_app in Hu2 as [Hu2 Hy%Forall_inv].
    rewrite (rd_middle' a2' y []) by lia. simpl.
    rewrite (wr_middle' a2' y []) by lia. simpl.
    eexists. split; [done|]. simpl. split; [done|]. split; [|split].
    + apply Forall_app. split; [done|]. apply Forall_singleton. apply to_uchar_uchar.
    + rewrite vsize_app. change (vsize [_]) with 1. lia.
    + rewrite be_value_mask_last by done. by rewrite Hbe.
Qed.

(** ** What the shifts do to the bits and to the value *)

Lemma get_be v i :
  Forall uchar (m_Array v) -> 0 <= i < 8 * vsize (m_Array v) ->
  get v i = Some (Z.testbit (be_value (m_Array v)) (8 * vsize (m_Array v) - 1 - i)).
Proof.
  intros Ha Hi. rewrite get_rd.
  destruct (testbit_be_value _ i Ha Hi) as (x & Hx & Hb). rewrite Hx. simpl.
  by rewrite Hb.
Qed.

Lemma pow2_pos k : 0 <= k -> 0 < 2 ^ k.
Proof. intros. apply Z.pow_pos_nonneg; lia. Qed.

Lemma ClearAll_be v :
  m_NumBits (ClearAll v) = m_NumBits v /\ Forall uchar (m_Array (ClearAll v)) /\
  vsize (m_Array (ClearAll v)) = vsize (m_Array v) /\ be_value (m_Array (ClearAll v)) = 0.
Proof.
  unfold ClearAll, assign_all. simpl. split; [done|]. split; [|split].
  - apply Forall_replicate. unfold uchar. lia.
  - by rewrite vsize_replicate.
  - apply be_value_replicate_zero.
Qed.

Lemma invA_spare v :
  well_typed v -> InvariantA v ->
  0 <= spare_count v < 8 /\ m_NumBits v <= 8 * vsize (m_Array v) /\
  0 <= vsize (m_Array v) /\
  2 ^ (8 * vsize (m_Array v)) = 2 ^ m_NumBits v * 2 ^ spare_count v.
Proof.
  intros [Hn _] HA. pose proof (spare_count_range v HA) as Hc.
  unfold spare_count in *. pose proof (vsize_nonneg (m_Array v)).
  unfold uint in Hn. split; [done|]. split; [lia|]. split; [done|].
  rewrite <- Z.pow_add_r by lia. f_equal. lia.
Qed.

(** Both branches of [operator<<=] on a well-formed array. *)
Lemma op_shl_be_wf v k :
  well_formed v -> uint k ->
  m_NumBits v <= k mod 8 \/ k / 8 <= vsize (m_Array v) ->
  exists v', op_shl v k = Some v' /\ m_NumBits v' = m_NumBits v /\
             Forall uchar (m_Array v') /\ vsize (m_Array v') = vsize (m_Array v) /\
             be_value (m_Array v')
             = (be_value (m_Array v) * 2 ^ k) mod 2 ^ (8 * vsize (m_Array v)).
Proof.
  intros Hwf Hk Hcond. pose proof Hwf as (Ht & HA & HB).
  destruct (Z.le_gt_cases (m_NumBits v) (k mod 8)) as [Hge | Hlt].
  - unfold op_shl, CHAR_BIT.
    replace (m_NumBits v <=? k mod 8) with true by (symmetry; apply Z.leb_le; lia).
    destruct (ClearAll_be v) as (E1 & E2 & E3 & E4).
    eexists. split; [done|]. do 3 (split; [done|]). rewrite E4.
    destruct (well_formed_value v Hwf) as (_ & Hm & _).
    destruct (invA_spare v Ht HA) as (Hc & Hsz & Hs0 & Hp).
    pose proof (Z.mod_pos_bound k 8 ltac:(lia)). pose proof (Z.div_mod k 8 ltac:(lia)).
    assert (Hkn : m_NumBits v <= k) by (unfold uint in Hk; pose proof (Z.div_pos k 8); lia).
    destruct Ht as [Hn _]. unfold uint in Hn.
    pose proof (Z.div_mod (be_value (m_Array v)) (2 ^ spare_count v)
                  ltac:(pose proof (pow2_pos (spare_count v)); lia)) as Hd.
    rewrite Hm, Z.add_0_r in Hd. rewrite Hd, Hp.
    replace k with (m_NumBits v + (k - m_NumBits v)) at 1 by lia.
    rewrite Z.pow_add_r by lia.
    set (Q := be_value (m_Array v) / 2 ^ spare_count v).
    replace (2 ^ spare_count v * Q * (2 ^ m_NumBits v * 2 ^ (k - m_NumBits v)))
      with (Q * 2 ^ (k - m_NumBits v) * (2 ^ m_NumBits v * 2 ^ spare_count v)) by ring.
    symmetry. apply Z.mod_mul.
    pose proof (pow2_pos (m_NumBits v)). pose proof (pow2_pos (spare_count v)). nia.
  - destruct Hcond as [? | Hch]; [lia|]. by apply op_shl_be.
Qed.

(** Both branches of [operator>>=] on an array under Invariant A. *)
Lemma op_shr_be_A v k :
  well_typed v -> InvariantA v -> uint k ->
  m_NumBits v <= k mod 8 \/ k / 8 <= vsize (m_Array v) ->
  exists v', op_shr v k = Some v' /\ m_NumBits v' = m_NumBits v /\
             Forall uchar (m_Array v') /\ vsize (m_Array v') = vsize (m_Array v) /\
             be_value (m_Array v')
             = be_value (m_Array v) / 2 ^ k / 2 ^ spare_count v * 2 ^ spare_count v.
Proof.
  intros Ht HA Hk Hcond.
  destruct (Z.le_gt_cases (m_NumBits v) (k mod 8)) as [Hge | Hlt].
  - unfold op_shr, CHAR_BIT.
    replace (m_NumBits v <=? k mod 8) with true by (symmetry; apply Z.leb_le; lia).
    destruct (ClearAll_be v) as (E1 & E2 & E3 & E4).
    eexists. split; [done|]. do 3 (split; [done|]). rewrite E4.
    destruct (invA_spare v Ht HA) as (Hc & Hsz & Hs0 & Hp).
    pose proof (Z.mod_pos_bound k 8 ltac:(lia)). pose proof (Z.div_mod k 8 ltac:(lia)).
    assert (Hkn : m_NumBits v <= k) by (unfold uint in Hk; pose proof (Z.div_pos k 8); lia).
    destruct Ht as [Hn Ha]. unfold uint in Hn.
    pose proof (be_value_bound _ Ha) as Hb. rewrite pow256, Hp in Hb by lia.
    pose proof (pow2_pos (m_NumBits v)). pose proof (pow2_pos (spare_count v)).
    pose proof (pow2_pos k). pose proof (pow2_pos (k - m_NumBits v)).
    rewrite Z.div_div by lia. rewrite Z.div_small; [done|].
    replace k with (m_NumBits v + (k - m_NumBits v)) by lia.
    rewrite Z.pow_add_r by lia. nia.
  - destruct Hcond as [? | Hch]; [lia|]. by apply op_shr_be.
Qed.

(** X14: [operator<<=] on a well-formed array, for a shift count that
    keeps the character moves inside the storage: the operation returns,
    the value becomes [(value * 2 ^ shifts) mod 2 ^ length], and the bit at
    index [i] is the bit that was at index [i + shifts], false when that
    index is at or beyond the length. *)
Theorem shift_left_value (v : bit_array_c) (k : Z) :
  well_formed v -> uint k ->
  m_NumBits v <= k mod 8 \/ k / 8 <= vsize (m_Array v) ->
  exists v', op_shl v k = Some v' /\
             value v' = (value v * 2 ^ k) mod 2 ^ m_NumBits v /\
             forall i, 0 <= i < m_NumBits v ->
               get v' i = if i + k <? m_NumBits v then get v (i + k) else Some false.
Proof.
  intros Hwf Hk Hcond. pose proof Hwf as (Ht & HA & HB). pose proof Ht as [Hn Ha].
  destruct (op_shl_be_wf v k Hwf Hk Hcond) as (v' & E & En & Hu & Hs & Hbe).
  destruct (invA_spare v Ht HA) as (Hc & Hsz & Hs0 & Hp).
  destruct (well_formed_value v Hwf) as (Hval & Hm & _).
  unfold uint in Hn, Hk.
  pose proof (pow2_pos (m_NumBits v) ltac:(lia)). pose proof (pow2_pos (spare_count v) ltac:(lia)).
  pose proof (Z.div_mod (be_value (m_Array v)) (2 ^ spare_count v) ltac:(lia)) as Hd.
  rewrite Hm, Z.add_0_r, <- Hval in Hd.
  exists v'. split; [done|]. split.
  - rewrite value_packed; [|split; [unfold uint; lia | done] | lia].
    unfold packed_value. rewrite Hs, En, Hbe, Hp. fold (spare_count v).
    rewrite Hd.
    replace (2 ^ spare_count v * value v * 2 ^ k)
      with (value v * 2 ^ k * 2 ^ spare_count v) by ring.
    rewrite Z.mul_mod_distr_r by lia. apply Z.div_mul. lia.
  - intros i Hi. rewrite (get_be v') by (done || lia). rewrite Hs, Hbe.
    rewrite Z.mod_pow2_bits_low by lia. rewrite Z.mul_pow2_bits by lia.
    destruct (Z.ltb_spec (i + k) (m_NumBits v)) as [Hin | Hout].
    + rewrite get_be by (done || lia). do 2 f_equal. lia.
    + f_equal.
      destruct (Z.lt_ge_cases (8 * vsize (m_Array v) - 1 - i - k) 0) as [Hneg | Hpos];
        [by apply Z.testbit_neg_r|].
      rewrite <- (Z.mod_pow2_bits_low _ (spare_count v)) by (unfold spare_count; lia).
      rewrite Hm. apply Z.bits_0.
Qed.

Lemma shift_left_value_witness :
  exists v', op_shl (fromBuffer [165; 90; 160] 20) 11 = Some v' /\
             value v' = (value (fromBuffer [165; 90; 160] 20) * 2 ^ 11)
                        mod 2 ^ m_NumBits (fromBuffer [165; 90; 160] 20) /\
             forall i, 0 <= i < m_NumBits (fromBuffer [165; 90; 160] 20) ->
               get v' i = if i + 11 <? m_NumBits (fromBuffer [165; 90; 160] 20)
                          then get (fromBuffer [165; 90; 160] 20) (i + 11)
                          else Some false.
Proof.
  apply shift_left_value.
  - closed_well_formed.
  - vm_compute. split; [discriminate | reflexivity].
  - right. vm_compute. discriminate.
Defined.

(** X15: [operator>>=] on an array under Invariant A, whatever its spare
    bits hold, for a shift count that keeps the character moves inside the
    storage: the operation returns, the value becomes
    [value / 2 ^ shifts], the bit at index [i] below the length is the bit
    that was at index [i - shifts], false when [i < shifts], and the spare
    bits are zero afterwards. *)
Theorem shift_right_value (v : bit_array_c) (k : Z) :
  well_typed v -> InvariantA v -> uint k ->
  m_NumBits v <= k mod 8 \/ k / 8 <= vsize (m_Array v) ->
  exists v', op_shr v k = Some v' /\
             value v' = value v / 2 ^ k /\
             forall i, 0 <= i < 8 * vsize (m_Array v) ->
               get v' i = if (k <=? i) && (i <? m_NumBits v)
                          then get v (i - k) else Some false.
Proof.
  intros Ht HA Hk Hcond. pose proof Ht as [Hn Ha].
  destruct (op_shr_be_A v k Ht HA Hk Hcond) as (v' & E & En & Hu & Hs & Hbe).
  destruct (invA_spare v Ht HA) as (Hc & Hsz & Hs0 & Hp).
  unfold uint in Hn, Hk.
  pose proof (pow2_pos (m_NumBits v) ltac:(lia)). pose proof (pow2_pos (spare_count v) ltac:(lia)).
  pose proof (pow2_pos k ltac:(lia)).
  exists v'. split; [done|]. split.
  - rewrite !value_packed; [|done|lia|split; [unfold uint; lia | done] | lia].
    unfold packed_value. rewrite Hs, En, Hbe. fold (spare_count v).
    rewrite Z.div_mul by lia. rewrite !Z.div_div by lia. f_equal. lia.
  - intros i Hi. rewrite (get_be v') by (done || lia). rewrite Hs, Hbe.
    rewrite Z.mul_pow2_bits by lia.
    destruct (Z.ltb_spec i (m_NumBits v)) as [Hin | Hout].
    + rewrite Z.div_pow2_bits by (unfold spare_count; lia).
      rewrite Z.div_pow2_bits by (unfold spare_count; lia).
      destruct (Z.leb_spec k i) as [Hki | Hki]; simpl.
      * rewrite get_be by (done || lia). do 2 f_equal. lia.
      * f_equal. pose proof (be_value_bound _ Ha) as Hb.
        rewrite pow256 in Hb by lia.
        rewrite <- (Z.mod_small (be_value (m_Array v)) (2 ^ (8 * vsize (m_Array v)))) by lia.
        apply Z.mod_pow2_bits_high. lia.
    + rewrite andb_false_r. f_equal. apply Z.testbit_neg_r. unfold spare_count. lia.
Qed.

Lemma shift_right_value_witness :
  exists v', op_shr (fromBuffer [165; 90; 175] 20) 11 = Some v' /\
             value v' = value (fromBuffer [165; 90; 175] 20) / 2 ^ 11 /\
             forall i, 0 <= i < 8 * vsize (m_Array (fromBuffer [165; 90; 175] 20)) ->
               get v' i = if (11 <=? i) && (i <? m_NumBits (fromBuffer [165; 90; 175] 20))
                          then get (fromBuffer [165; 90; 175] 20) (i - 11)
                          else Some false.
Proof.
  apply shift_right_value.
  - split; [vm_compute; split; [discriminate | reflexivity]|].
    repeat constructor; vm_compute; discriminate.
  - reflexivity.
  - vm_compute. split; [discriminate | reflexivity].
  - right. vm_compute. discriminate.
Defined.

(** ** Shifts one after the other *)

Lemma same_storage v w :
  m_NumBits v = m_NumBits w -> Forall uchar (m_Array v) -> Forall uchar (m_Array w) ->
  vsize (m_Array v) = vsize (m_Array w) ->
  be_value (m_Array v) = be_value (m_Array w) -> v = w.
Proof.
  intros Hn Hv Hw Hs Hbe. destruct v as [n a], w as [m b]. simpl in *.
  subst. f_equal. by apply be_value_inj.
Qed.

Lemma shl_value_wf v k :
  well_formed v -> uint k ->
  m_NumBits v <= k mod 8 \/ k / 8 <= vsize (m_Array v) ->
  exists v', op_shl v k = Some v' /\ well_formed v' /\ m_NumBits v' = m_NumBits v /\
             vsize (m_Array v') = vsize (m_Array v) /\
             value v' = (value v * 2 ^ k) mod 2 ^ m_NumBits v.
Proof.
  intros Hwf Hk Hcond. pose proof Hwf as (Ht & HA & HB). pose proof Ht as [Hn Ha].
  destruct (op_shl_be_wf v k Hwf Hk Hcond) as (v' & E & En & Hu & Hs & Hbe).
  destruct (shl_keeps v k Hwf Hk Hcond) as (v'' & E' & _ & Hwf').
  rewrite E in E'. injection E' as <-.
  destruct (invA_spare v Ht HA) as (Hc & Hsz & Hs0 & Hp).
  destruct (well_formed_value v Hwf) as (Hval & Hm & _).
  unfold uint in Hn, Hk.
  pose proof (pow2_pos (m_NumBits v) ltac:(lia)). pose proof (pow2_pos (spare_count v) ltac:(lia)).
  pose proof (Z.div_mod (be_value (m_Array v)) (2 ^ spare_count v) ltac:(lia)) as Hd.
  rewrite Hm, Z.add_0_r, <- Hval in Hd.
  exists v'. do 4 (split; [done|]).
  rewrite value_packed; [|split; [unfold uint; lia | done] | lia].
  unfold packed_value. rewrite Hs, En, Hbe, Hp. fold (spare_count v).
  rewrite Hd.
  replace (2 ^ spare_count v * value v * 2 ^ k)
    with (value v * 2 ^ k * 2 ^ spare_count v) by ring.
  rewrite Z.mul_mod_distr_r by lia. apply Z.div_mul. lia.
Qed.

Lemma shr_value_wf v k :
  well_formed v -> uint k ->
  m_NumBits v <= k mod 8 \/ k / 8 <= vsize (m_Array v) ->
  exists v', op_shr v k = Some v' /\ well_formed v' /\ m_NumBits v' = m_NumBits v /\
             vsize (m_Array v') = vsize (m_Array v) /\
             value v' = value v / 2 ^ k.
Proof.
  intros Hwf Hk Hcond. pose proof Hwf as (Ht & HA & HB). pose proof Ht as [Hn Ha].
  destruct (op_shr_be_A v k Ht HA Hk Hcond) as (v' & E & En & Hu & Hs & Hbe).
  destruct (shr_keeps v k Hwf Hk Hcond) as (v'' & E' & _ & Hwf').
  rewrite E in E'. injection E' as <-.
  destruct (invA_spare v Ht HA) as (Hc & Hsz & Hs0 & Hp).
  unfold uint in Hn, Hk.
  pose proof (pow2_pos (m_NumBits v) ltac:(lia)). pose proof (pow2_pos (spare_count v) ltac:(lia)).
  pose proof (pow2_pos k ltac:(lia)).
  exists v'. do 4 (split; [done|]).
  rewrite !value_packed; [|done|lia|split; [unfold uint; lia | done] | lia].
  unfold packed_value. rewrite Hs, En, Hbe. fold (spare_count v).
  rewrite Z.div_mul by lia. rewrite !Z.div_div by lia. f_equal. lia.
Qed.

Lemma same_value v w :
  well_formed v -> well_formed w -> m_NumBits v = m_NumBits w ->
  value v = value w -> v = w.
Proof.
  intros Hv Hw Hn Hval.
  destruct (well_formed_value v Hv) as (Ev & Mv & Hc).
  destruct (well_formed_value w Hw) as (Ew & Mw & _).
  pose proof Hv as ((_ & Hav) & HAv & _). pose proof Hw as ((_ & Haw) & HAw & _).
  assert (Hs : vsize (m_Array v) = vsize (m_Array w)).
  { unfold InvariantA in *. by rewrite HAv, HAw, Hn. }
  assert (Hsc : spare_count w = spare_count v) by (unfold spare_count; rewrite Hs, Hn; lia).
  rewrite Hsc in *.
  pose proof (pow2_pos (spare_count v) ltac:(lia)) as HK.
  pose proof (Z.div_mod (be_value (m_Array v)) (2 ^ spare_count v) ltac:(lia)) as Dv.
  pose proof (Z.div_mod (be_value (m_Array w)) (2 ^ spare_count v) ltac:(lia)) as Dw.
  rewrite Mv in Dv. rewrite Mw in Dw. rewrite <- Ev in Dv. rewrite <- Ew in Dw.
  apply same_storage; try done. rewrite Dv, Dw, Hval. done.
Qed.

(** X16: on a well-formed array, two shifts in one direction by [j] and
    then by [k] give the array one shift by [j + k] gives, when the
    character moves of the whole shift stay inside the storage. *)
Theorem shifts_compose (v : bit_array_c) (j k : Z) :
  well_formed v -> uint j -> uint k -> uint (j + k) ->
  (j + k) / 8 <= vsize (m_Array v) ->
  (exists v1 v2, op_shl v j = Some v1 /\ op_shl v1 k = Some v2 /\
                 op_shl v (j + k) = Some v2) /\
  (exists v1 v2, op_shr v j = Some v1 /\ op_shr v1 k = Some v2 /\
                 op_shr v (j + k) = Some v2).
Proof.
  intros Hwf Hj Hk Hjk Hs. unfold uint in Hj, Hk, Hjk.
  assert (Hj8 : j / 8 <= vsize (m_Array v)).
  { etransitivity; [|exact Hs]. apply Z.div_le_mono; lia. }
  assert (Hk8 : k / 8 <= vsize (m_Array v)).
  { etransitivity; [|exact Hs]. apply Z.div_le_mono; lia. }
  pose proof Hwf as ((Hn & _) & _). unfold uint in Hn.
  pose proof (pow2_pos (m_NumBits v) ltac:(lia)) as Hp.
  pose proof (pow2_pos j ltac:(lia)). pose proof (pow2_pos k ltac:(lia)).
  split.
  - destruct (shl_value_wf v j Hwf ltac:(done) ltac:(by right))
      as (v1 & E1 & W1 & N1 & S1 & V1).
    destruct (shl_value_wf v1 k W1 ltac:(done) ltac:(right; lia))
      as (v2 & E2 & W2 & N2 & S2 & V2).
    destruct (shl_value_wf v (j + k) Hwf ltac:(done) ltac:(by right))
      as (v3 & E3 & W3 & N3 & S3 & V3).
    exists v1, v2. do 2 (split; [done|]). rewrite E3. f_equal.
    apply same_value; try done; [lia|].
    rewrite V3, V2, V1, N1. rewrite Z.mul_mod_idemp_l by lia.
    rewrite Z.pow_add_r by lia. f_equal. ring.
  - destruct (shr_value_wf v j Hwf ltac:(done) ltac:(by right))
      as (v1 & E1 & W1 & N1 & S1 & V1).
    destruct (shr_value_wf v1 k W1 ltac:(done) ltac:(right; lia))
      as (v2 & E2 & W2 & N2 & S2 & V2).
    destruct (shr_value_wf v (j + k) Hwf ltac:(done) ltac:(by right))
      as (v3 & E3 & W3 & N3 & S3 & V3).
    exists v1, v2. do 2 (split; [done|]). rewrite E3. f_equal.
    apply same_value; try done; [lia|].
    rewrite V3, V2, V1. rewrite Z.div_div by lia.
    by rewrite Z.pow_add_r by lia.
Qed.

Lemma shifts_compose_witness :
  (exists v1 v2, op_shl (fromBuffer [165; 90; 160] 20) 3 = Some v1 /\
                 op_shl v1 9 = Some v2 /\
                 op_shl (fromBuffer [165; 90; 160] 20) (3 + 9) = Some v2) /\
  (exists v1 v2, op_shr (fromBuffer [165; 90; 160] 20) 3 = Some v1 /\
                 op_shr v1 9 = Some v2 /\
                 op_shr (fromBuffer [165; 90; 160] 20) (3 + 9) = Some v2).
Proof.
  apply shifts_compose.
  - closed_well_formed.
  - vm_compute. split; [discriminate | reflexivity].
  - vm_compute. split; [discriminate | reflexivity].
  - vm_compute. split; [discriminate | reflexivity].
  - vm_compute. discriminate.
Defined.

(** X17: on a well-formed array, for a shift count [k] up to the length
    whose character moves stay inside the storage: shifting left and then
    right by [k] leaves [value mod 2 ^ (length - k)], the top [k] bits
    cleared; shifting right and then left by [k] leaves
    [value - value mod 2 ^ k], the bottom [k] bits cleared. *)
Theorem shift_there_and_back (v : bit_array_c) (k : Z) :
  well_formed v -> 0 <= k <= m_NumBits v -> k / 8 <= vsize (m_Array v) ->
  (exists v1 v2, op_shl v k = Some v1 /\ op_shr v1 k = Some v2 /\
                 value v2 = value v mod 2 ^ (m_NumBits v - k)) /\
  (exists v1 v2, op_shr v k = Some v1 /\ op_shl v1 k = Some v2 /\
                 value v2 = value v - value v mod 2 ^ k).
Proof.
  intros Hwf Hk Hs. pose proof Hwf as (Ht & HA & _). pose proof Ht as (Hn & _).
  unfold uint in Hn. assert (Hku : uint k) by (unfold uint; lia).
  destruct (invA_spare v Ht HA) as (_ & Hsz & _ & _).
  pose proof (value_bound v Ht Hsz) as Hvb.
  pose proof (pow2_pos (m_NumBits v) ltac:(lia)) as Hp.
  pose proof (pow2_pos k ltac:(lia)) as Hpk.
  pose proof (pow2_pos (m_NumBits v - k) ltac:(lia)) as Hpnk.
  assert (Hsplit : 2 ^ m_NumBits v = 2 ^ (m_NumBits v - k) * 2 ^ k).
  { rewrite <- Z.pow_add_r by lia. f_equal. lia. }
  split.
  - destruct (shl_value_wf v k Hwf Hku ltac:(by right)) as (v1 & E1 & W1 & N1 & S1 & V1).
    destruct (shr_value_wf v1 k W1 Hku ltac:(right; lia)) as (v2 & E2 & W2 & N2 & S2 & V2).
    exists v1, v2. do 2 (split; [done|]).
    rewrite V2, V1, Hsplit. rewrite Z.mul_mod_distr_r by lia. apply Z.div_mul. lia.
  - destruct (shr_value_wf v k Hwf Hku ltac:(by right)) as (v1 & E1 & W1 & N1 & S1 & V1).
    destruct (shl_value_wf v1 k W1 Hku ltac:(right; lia)) as (v2 & E2 & W2 & N2 & S2 & V2).
    exists v1, v2. do 2 (split; [done|]).
    rewrite V2, V1, N1.
    pose proof (Z.div_mod (value v) (2 ^ k) ltac:(lia)) as Hd.
    pose proof (Z.mod_pos_bound (value v) (2 ^ k) ltac:(lia)) as Hm.
    rewrite Z.mod_small; [lia|].
    assert (0 <= value v / 2 ^ k) by (apply Z.div_pos; lia).
    nia.
Qed.

Lemma shift_there_and_back_witness :
  (exists v1 v2, op_shl (fromBuffer [165; 90; 160] 20) 11 = Some v1 /\
                 op_shr v1 11 = Some v2 /\
                 value v2 = value (fromBuffer [165; 90; 160] 20)
                            mod 2 ^ (m_NumBits (fromBuffer [165; 90; 160] 20) - 11)) /\
  (exists v1 v2, op_shr (fromBuffer [165; 90; 160] 20) 11 = Some v1 /\
                 op_shl v1 11 = Some v2 /\
                 value v2 = value (fromBuffer [165; 90; 160] 20)
                            - value (fromBuffer [165; 90; 160] 20) mod 2 ^ 11).
Proof.
  apply shift_there_and_back.
  - closed_well_formed.
  - vm_compute. split; discriminate.
  - vm_compute. discriminate.
Defined.

(** ** Where the single-bit methods leave the storage *)

Lemma rd_None_iff a i : rd a i = None <-> i < 0 \/ vsize a <= i.
Proof.
  split.
  - intros H. destruct (Z.lt_ge_cases i 0); [by left|].
    destruct (Z.lt_ge_cases i (vsize a)); [|by right].
    destruct (rd_in a i ltac:(lia)) as (x & Hx & _). by rewrite Hx in H.
  - intros H. apply rd_None. lia.
Qed.

(** X18: the index checks of the single-bit methods, on any array and for
    any index [bit >= 0].  [operator[]] checks nothing: it reads every
    position of the storage, the spare ones too, and is not defined exactly
    when [bit] is beyond the storage.  [SetBit] and [ClearBit] check [bit]
    against the length only: at or beyond the length they change nothing,
    and they are not defined exactly when [bit] is below the length but
    beyond the storage. *)
Theorem single_bit_bounds (v : bit_array_c) (bit : Z) :
  0 <= bit ->
  (get v bit = None <-> 8 * vsize (m_Array v) <= bit) /\
  (SetBit v bit = None <-> bit < m_NumBits v /\ 8 * vsize (m_Array v) <= bit) /\
  (ClearBit v bit = None <-> bit < m_NumBits v /\ 8 * vsize (m_Array v) <= bit) /\
  (m_NumBits v <= bit -> SetBit v bit = Some v /\ ClearBit v bit = Some v).
Proof.
  intros Hb.
  pose proof (Z.div_mod bit 8 ltac:(lia)). pose proof (Z.mod_pos_bound bit 8 ltac:(lia)).
  assert (Hq : 0 <= bit / 8) by (apply Z.div_pos; lia).
  assert (Hrd : rd (m_Array v) (BIT_CHAR bit) = None <-> 8 * vsize (m_Array v) <= bit).
  { rewrite rd_None_iff. unfold BIT_CHAR, CHAR_BIT. lia. }
  assert (Hwr : forall y, 8 * vsize (m_Array v) <= bit \/
                          exists x, rd (m_Array v) (BIT_CHAR bit) = Some x /\
                                    wr (m_Array v) (BIT_CHAR bit) y
                                    = Some (<[Z.to_nat (BIT_CHAR bit) := y]> (m_Array v))).
  { intros y. destruct (Z.le_gt_cases (8 * vsize (m_Array v)) bit); [by left|]. right.
    assert (0 <= BIT_CHAR bit < vsize (m_Array v)) by (unfold BIT_CHAR, CHAR_BIT; lia).
    destruct (rd_in (m_Array v) (BIT_CHAR bit)) as (x & Hx & _); [done|].
    exists x. split; [done|]. by apply wr_in. }
  split; [|split; [|split]].
  - unfold get. rewrite <- Hrd. destruct (rd (m_Array v) (BIT_CHAR bit)); done.
  - unfold SetBit. destruct (Z.leb_spec (m_NumBits v) bit) as [Hge | Hlt].
    + split; [done | lia].
    + split.
      * intros Hn. split; [done|]. apply Hrd.
        destruct (rd (m_Array v) (BIT_CHAR bit)) as [x|] eqn:Ex; [|done].
        destruct (Hwr (to_uchar (Z.lor x (BIT_IN_CHAR bit)))) as [Hout | (x' & _ & Hw)].
        -- apply Hrd in Hout. congruence.
        -- simpl in Hn. by rewrite Hw in Hn.
      * intros [_ Hout]. apply Hrd in Hout. by rewrite Hout.
  - unfold ClearBit. destruct (Z.leb_spec (m_NumBits v) bit) as [Hge | Hlt].
    + split; [done | lia].
    + split.
      * intros Hn. split; [done|]. apply Hrd.
        destruct (rd (m_Array v) (BIT_CHAR bit)) as [x|] eqn:Ex; [|done].
        destruct (Hwr (to_uchar (Z.land x (to_uchar (Z.lnot (to_uchar (BIT_IN_CHAR bit)))))))
          as [Hout | (x' & _ & Hw)].
        -- apply Hrd in Hout. congruence.
        -- simpl in Hn. by rewrite Hw in Hn.
      * intros [_ Hout]. apply Hrd in Hout. by rewrite Hout.
  - intros Hge. unfold SetBit, ClearBit.
    by replace (m_NumBits v <=? bit) with true by (symmetry; apply Z.leb_le; lia).
Qed.

Lemma single_bit_bounds_witness :
  (get (fromBuffer [165] 20) 9 = None <-> 8 * vsize (m_Array (fromBuffer [165] 20)) <= 9) /\
  (SetBit (fromBuffer [165] 20) 9 = None <->
   9 < m_NumBits (fromBuffer [165] 20) /\ 8 * vsize (m_Array (fromBuffer [165] 20)) <= 9) /\
  (ClearBit (fromBuffer [165] 20) 9 = None <->
   9 < m_NumBits (fromBuffer [165] 20) /\ 8 * vsize (m_Array (fromBuffer [165] 20)) <= 9) /\
  (m_NumBits (fromBuffer [165] 20) <= 9 ->
   SetBit (fromBuffer [165] 20) 9 = Some (fromBuffer [165] 20) /\
   ClearBit (fromBuffer [165] 20) 9 = Some (fromBuffer [165] 20)).
Proof. apply single_bit_bounds. lia. Defined.

(** ** The order of the comparison operators *)

Lemma vec_lt_trans a b c : vec_lt a b = true -> vec_lt b c = true -> vec_lt a c = true.
Proof.
  revert b c. induction a as [|x a IH]; intros [|y b] [|z c]; try done.
  simpl. destruct (Z.ltb_spec x y), (Z.ltb_spec y x), (Z.ltb_spec y z), (Z.ltb_spec z y),
    (Z.ltb_spec x z), (Z.ltb_spec z x); try done; try lia.
  apply IH.
Qed.

(** X19: on any arrays, [operator<] is a strict order and [operator==] an
    equivalence: [v < v] is false and [v == v] true, [v < w] and [w < u]
    give [v < u], [v < w] excludes [w < v] and [v == w], and [v == w],
    [w == u] give [v == u]; an array equal to [v] compares with a third
    one as [v] does; and [v == w] is [w == v]. *)
Theorem less_than_strict_order (v w u : bit_array_c) :
  op_lt v v = false /\ op_eq v v = true /\
  (op_lt v w = true -> op_lt w u = true -> op_lt v u = true) /\
  (op_lt v w = true -> op_lt w v = false /\ op_eq v w = false) /\
  (op_eq v w = true -> op_eq w u = true -> op_eq v u = true) /\
  (op_eq v w = true -> op_lt v u = op_lt w u /\ op_lt u v = op_lt u w) /\
  op_eq v w = op_eq w v.
Proof.
  unfold op_lt, op_eq. rewrite !Z.eqb_refl. simpl.
  rewrite vec_lt_irrefl, vec_eq_refl. do 2 (split; [done|]).
  split; [|split; [|split; [|split]]].
  - destruct (Z.eqb_spec (m_NumBits v) (m_NumBits w)) as [E1|]; [|done].
    destruct (Z.eqb_spec (m_NumBits w) (m_NumBits u)) as [E2|]; [|done].
    rewrite E1, E2, Z.eqb_refl. simpl. apply vec_lt_trans.
  - destruct (Z.eqb_spec (m_NumBits v) (m_NumBits w)) as [E1|]; [|done].
    rewrite E1, Z.eqb_refl. simpl. intros Hlt.
    destruct (vec_eq (m_Array v) (m_Array w)) eqn:Heq.
    + apply vec_eq_true in Heq. rewrite Heq, vec_lt_irrefl in Hlt. done.
    + split; [|done]. destruct (vec_lt (m_Array w) (m_Array v)) eqn:Hgt; [|done].
      pose proof (vec_lt_trans _ _ _ Hlt Hgt) as Hc. by rewrite vec_lt_irrefl in Hc.
  - destruct (Z.eqb_spec (m_NumBits v) (m_NumBits w)) as [E1|]; [|done].
    destruct (Z.eqb_spec (m_NumBits w) (m_NumBits u)) as [E2|]; [|done].
    rewrite E1, E2, Z.eqb_refl. simpl. rewrite !vec_eq_true. congruence.
  - destruct (Z.eqb_spec (m_NumBits v) (m_NumBits w)) as [E1|]; [|done].
    simpl. rewrite vec_eq_true. intros E. by rewrite E, E1.
  - rewrite (Z.eqb_sym (m_NumBits v)).
    destruct (negb (m_NumBits w =? m_NumBits v)); [done|].
    apply eq_true_iff_eq. rewrite !vec_eq_true. split; congruence.
Qed.

Lemma less_than_strict_order_witness :
  op_lt (fromBuffer [1; 128] 9) (fromBuffer [1; 128] 9) = false /\
  op_eq (fromBuffer [1; 128] 9) (fromBuffer [1; 128] 9) = true /\
  (op_lt (fromBuffer [1; 128] 9) (fromBuffer [2; 0] 9) = true ->
   op_lt (fromBuffer [2; 0] 9) (fromBuffer [2; 128] 9) = true ->
   op_lt (fromBuffer [1; 128] 9) (fromBuffer [2; 128] 9) = true) /\
  (op_lt (fromBuffer [1; 128] 9) (fromBuffer [2; 0] 9) = true ->
   op_lt (fromBuffer [2; 0] 9) (fromBuffer [1; 128] 9) = false /\
   op_eq (fromBuffer [1; 128] 9) (fromBuffer [2; 0] 9) = false) /\
  (op_eq (fromBuffer [1; 128] 9) (fromBuffer [2; 0] 9) = true ->
   op_eq (fromBuffer [2; 0] 9) (fromBuffer [2; 128] 9) = true ->
   op_eq (fromBuffer [1; 128] 9) (fromBuffer [2; 128] 9) = true) /\
  (op_eq (fromBuffer [1; 128] 9) (fromBuffer [2; 0] 9) = true ->
   op_lt (fromBuffer [1; 128] 9) (fromBuffer [2; 128] 9)
   = op_lt (fromBuffer [2; 0] 9) (fromBuffer [2; 128] 9) /\
   op_lt (fromBuffer [2; 128] 9) (fromBuffer [1; 128] 9)
   = op_lt (fromBuffer [2; 128] 9) (fromBuffer [2; 0] 9)) /\
  op_eq (fromBuffer [1; 128] 9) (fromBuffer [2; 0] 9)
  = op_eq (fromBuffer [2; 0] 9) (fromBuffer [1; 128] 9).
Proof. apply less_than_strict_order. Defined.

(** ** Value-returning operators and assignment *)

(** X20: for an array whose length is in the range of its type, the
    value-returning [~], [&], [^], [|] give what [Not], [&=], [^=], [|=]
    give on the left operand: the copy made through the buffer constructor
    is the operand itself.  [operator=] between arrays of one length that
    both have storage makes the target the source, storage size included,
    and [==] then holds; with different lengths, or when either storage is
    empty, it leaves the target as it is. *)
Theorem copies_and_assignment (v w : bit_array_c) :
  uint (m_NumBits v) ->
  (fromBuffer (m_Array v) (m_NumBits v) = v /\
   op_not v = Not v /\ op_and v w = and_assign v w /\
   op_xor v w = xor_assign v w /\ op_or v w = or_assign v w) /\
  (m_NumBits v = m_NumBits w -> m_Array v <> [] -> m_Array w <> [] ->
   assign v w = w /\ op_eq (assign v w) w = true) /\
  (m_NumBits v <> m_NumBits w \/ m_Array v = [] \/ m_Array w = [] -> assign v w = v).
Proof.
  intros Hu.
  assert (Hc : fromBuffer (m_Array v) (m_NumBits v) = v).
  { unfold fromBuffer. rewrite to_uint_small by done. by destruct v. }
  split; [|split].
  - unfold op_not, op_and, op_xor, op_or. by rewrite Hc.
  - intros Hn Hv Hw. unfold assign. rewrite Hn, Z.eqb_refl. simpl.
    assert ((vsize (m_Array v) =? 0) = false) as ->.
    { apply Z.eqb_neq. unfold vsize. destruct (m_Array v); [done | simpl; lia]. }
    assert ((vsize (m_Array w) =? 0) = false) as ->.
    { apply Z.eqb_neq. unfold vsize. destruct (m_Array w); [done | simpl; lia]. }
    simpl. assert (E : with_array v (m_Array w) = w).
    { unfold with_array. rewrite Hn. by destruct w. }
    rewrite E. split; [done|]. unfold op_eq. rewrite Z.eqb_refl. simpl. apply vec_eq_refl.
  - intros [Hn | [Hv | Hw]]; unfold assign.
    + by replace (m_NumBits v =? m_NumBits w) with false by (symmetry; by apply Z.eqb_neq).
    + rewrite Hv. change (vsize [] =? 0) with true. simpl.
      by destruct (negb (m_NumBits v =? m_NumBits w)).
    + rewrite Hw. change (vsize [] =? 0) with true. rewrite orb_true_r.
      by destruct (negb (m_NumBits v =? m_NumBits w)).
Qed.

Lemma copies_and_assignment_witness :
  (fromBuffer (m_Array (fromBuffer [165; 90; 160] 20)) (m_NumBits (fromBuffer [165; 90; 160] 20))
   = fromBuffer [165; 90; 160] 20 /\
   op_not (fromBuffer [165; 90; 160] 20) = Not (fromBuffer [165; 90; 160] 20) /\
   op_and (fromBuffer [165; 90; 160] 20) (fromBuffer [255; 15; 48; 7] 20)
   = and_assign (fromBuffer [165; 90; 160] 20) (fromBuffer [255; 15; 48; 7] 20) /\
   op_xor (fromBuffer [165; 90; 160] 20) (fromBuffer [255; 15; 48; 7] 20)
   = xor_assign (fromBuffer [165; 90; 160] 20) (fromBuffer [255; 15; 48; 7] 20) /\
   op_or (fromBuffer [165; 90; 160] 20) (fromBuffer [255; 15; 48; 7] 20)
   = or_assign (fromBuffer [165; 90; 160] 20) (fromBuffer [255; 15; 48; 7] 20)) /\
  (m_NumBits (fromBuffer [165; 90; 160] 20) = m_NumBits (fromBuffer [255; 15; 48; 7] 20) ->
   m_Array (fromBuffer [165; 90; 160] 20) <> [] ->
   m_Array (fromBuffer [255; 15; 48; 7] 20) <> [] ->
   assign (fromBuffer [165; 90; 160] 20) (fromBuffer [255; 15; 48; 7] 20)
   = fromBuffer [255; 15; 48; 7] 20 /\
   op_eq (assign (fromBuffer [165; 90; 160] 20) (fromBuffer [255; 15; 48; 7] 20))
         (fromBuffer [255; 15; 48; 7] 20) = true) /\
  (m_NumBits (fromBuffer [165; 90; 160] 20) <> m_NumBits (fromBuffer [255; 15; 48; 7] 20) \/
   m_Array (fromBuffer [165; 90; 160] 20) = [] \/
   m_Array (fromBuffer [255; 15; 48; 7] 20) = [] ->
   assign (fromBuffer [165; 90; 160] 20) (fromBuffer [255; 15; 48; 7] 20)
   = fromBuffer [165; 90; 160] 20).
Proof. apply copies_and_assignment. vm_compute. split; [discriminate | reflexivity]. Defined.

(** ** Not exchanges SetAll and ClearAll *)

Lemma not_extremes_char c :
  0 <= c < 8 ->
  (if c =? 0 then to_uchar (Z.lnot 0)
   else to_uchar (Z.land (to_uchar (Z.lnot 0)) (256 - 2 ^ c))) = 256 - 2 ^ c /\
  (if c =? 0 then to_uchar (Z.lnot (256 - 2 ^ c))
   else to_uchar (Z.land (to_uchar (Z.lnot (256 - 2 ^ c))) (256 - 2 ^ c))) = 0.
Proof. intros Hc. enum8 c; split; reflexivity. Qed.

(** X21: on an array under Invariant A, whatever its spare bits hold,
    [Not] after [ClearAll] gives what [SetAll] gives, and [Not] after
    [SetAll] gives what [ClearAll] gives. *)
Theorem not_exchanges_setall_clearall (v : bit_array_c) :
  well_typed v -> InvariantA v ->
  Not (ClearAll v) = SetAll v /\
  exists vs, SetAll v = Some vs /\ Not vs = Some (ClearAll v).
Proof.
  intros Ht HA. pose proof Ht as [Hu Ha].
  destruct (Z.lt_ge_cases (m_NumBits v) 1) as [H0 | H1].
  { destruct (invA_empty v Hu HA H0) as [Hn He]. destruct v as [n a]. simpl in *. subst.
    split; [done|]. by eexists. }
  destruct (invA_shape v Ht HA H1) as (l & x & c & El & Hl & Hx & Hc & Hn & _ & _).
  destruct v as [n a]. simpl in *. subst a.
  rewrite (SetAll_shape n l x c Hu Hc Hn).
  unfold ClearAll, assign_all, with_array. simpl m_Array. simpl m_NumBits.
  rewrite length_app. simpl length. rewrite replicate_add. simpl replicate.
  destruct (not_extremes_char c Hc) as [E1 E2].
  assert (Hr : forall y, n = 8 * (vsize (replicate (length l) y) + 1) - c)
    by (intros y; by rewrite vsize_replicate).
  split.
  - rewrite (Not_shape n _ 0 c Hu Hc (Hr 0)), E1. by rewrite fmap_replicate.
  - eexists. split; [done|].
    rewrite (Not_shape n _ (256 - 2 ^ c) c Hu Hc (Hr 255)), E2. by rewrite fmap_replicate.
Qed.

Lemma not_exchanges_setall_clearall_witness :
  Not (ClearAll (fromBuffer [165; 90; 175] 20)) = SetAll (fromBuffer [165; 90; 175] 20) /\
  exists vs, SetAll (fromBuffer [165; 90; 175] 20) = Some vs /\
             Not vs = Some (ClearAll (fromBuffer [165; 90; 175] 20)).
Proof.
  apply not_exchanges_setall_clearall.
  - split; [vm_compute; split; [discriminate | reflexivity]|].
    repeat constructor; vm_compute; discriminate.
  - reflexivity.
Defined.

(** ** Dump *)







